(** * Job lifecycle and result translation of the Quantinuum backend

    A shallow embedding of
    [pytket/extensions/quantinuum/backends/quantinuum.py]: result decoding
    ([_convert_result]), status parsing ([_parse_status]), submission
    ([submit_qasm], [process_circuits]), batching ([start_batch],
    [add_to_batch]) and retrieval ([circuit_status], [get_result]).

    Python dictionaries are finite maps ([gmap]) with string keys, exceptions
    are an inductive type and a method of the backend is a function from the
    backend's state to an outcome and a new state.  The API handler
    ([api_wrappers.QuantinuumAPI]) is an interface whose answers are
    parameters; every call made on it is recorded in the state. *)

From Stdlib Require Import Ascii String DecimalString DecimalZ.
From stdpp Require Import gmap strings list fin_maps sorting.

Local Open Scope string_scope.
Set Warnings "-register-all,-clear-no-such-hyp".

(** ** Python values *)

(** JSON-style values, as carried by option dictionaries, request bodies and
    the [misc] capability map of a device. *)
Inductive Json :=
| JNull
| JBool (b : bool)
| JInt (z : Z)
| JStr (s : string)
| JList (l : list Json)
| JDict (d : gmap string Json).

(** Truth value of a Python object ([if x], [not x]). *)
Definition truthy (v : Json) : bool :=
  match v with
  | JNull => false
  | JBool b => b
  | JInt z => negb (z =? 0)%Z
  | JStr s => negb (String.eqb s "")
  | JList l => match l with [] => false | _ => true end
  | JDict d => negb (bool_decide (d = ∅))
  end.

(** [d.update(other)]: every key of [other] is written into [d]. *)
Definition dict_update {A} (d other : gmap string A) : gmap string A :=
  other ∪ d.

(** Exceptions raised by the module, by the host framework and by Python.
    [ConnectionError] has four subclasses among the built-in exceptions. *)
Inductive Exn :=
| GetResultFailed
| NoSyntaxChecker
| MaxShotsExceeded
| WasmUnsupported
| BatchingUnsupported
| DeviceNotAvailable (device_name : string)
| QuantinuumAPIError
| ConnectionError
| BrokenPipeError
| ConnectionAbortedError
| ConnectionRefusedError
| ConnectionResetError
| ZeroDivisionError
| RuntimeError
| KeyError (key : string)
| ValueError
| TypeError
| IndexError
| AttributeError
| AssertionError
| CircuitNotValidError
| CircuitNotRunError.

#[global] Instance Exn_eq_dec : EqDecision Exn.
Proof. solve_decision. Defined.

(** Outcome of a Python call: a value, or a raised exception. *)
Inductive Result (A : Type) :=
| Ok (a : A)
| Raise (e : Exn).
Arguments Ok {A} a.
Arguments Raise {A} e.

Definition rbind {A B} (r : Result A) (k : A → Result B) : Result B :=
  match r with
  | Ok a => k a
  | Raise e => Raise e
  end.

Definition is_ok {A} (r : Result A) : bool :=
  match r with Ok _ => true | Raise _ => false end.

(** ** Circuits, bits and results (the host framework's data) *)

(** Operation types: those of the module's gate set, and the others. *)
Inductive OpType :=
| Rz | PhasedX | ZZMax | Reset | Measure | Barrier | RangePredicate | MultiBit
| ExplicitPredicate | ExplicitModifier | SetBits | CopyBits | ClassicalExpBox
| WASM | ZZPhase | OtherOp (name : string).

#[global] Instance OpType_eq_dec : EqDecision OpType.
Proof. solve_decision. Defined.

(** A circuit, as far as the backend reads it: its name, its qubit count,
    its classical registers (name and width), whether it has symbolic
    parameters, and the types of its operations. *)
Record Circuit := {
  circ_name : option string;
  n_qubits : nat;
  cregs : list (string * nat);
  is_symbolic : bool;
  op_types : list OpType
}.

(** Declared classical bits of a circuit. *)
Definition n_bits (c : Circuit) : nat := sum_list (c.(cregs).*2).

Record Bit := { reg_name : string; index : nat }.

#[global] Instance Bit_eq_dec : EqDecision Bit.
Proof. solve_decision. Defined.

(** [BackendResult(c_bits, shots, ppcirc)]: [shots] is the table of readouts
    of the [OutcomeArray], one row per shot, column [j] belonging to
    [c_bits !! j]. *)
Record BackendResult := {
  c_bits : list Bit;
  shots : list (list N);
  ppcirc : option Circuit
}.

(** ** Result decoding: [_convert_result] *)

Module Numpy.

(** A two-dimensional array of [uint8], with [shape[-1]]. An array built
    from an empty list has shape [(0,)]: no row, last dimension 0. *)
Record ndarray := { rows : list (list N); last_dim : nat }.

(** [astype(np.uint8)] on a one-character string: a decimal digit. *)
Definition uint8_of_char (c : ascii) : option N :=
  let n := N_of_ascii c in
  if ((48 <=? n) && (n <=? 57))%N then Some (n - 48)%N else None.

Definition uint8_row (a : string) : option (list N) :=
  mapM uint8_of_char (list_ascii_of_string a).

(** [np.array([list(a) for a in reslist]).astype(np.uint8)]: the strings
    must have one length (a ragged list is no array of characters) and
    every character must read as an integer. *)
Definition array (reslist : list string) : Result ndarray :=
  match reslist with
  | [] => Ok {| rows := []; last_dim := 0 |}
  | a0 :: _ =>
      let w := String.length a0 in
      if forallb (λ a, Nat.eqb (String.length a) w) reslist then
        match mapM uint8_row reslist with
        | Some rs => Ok {| rows := rs; last_dim := w |}
        | None => Raise ValueError
        end
      else Raise ValueError
  end.

(** [np.hstack(arrs)]: needs one array at least, and arrays of one row
    count; row [i] of the result is the rows [i] of the arrays, joined.
    Arrays without rows are the one-dimensional arrays of empty lists, and
    are joined into such an array. *)
Definition hstack (arrs : list ndarray) : Result (list (list N)) :=
  match arrs with
  | [] => Raise ValueError
  | a0 :: _ =>
      let n := length (rows a0) in
      if forallb (λ a, Nat.eqb (length (rows a)) n) arrs then
        Ok (foldr (λ a acc, zip_with app (rows a) acc) (replicate n []) arrs)
      else Raise ValueError
  end.

End Numpy.

Module OutcomeArray.

(** [np.packbits] reads every entry other than 0 as the bit 1. *)
Definition packbit (x : N) : N := if N.eqb x 0 then 0%N else 1%N.

(** [OutcomeArray.from_readouts]: the readouts are packed as bits, and the
    packed array must have two dimensions. The array without rows is the
    one-dimensional one (see [Numpy.hstack]), and is refused with
    [ValueError]. *)
Definition from_readouts (readouts : list (list N)) : Result (list (list N)) :=
  match readouts with
  | [] => Raise ValueError
  | _ :: _ => Ok (fmap (M := list) (fmap (M := list) packbit) readouts)
  end.

End OutcomeArray.

(** Order of Python strings: [s1 >= s2]. *)
Definition str_ge (s1 s2 : string) : Prop := String.leb s2 s1 = true.

#[global] Instance str_ge_dec s1 s2 : Decision (str_ge s1 s2).
Proof. unfold str_ge. apply _. Defined.

(** [sorted(d.keys(), reverse=True)] *)
Definition sorted_reverse (keys : list string) : list string :=
  merge_sort str_ge keys.

(** A comprehension whose body may raise: the first exception met ends it. *)
Fixpoint result_mapM {A B} (f : A → Result B) (l : list A) : Result (list B) :=
  match l with
  | [] => Ok []
  | x :: l => rbind (f x) (λ y, rbind (result_mapM f l) (λ k, Ok (y :: k)))
  end.

(** [{k: f(v) for k, v in d.items()}] *)
Definition dict_comprehension {A B} (f : A → Result B) (d : gmap string A)
  : Result (gmap string B) :=
  rbind (result_mapM (λ kv, rbind (f kv.2) (λ b, Ok (kv.1, b))) (map_to_list d))
    (λ items, Ok (list_to_map items)).

(** [range(w - 1, -1, -1)] *)
Definition range_down (w : nat) : list nat := rev (seq 0 w).

Definition _convert_result (resultdict : gmap string (list string))
    (ppcirc : option Circuit) : Result BackendResult :=
  rbind (dict_comprehension Numpy.array resultdict) (λ array_dict,
    let reversed_creg_names := sorted_reverse (map_to_list array_dict).*1 in
    let c_bits :=
      name ← reversed_creg_names;
      ind ← range_down (default 0 (Numpy.last_dim <$> array_dict !! name));
      [ {| reg_name := name; index := ind |} ] in
    rbind (Numpy.hstack
             (omap (λ name, array_dict !! name) reversed_creg_names))
      (λ stacked_array,
         rbind (OutcomeArray.from_readouts stacked_array) (λ shots,
           Ok {| c_bits := c_bits; shots := shots; ppcirc := ppcirc |}))).

(** ** Properties of the decoding *)

(** A bit-string: characters ['0'] and ['1'] only. *)
Definition bit_char (c : ascii) : Prop := c = "0"%char ∨ c = "1"%char.
Definition bit_string (s : string) : Prop :=
  Forall bit_char (list_ascii_of_string s).

Definition bit_value (c : ascii) : N := if Ascii.eqb c "1" then 1%N else 0%N.
Definition bits_of (s : string) : list N :=
  bit_value <$> list_ascii_of_string s.

(** A payload of [n] shots whose register [name] is [w name] bits wide. *)
Definition well_formed (m : gmap string (list string)) (n : nat)
    (w : string → nat) : Prop :=
  ∀ name l, m !! name = Some l →
    length l = n ∧ Forall (λ s, String.length s = w name ∧ bit_string s) l.

(** The bits read for register [name] in shot [i], as they are written. *)
Definition shot_bits (m : gmap string (list string)) (name : string)
    (i : nat) : list N :=
  match m !! name ≫= (.!! i) with
  | Some s => bits_of s
  | None => []
  end.

(** Strictly descending register names. *)
Definition str_gt (s1 s2 : string) : Prop := str_ge s1 s2 ∧ s1 ≠ s2.

(** The array of a register's bit-strings. *)
Definition decoded (l : list string) : Numpy.ndarray :=
  {| Numpy.rows := bits_of <$> l;
     Numpy.last_dim := match l with [] => 0 | s :: _ => String.length s end |}.

(** The column labels of a register, most significant bit first. *)
Definition msb_first (name : string) (width : nat) : list Bit :=
  (λ i, {| reg_name := name; index := i |}) <$> range_down width.

(** ** The backend's data *)

(** The status enumeration of the host framework. *)
Inductive StatusEnum :=
| COMPLETED | QUEUED | SUBMITTED | RUNNING | RETRYING | CANCELLING | CANCELLED
| ERROR.

#[global] Instance StatusEnum_eq_dec : EqDecision StatusEnum.
Proof. solve_decision. Defined.

(** [CircuitStatus(status, message)]; the message defaults to [""]. *)
Record CircuitStatus := { status : StatusEnum; message : string }.

Record BackendInfo := {
  device_name : string;
  n_nodes : Z;
  gate_set : list OpType;
  misc : gmap string Json
}.

(** A result handle: the job id and the serialized post-processing circuit. *)
Abbreviation ResultHandle := (string * string)%type.

(** A status or job record of the remote service: its [status] key, its
    [results] key (register name to list of bit-strings) and the other keys
    ([name], [submit-date], [result-date], [queue-position], [cost],
    [error], ...). A key that is [None] here is absent from the record. *)
Record JobDict := {
  jd_status : option string;
  jd_results : option (gmap string (list string));
  jd_info : gmap string Json
}.

(** The response to a submission: [res.status_code] and the keys [job] and
    [error] of [res.json()]. *)
Record SubmitResponse := {
  status_code : Z;
  job : option string;
  error : option string
}.

(** ** The API handler *)

(** Calls made on the API handler (and the device listing request). *)
Inductive ApiCall :=
| Login
| MachineList
| SubmitJob (body : gmap string Json)
| RetrieveJobStatus (jobid : string) (use_websocket : bool)
| RetrieveJob (jobid : string) (use_websocket : option bool)
    (timeout wait : option Z)
| Cancel (jobid : string).

(** The handler's behaviour: what each call returns or raises, given the
    calls made before it. [api_wrappers.py] is not part of the embedding. *)
Record QuantinuumAPI := {
  online : bool;
  login : list ApiCall → Result string;
  machine_list : list ApiCall → Result (list (gmap string Json));
  _submit_job : list ApiCall → gmap string Json → Result SubmitResponse;
  retrieve_job_status :
    list ApiCall → string → bool → Result (option JobDict);
  retrieve_job :
    list ApiCall → string → option bool → option Z → option Z →
    Result (option JobDict);
  cancel_job : list ApiCall → string → Result unit
}.

(** Predicates of the host framework. *)
Inductive Predicate :=
| NoSymbolsPredicate
| GateSetPredicate (gs : list OpType)
| MaxNQubitsPredicate (n : Z).

(** Functions of the host framework and of the [json] module. *)
Inductive NShots :=
| NoShots
| IntShots (n : Z)
| SeqShots (l : list (option Z)).

Record Pytket := {
  prepare_circuit : Circuit → Circuit * Circuit;
  circuit_to_qasm_str : Circuit → Result string;
  circuit_to_json : Circuit → string;
  circuit_from_json : string → Result (option Circuit);
  json_dumps : gmap string Json → string;
  _get_n_shots_as_list : NShots → nat → Result (list Z);
  verify : Predicate → Circuit → bool
}.

(** ** State of a backend instance *)

Record Backend := {
  _device_name : string;
  _label : option string;
  _group : option string;
  _backend_info : option BackendInfo;
  _MACHINE_DEBUG : bool;
  simulator_type : string;
  _process_circuits_options : gmap string Json;
  _cache : gmap (string * string) (option BackendResult);
  api_log : list ApiCall
}.

Definition set_backend_info (bi : option BackendInfo) (σ : Backend) : Backend :=
  {| _device_name := _device_name σ; _label := _label σ; _group := _group σ;
     _backend_info := bi; _MACHINE_DEBUG := _MACHINE_DEBUG σ;
     simulator_type := simulator_type σ;
     _process_circuits_options := _process_circuits_options σ;
     _cache := _cache σ; api_log := api_log σ |}.

Definition set_cache (c : gmap (string * string) (option BackendResult))
    (σ : Backend) : Backend :=
  {| _device_name := _device_name σ; _label := _label σ; _group := _group σ;
     _backend_info := _backend_info σ; _MACHINE_DEBUG := _MACHINE_DEBUG σ;
     simulator_type := simulator_type σ;
     _process_circuits_options := _process_circuits_options σ;
     _cache := c; api_log := api_log σ |}.

Definition log_call (c : ApiCall) (σ : Backend) : Backend :=
  {| _device_name := _device_name σ; _label := _label σ; _group := _group σ;
     _backend_info := _backend_info σ; _MACHINE_DEBUG := _MACHINE_DEBUG σ;
     simulator_type := simulator_type σ;
     _process_circuits_options := _process_circuits_options σ;
     _cache := _cache σ; api_log := api_log σ ++ [c] |}.

(** A method: from the state to an outcome and the state left behind. An
    exception keeps the state reached when it was raised. *)
Definition M (A : Type) : Type := Backend → Result A * Backend.

Definition ret {A} (a : A) : M A := λ σ, (Ok a, σ).
Definition raise {A} (e : Exn) : M A := λ σ, (Raise e, σ).
Definition bind {A B} (m : M A) (k : A → M B) : M B :=
  λ σ, match m σ with
       | (Ok a, σ') => k a σ'
       | (Raise e, σ') => (Raise e, σ')
       end.
Definition get_self : M Backend := λ σ, (Ok σ, σ).
Definition modify (f : Backend → Backend) : M unit := λ σ, (Ok tt, f σ).
Definition lift {A} (r : Result A) : M A := λ σ, (r, σ).

(** [try: m except handles: handler] *)
Definition try_except {A} (m : M A) (handles : Exn → bool) (handler : Exn → M A)
  : M A :=
  λ σ, match m σ with
       | (Ok a, σ') => (Ok a, σ')
       | (Raise e, σ') => if handles e then handler e σ' else (Raise e, σ')
       end.

(** A call on the API handler: recorded, then answered. *)
Definition api_call {A} (c : ApiCall) (answer : list ApiCall → Result A) : M A :=
  λ σ, (answer (api_log σ), log_call c σ).

Notation "'let!' x ':=' m 'in' k" := (bind m (λ x, k))
  (at level 10, x name, m at level 100, k at level 200).
Notation "'let!' '_' ':=' m 'in' k" := (bind m (λ _, k))
  (at level 10, m at level 100, k at level 200).

(** ** Module constants and helpers *)

Definition _DEBUG_HANDLE_PREFIX : string := "_MACHINE_DEBUG_".

Definition _STATUS_MAP : gmap string StatusEnum :=
  list_to_map
    [ ("queued", QUEUED); ("running", RUNNING); ("completed", COMPLETED);
      ("failed", ERROR); ("canceling", CANCELLED); ("canceled", CANCELLED) ].

Definition _GATE_SET : list OpType :=
  [ Rz; PhasedX; ZZMax; Reset; Measure; Barrier; RangePredicate; MultiBit;
    ExplicitPredicate; ExplicitModifier; SetBits; CopyBits; ClassicalExpBox;
    WASM ].

(** [x in gates] for a string [x]: an element of a list, a substring of a
    string, a key of a dictionary. *)
Definition json_contains (x : string) (gates : Json) : Result bool :=
  match gates with
  | JList l =>
      Ok (existsb (λ v, match v with JStr s => String.eqb s x | _ => false end) l)
  | JStr s =>
      Ok (match String.index 0 x s with Some _ => true | None => false end)
  | JDict d => Ok (bool_decide (is_Some (d !! x)))
  | _ => Raise TypeError
  end.

Definition _get_gateset (gates : Json) : Result (list OpType) :=
  rbind (json_contains "RZZ" gates) (λ rzz,
    Ok (if rzz then (_GATE_SET ++ [ZZPhase])%list else _GATE_SET)).

(** [str(n)] for an integer and [str((a, b))] for a pair of integers. *)
Definition str_int (z : Z) : string := NilEmpty.string_of_int (Z.to_int z).

Definition str_pair (a b : Z) : string :=
  "(" ++ str_int a ++ ", " ++ str_int b ++ ")".

(** An integer literal, as [str] writes it. *)
Definition int_literal (s : string) : option Z :=
  match NilEmpty.int_of_string s with
  | Some d =>
      let z := Z.of_int d in
      if String.eqb (str_int z) s then Some z else None
  | None => None
  end.

(** The text before and after the first [sep] of [s]. *)
Fixpoint split_at (sep : ascii) (s : string) : option (string * string) :=
  match s with
  | "" => None
  | String c s' =>
      if Ascii.eqb c sep then Some ("", s')
      else '(a, b) ← split_at sep s'; Some (String c a, b)
  end.

(** [literal_eval] on the text that [str] writes for a pair of integers,
    which is the text of the debug handles that [process_circuits] makes.
    [literal_eval] reads further texts and raises [SyntaxError] on
    malformed ones; they are not told apart here, every text of another
    shape is refused with [ValueError]. *)
Definition literal_eval_pair (s : string) : Result (Z * Z) :=
  match s with
  | String "(" s1 =>
      match split_at "," s1 with
      | Some (a, String " " s2) =>
          match split_at ")" s2 with
          | Some (b, "") =>
              match int_literal a, int_literal b with
              | Some x, Some y => Ok (x, y)
              | _, _ => Raise ValueError
              end
          | _ => Raise ValueError
          end
      | _ => Raise ValueError
      end
  | _ => Raise ValueError
  end.

(** [s[n:]] *)
Fixpoint str_drop (n : nat) (s : string) : string :=
  match n, s with
  | 0, _ => s
  | S n, String _ s' => str_drop n s'
  | S _, "" => ""
  end.

(** [s * n] for a string and [l * n] for a list: empty when [n <= 0]. *)
Definition str_times (s : string) (n : Z) : string :=
  String.concat "" (replicate (Z.to_nat n) s).
Definition list_times {A} (l : list A) (n : Z) : list A :=
  mjoin (replicate (Z.to_nat n) l).

(** [n_shots > max_shots], after [max_shots is not None]. *)
Definition exceeds (n_shots : Z) (max_shots : Json) : Result bool :=
  match max_shots with
  | JNull => Ok false
  | JInt m => Ok (m <? n_shots)%Z
  | JBool b => Ok ((if b then 1 else 0) <? n_shots)%Z
  | _ => Raise TypeError
  end.

(** [misc.get(key, False)] and [misc.get(key)] *)
Definition misc_get (bi : BackendInfo) (key : string) (dflt : Json) : Json :=
  default dflt (misc bi !! key).

(** Keyword arguments; [None] is a key that was not given. *)
Record Kwargs := {
  kw_postprocess : option bool;
  kw_noisy_simulation : option bool;
  kw_group : option (option string);
  kw_wasm_file_handler : option string;
  kw_pytketpass : option Json;
  kw_no_opt : option bool;
  kw_options : option (gmap string Json);
  kw_request_options : option (gmap string Json);
  kw_use_websocket : option bool;
  kw_timeout : option Z;
  kw_wait : option Z
}.

Definition no_kwargs : Kwargs :=
  {| kw_postprocess := None; kw_noisy_simulation := None; kw_group := None;
     kw_wasm_file_handler := None; kw_pytketpass := None; kw_no_opt := None;
     kw_options := None; kw_request_options := None;
     kw_use_websocket := None; kw_timeout := None; kw_wait := None |}.

(** [kwargs["request_options"] = req] *)
Definition set_request_options (req : gmap string Json) (kw : Kwargs) : Kwargs :=
  {| kw_postprocess := kw_postprocess kw;
     kw_noisy_simulation := kw_noisy_simulation kw; kw_group := kw_group kw;
     kw_wasm_file_handler := kw_wasm_file_handler kw;
     kw_pytketpass := kw_pytketpass kw; kw_no_opt := kw_no_opt kw;
     kw_options := kw_options kw; kw_request_options := Some req;
     kw_use_websocket := kw_use_websocket kw; kw_timeout := kw_timeout kw;
     kw_wait := kw_wait kw |}.

(** [x or y] on optional strings: [None] and [""] are false. *)
Definition str_or (x y : option string) : option string :=
  match x with
  | Some s => if String.eqb s "" then y else Some s
  | None => y
  end.

(** [f"{label}"] *)
Definition str_optional (label : option string) : string :=
  match label with Some s => s | None => "None" end.

(** [except ConnectionError]: the class and its built-in subclasses. *)
Definition is_connection_error (e : Exn) : bool :=
  match e with
  | ConnectionError | BrokenPipeError | ConnectionAbortedError
  | ConnectionRefusedError | ConnectionResetError => true
  | _ => false
  end.

(** The outcome of a call under
    [except ConnectionError: raise ConnectionError(...)]. *)
Definition reraise_connection_error {A} (r : Result A) : Result A :=
  match r with
  | Ok a => Ok a
  | Raise e => Raise (if is_connection_error e then ConnectionError else e)
  end.

(** ** Methods of [QuantinuumBackend] *)

Section backend.

Context (host : Pytket) (api : QuantinuumAPI).

Definition _parse_status (response : JobDict) : Result CircuitStatus :=
  match jd_status response with
  | None => Raise (KeyError "status")
  | Some h_status =>
      let msgdict : gmap string Json :=
        list_to_map
          ((λ k, (k, default JNull (jd_info response !! k))) <$>
             [ "name"; "submit-date"; "result-date"; "queue-position";
               "cost"; "error" ]) in
      let message := json_dumps host msgdict in
      match _STATUS_MAP !! h_status with
      | Some st => Ok {| status := st; message := message |}
      | None => Raise (KeyError h_status)
      end
  end.

(** [_available_devices]: a login, then the device listing (the HTTP request
    and its check when the handler is online, the handler's own list
    otherwise). *)
Definition _available_devices : M (list (gmap string Json)) :=
  let! id_token := api_call Login (login api) in
  api_call MachineList (machine_list api).

(** [FullyConnected(n_qubits)] takes an unsigned 32-bit number and raises
    [TypeError] on any other; it is evaluated before [_get_gateset]. *)
Definition _dict_to_backendinfo (dct : gmap string Json) : Result BackendInfo :=
  match dct !! "name" with
  | None => Raise (KeyError "name")
  | Some name =>
      let dct := delete "name" dct in
      match dct !! "n_qubits" with
      | None => Raise (KeyError "n_qubits")
      | Some n_qubits =>
          let dct := delete "n_qubits" dct in
          let gate_set := default (JList []) (dct !! "gateset") in
          let dct := delete "gateset" dct in
          match name, n_qubits with
          | JStr name, JInt n =>
              if ((0 <=? n) && (n <? 2 ^ 32))%Z then
                rbind (_get_gateset gate_set) (λ gs,
                  Ok {| device_name := name; n_nodes := n; gate_set := gs;
                        misc := dct |})
              else Raise TypeError
          | _, _ => Raise TypeError
          end
      end
  end.

(** [next(entry for entry in jr if entry["name"] == machine)] *)
Fixpoint find_machine (machine : string) (jr : list (gmap string Json))
  : Result (gmap string Json) :=
  match jr with
  | [] => Raise (DeviceNotAvailable machine)
  | entry :: jr =>
      match entry !! "name" with
      | None => Raise (KeyError "name")
      | Some (JStr s) =>
          if String.eqb s machine then Ok entry else find_machine machine jr
      | Some _ => find_machine machine jr
      end
  end.

Definition _retrieve_backendinfo (machine : string) : M BackendInfo :=
  let! jr := _available_devices in
  let! _machine_info := lift (find_machine machine jr) in
  let! σ := get_self in
  let _machine_info :=
    <["options" := JDict (_process_circuits_options σ)]> _machine_info in
  lift (_dict_to_backendinfo _machine_info).

(** The [backend_info] property: fetched once, and never in debug mode. *)
Definition backend_info : M (option BackendInfo) :=
  let! σ := get_self in
  match _backend_info σ with
  | None =>
      if negb (_MACHINE_DEBUG σ) then
        let! bi := _retrieve_backendinfo (_device_name σ) in
        let! _ := modify (set_backend_info (Some bi)) in
        ret (Some bi)
      else ret None
  | Some bi => ret (Some bi)
  end.

Definition _gate_set : M (list OpType) :=
  let! σ := get_self in
  if _MACHINE_DEBUG σ then ret _GATE_SET
  else
    let! bi := backend_info in
    match bi with
    | Some bi => ret (gate_set bi)
    | None => raise AttributeError
    end.

Definition required_predicates : M (list Predicate) :=
  let! gs := _gate_set in
  let preds := [ NoSymbolsPredicate; GateSetPredicate gs ] in
  let! σ := get_self in
  if negb (_MACHINE_DEBUG σ) then
    let! bi := backend_info in
    match bi with
    | None => raise AssertionError
    | Some _ =>
        let! bi := backend_info in
        match bi with
        | Some bi => ret (preds ++ [ MaxNQubitsPredicate (n_nodes bi) ])%list
        | None => raise AttributeError
        end
    end
  else ret preds.

(** [Backend._check_all_circuits] of the host framework: every circuit must
    satisfy the required predicates. *)
Fixpoint _check_all_circuits (circuits : list Circuit) : M unit :=
  match circuits with
  | [] => ret tt
  | circ :: circuits =>
      let! preds := required_predicates in
      if forallb (λ p, verify host p circ) preds then _check_all_circuits circuits
      else raise CircuitNotValidError
  end.

(** The request body of [submit_qasm], in the order the method fills it:
    the fixed keys, the compilation pass, the group, the WASM module, the
    instance's options, the call's options, and last the request options. *)
Definition request_body (σ : Backend) (qasm : string) (n_shots : Z)
    (name : option string) (noisy_simulation : bool) (group : option string)
    (wasm_file_handler : option string) (pytket_pass : option Json)
    (no_opt : bool) (options : option (gmap string Json))
    (request_options : option (gmap string Json)) : gmap string Json :=
  let tket : gmap string Json :=
    match pytket_pass with
    | Some p => {[ "compilation-pass" := p ]}
    | None => ∅
    end in
  let opts : gmap string Json :=
    list_to_map
      [ ("simulator", JStr (simulator_type σ)); ("no-opt", JBool no_opt);
        ("error-model", JBool noisy_simulation); ("tket", JDict tket) ] in
  let body : gmap string Json :=
    list_to_map
      [ ("name", JStr (default (str_optional (_label σ)) (str_or name None)));
        ("count", JInt n_shots); ("machine", JStr (_device_name σ));
        ("language", JStr "OPENQASM 2.0"); ("program", JStr qasm);
        ("priority", JStr "normal") ] in
  let group := str_or group (_group σ) in
  let body :=
    match group with
    | Some g => <["group" := JStr g]> body
    | None => body
    end in
  let body :=
    match wasm_file_handler with
    | Some wasm => <["cfl" := JStr wasm]> body
    | None => body
    end in
  let opts := dict_update opts (_process_circuits_options σ) in
  let opts :=
    match options with
    | Some options => dict_update opts options
    | None => opts
    end in
  let body := <["options" := JDict opts]> body in
  dict_update body (default ∅ request_options).

(** The guard of [submit_qasm] on a WASM module: the device, when it is
    known, must support WASM. *)
Definition check_wasm (wasm_file_handler : option string) : M unit :=
  match wasm_file_handler with
  | Some _ =>
      let! bi := backend_info in
      match bi with
      | Some _ =>
          let! bi := backend_info in
          match bi with
          | Some bi =>
              if negb (truthy (misc_get bi "wasm" (JBool false)))
              then raise WasmUnsupported else ret tt
          | None => raise AttributeError
          end
      | None => ret tt
      end
  | None => ret tt
  end.

(** What [submit_qasm] makes of the response to the submission. *)
Definition submitted_handle (res : SubmitResponse) : Result ResultHandle :=
  if online api then
    if bool_decide (status_code res = 200%Z) then
      match job res with
      | Some jobid => Ok (jobid, "null")
      | None => Raise (KeyError "job")
      end
    else
      match error res with
      | Some _ => Raise QuantinuumAPIError
      | None => Raise (KeyError "error")
      end
  else Ok ("", "null").

Definition submit_qasm (qasm : string) (n_shots : Z) (name : option string)
    (noisy_simulation : bool) (group : option string)
    (wasm_file_handler : option string) (pytket_pass : option Json)
    (no_opt : bool) (options : option (gmap string Json))
    (request_options : option (gmap string Json)) : M ResultHandle :=
  let! σ := get_self in
  let! _ := check_wasm wasm_file_handler in
  let body :=
    request_body σ qasm n_shots name noisy_simulation group wasm_file_handler
      pytket_pass no_opt options request_options in
  let! res :=
    try_except (api_call (SubmitJob body) (λ log, _submit_job api log body))
      is_connection_error (λ _, raise ConnectionError) in
  lift (submitted_handle res).

(** [json.dumps(ppcirc_rep)]: the text of the post-processing circuit, or
    [null]. *)
Definition dumps_ppcirc_rep (ppcirc_rep : option Circuit) : string :=
  match ppcirc_rep with
  | Some c => circuit_to_json host c
  | None => "null"
  end.

(** One turn of the loop of [process_circuits]. *)
Definition process_circuit_body (kwargs : Kwargs) (max_shots : Json)
    (circ : Circuit) (n_shots : Z) : M ResultHandle :=
  let postprocess := default false (kw_postprocess kwargs) in
  let noisy_simulation := default true (kw_noisy_simulation kwargs) in
  let! σ := get_self in
  let group := default (_group σ) (kw_group kwargs) in
  let wasm_fh := kw_wasm_file_handler kwargs in
  let pytket_pass := kw_pytketpass kwargs in
  let no_opt := default false (kw_no_opt kwargs) in
  let! too_many := lift (exceeds n_shots max_shots) in
  if too_many then raise MaxShotsExceeded
  else
    let '(c0, ppcirc_rep) :=
      if postprocess then
        let '(c0, ppcirc) := prepare_circuit host circ in (c0, Some ppcirc)
      else (circ, None) in
    let! quantinuum_circ := lift (circuit_to_qasm_str host c0) in
    if _MACHINE_DEBUG σ then
      ret (_DEBUG_HANDLE_PREFIX ++ str_pair (Z.of_nat (n_qubits circ)) n_shots,
           dumps_ppcirc_rep ppcirc_rep)
    else
      let! handle :=
        submit_qasm quantinuum_circ n_shots (str_or (circ_name circ) None)
          noisy_simulation group wasm_fh pytket_pass no_opt
          (Some (default ∅ (kw_options kwargs)))
          (Some (default ∅ (kw_request_options kwargs))) in
      let handle := (handle.1, dumps_ppcirc_rep ppcirc_rep) in
      let! _ := modify (λ σ, set_cache (<[handle := None]> (_cache σ)) σ) in
      ret handle.

Fixpoint process_circuits_loop (kwargs : Kwargs) (max_shots : Json)
    (l : list (Circuit * Z)) : M (list ResultHandle) :=
  match l with
  | [] => ret []
  | (circ, n_shots) :: l =>
      let! handle := process_circuit_body kwargs max_shots circ n_shots in
      let! handle_list := process_circuits_loop kwargs max_shots l in
      ret (handle :: handle_list)
  end.

Definition process_circuits (circuits : list Circuit) (n_shots : NShots)
    (valid_check : bool) (kwargs : Kwargs) : M (list ResultHandle) :=
  let! n_shots_list :=
    lift (_get_n_shots_as_list host n_shots (length circuits)) in
  let! _ := if valid_check then _check_all_circuits circuits else ret tt in
  let! bi := backend_info in
  let! max_shots :=
    match bi with
    | Some _ =>
        let! bi := backend_info in
        match bi with
        | Some bi => ret (misc_get bi "n_shots" JNull)
        | None => raise AttributeError
        end
    | None => ret JNull
    end in
  process_circuits_loop kwargs max_shots (zip circuits n_shots_list).

Definition _check_batchable : M unit :=
  let! bi := backend_info in
  match bi with
  | Some _ =>
      let! bi := backend_info in
      match bi with
      | Some bi =>
          if negb (truthy (misc_get bi "batching" (JBool false)))
          then raise BatchingUnsupported else ret tt
      | None => raise AttributeError
      end
  | None => ret tt
  end.

Definition get_jobid (handle : ResultHandle) : string := handle.1.

Definition start_batch (max_batch_cost : Z) (circuit : Circuit)
    (n_shots : NShots) (valid_check : bool) (kwargs : Kwargs)
  : M ResultHandle :=
  let! _ := _check_batchable in
  let kwargs :=
    set_request_options {[ "batch-exec" := JInt max_batch_cost ]} kwargs in
  let! handles := process_circuits [circuit] n_shots valid_check kwargs in
  match handles with
  | [h1] =>
      let use_websocket := default true (kw_use_websocket kwargs) in
      let! _ :=
        api_call (RetrieveJobStatus h1.1 use_websocket)
          (λ log, retrieve_job_status api log h1.1 use_websocket) in
      ret h1
  | _ => raise ValueError
  end.

Definition add_to_batch (batch_start_job : ResultHandle) (circuit : Circuit)
    (n_shots : NShots) (batch_end : bool) (valid_check : bool)
    (kwargs : Kwargs) : M ResultHandle :=
  let! _ := _check_batchable in
  let req_opt : gmap string Json :=
    {[ "batch-exec" := JStr (get_jobid batch_start_job) ]} in
  let req_opt :=
    if batch_end then <["batch-end" := JBool true]> req_opt else req_opt in
  let kwargs := set_request_options req_opt kwargs in
  let! handles := process_circuits [circuit] n_shots valid_check kwargs in
  match handles with
  | h :: _ => ret h
  | [] => raise IndexError
  end.

(** The handler is always set, and the retrieval runs with the timeouts of
    the call ([override_timeouts] puts the former ones back afterwards). *)
Definition _retrieve_job (jobid : string) (timeout wait : option Z)
    (use_websocket : option bool) : M JobDict :=
  let! job_dict :=
    api_call (RetrieveJob jobid use_websocket timeout wait)
      (λ log, retrieve_job api log jobid use_websocket timeout wait) in
  match job_dict with
  | None => raise RuntimeError
  | Some job_dict => ret job_dict
  end.

Definition cancel (handle : ResultHandle) : M unit :=
  api_call (Cancel handle.1) (λ log, cancel_job api log handle.1).

(** The result is written into the entry of the handle, which is made if
    it is missing. *)
Definition _update_cache_result (handle : ResultHandle) (res : BackendResult)
  : M unit :=
  modify (λ σ, set_cache (<[handle := Some res]> (_cache σ)) σ).

(** A debug handle: the backend is in debug mode, or the job id has the
    debug prefix. *)
Definition is_debug_handle (σ : Backend) (jobid : string) : bool :=
  _MACHINE_DEBUG σ || String.prefix _DEBUG_HANDLE_PREFIX jobid.

(** A handle is a pair of strings here, so [_check_handle_type] passes. *)
Definition circuit_status (handle : ResultHandle) (kwargs : Kwargs)
  : M CircuitStatus :=
  let jobid := handle.1 in
  let! σ := get_self in
  if is_debug_handle σ jobid then
    ret {| status := COMPLETED; message := "" |}
  else
    let use_websocket := default true (kw_use_websocket kwargs) in
    let! response :=
      try_except
        (api_call (RetrieveJobStatus jobid use_websocket)
           (λ log, retrieve_job_status api log jobid use_websocket))
        (λ e, bool_decide (e = QuantinuumAPIError))
        (λ _,
           let! _ := api_call Login (login api) in
           api_call (RetrieveJobStatus jobid use_websocket)
             (λ log, retrieve_job_status api log jobid use_websocket)) in
    match response with
    | None => raise RuntimeError
    | Some response =>
        let! circ_status := lift (_parse_status response) in
        let! _ :=
          if bool_decide (status circ_status = COMPLETED) then
            match jd_results response with
            | Some results =>
                let! ppcirc := lift (circuit_from_json host handle.2) in
                let! res := lift (_convert_result results ppcirc) in
                _update_cache_result handle res
            | None => ret tt
            end
          else ret tt in
        ret circ_status
    end.

(** [Backend.get_result] of the host framework: the cached result, or
    [CircuitNotRunError]. *)
Definition Backend_get_result (handle : ResultHandle) : M BackendResult :=
  let! σ := get_self in
  match _cache σ !! handle with
  | Some (Some res) => ret res
  | _ => raise CircuitNotRunError
  end.

Definition get_result (handle : ResultHandle) (kwargs : Kwargs)
  : M BackendResult :=
  try_except (Backend_get_result handle)
    (λ e, bool_decide (e = CircuitNotRunError))
    (λ _,
       let jobid := handle.1 in
       let! ppcirc := lift (circuit_from_json host handle.2) in
       let! σ := get_self in
       if is_debug_handle σ jobid then
         let debug_handle_info :=
           str_drop (String.length _DEBUG_HANDLE_PREFIX) jobid in
         let! info := lift (literal_eval_pair debug_handle_info) in
         let '(n_qubits, shots) := info in
         lift (_convert_result
                 {[ "c" := list_times [str_times "0" n_qubits] shots ]} ppcirc)
       else
         let timeout := kw_timeout kwargs in
         let wait := kw_wait kwargs in
         let use_websocket := kw_use_websocket kwargs in
         let! job_retrieve := _retrieve_job jobid timeout wait use_websocket in
         let! circ_status := lift (_parse_status job_retrieve) in
         if negb (bool_decide (status circ_status = COMPLETED)
                  || bool_decide (status circ_status = CANCELLED))
         then raise GetResultFailed
         else
           match jd_results job_retrieve with
           | None => raise GetResultFailed
           | Some res =>
               let! backres := lift (_convert_result res ppcirc) in
               let! _ := _update_cache_result handle backres in
               ret backres
           end).

End backend.

(** ** The environment *)

(** The exceptions that the backend's module defines. The API handler and
    the host framework are loaded before them and raise none of them. *)
Definition own_exception (e : Exn) : bool :=
  match e with
  | GetResultFailed | NoSyntaxChecker | MaxShotsExceeded | WasmUnsupported
  | BatchingUnsupported | DeviceNotAvailable _ => true
  | _ => false
  end.

Definition foreign {A} (r : Result A) : Prop :=
  ∀ e, r = Raise e → own_exception e = false.

Record api_foreign (api : QuantinuumAPI) : Prop := {
  login_foreign : ∀ log, foreign (login api log);
  machine_list_foreign : ∀ log, foreign (machine_list api log);
  submit_job_foreign : ∀ log body, foreign (_submit_job api log body);
  retrieve_job_status_foreign :
    ∀ log jobid ws, foreign (retrieve_job_status api log jobid ws);
  retrieve_job_foreign :
    ∀ log jobid ws t w, foreign (retrieve_job api log jobid ws t w);
  cancel_job_foreign : ∀ log jobid, foreign (cancel_job api log jobid)
}.

Record host_foreign (host : Pytket) : Prop := {
  circuit_to_qasm_str_foreign : ∀ c, foreign (circuit_to_qasm_str host c);
  circuit_from_json_foreign : ∀ s, foreign (circuit_from_json host s);
  get_n_shots_foreign : ∀ ns n, foreign (_get_n_shots_as_list host ns n)
}.

(** The state of a backend made with [machine_debug=True]: no device
    descriptor is ever fetched. *)
Definition debug_mode (σ : Backend) : Prop :=
  _MACHINE_DEBUG σ = true ∧ _backend_info σ = None.

(** ** Debug mode, as equations *)

(** The predicates required in debug mode. *)
Definition debug_predicates : list Predicate :=
  [ NoSymbolsPredicate; GateSetPredicate _GATE_SET ].

(** The handle that one turn of the loop of [process_circuits] gives in
    debug mode. *)
Definition debug_handle (host : Pytket) (kwargs : Kwargs) (circ : Circuit)
    (n_shots : Z) : Result ResultHandle :=
  let '(c0, ppcirc_rep) :=
    if default false (kw_postprocess kwargs) then
      let '(c0, ppcirc) := prepare_circuit host circ in (c0, Some ppcirc)
    else (circ, None) in
  rbind (circuit_to_qasm_str host c0) (λ _,
    Ok (_DEBUG_HANDLE_PREFIX ++ str_pair (Z.of_nat (n_qubits circ)) n_shots,
        dumps_ppcirc_rep host ppcirc_rep)).

(** The outcome of [process_circuits] in debug mode. *)
Definition debug_handles (host : Pytket) (circuits : list Circuit)
    (n_shots : NShots) (valid_check : bool) (kwargs : Kwargs)
  : Result (list ResultHandle) :=
  rbind (_get_n_shots_as_list host n_shots (length circuits)) (λ n_shots_list,
    rbind (if valid_check
              && negb (forallb (λ c, forallb (λ p, verify host p c) debug_predicates)
                         circuits)
           then Raise CircuitNotValidError else Ok tt) (λ _,
      result_mapM (λ cn, debug_handle host kwargs cn.1 cn.2)
        (zip circuits n_shots_list))).

(** ** The constructor, and sample environments *)

(** [QuantinuumBackend(device_name, label, simulator, group, machine_debug,
    options=...)] *)
Definition new_backend (device_name : string) (label : option string)
    (simulator : string) (group : option string) (machine_debug : bool)
    (options : gmap string Json) : Backend :=
  {| _device_name := device_name; _label := label; _group := group;
     _backend_info := None; _MACHINE_DEBUG := machine_debug;
     simulator_type := simulator; _process_circuits_options := options;
     _cache := ∅; api_log := [] |}.

Definition empty_circuit : Circuit :=
  {| circ_name := None; n_qubits := 0; cregs := []; is_symbolic := false;
     op_types := [] |}.

(** A host whose serializers are trivial, and whose shot list is the one of
    a backend that requires a positive shot count for every circuit. *)
Definition sample_host : Pytket :=
  {| prepare_circuit := λ c, (c, empty_circuit);
     circuit_to_qasm_str := λ _, Ok "OPENQASM 2.0;";
     circuit_to_json := λ _, "{}";
     circuit_from_json := λ s,
       if String.eqb s "null" then Ok None else Ok (Some empty_circuit);
     json_dumps := λ _, "{}";
     _get_n_shots_as_list := λ n_shots n_circuits,
       match n_shots with
       | NoShots => Raise ValueError
       | IntShots k =>
           if (0 <? k)%Z then Ok (replicate n_circuits k) else Raise ValueError
       | SeqShots l =>
           match mapM id l with
           | Some ks =>
               if forallb (λ k, (0 <? k)%Z) ks
                  && Nat.eqb (length ks) n_circuits
               then Ok ks else Raise ValueError
           | None => Raise ValueError
           end
       end;
     verify := λ p c,
       match p with
       | NoSymbolsPredicate => negb (is_symbolic c)
       | GateSetPredicate gs =>
           forallb (λ op, bool_decide (op ∈ gs)) (op_types c)
       | MaxNQubitsPredicate n => (Z.of_nat (n_qubits c) <=? n)%Z
       end |}.

Definition completed_job : JobDict :=
  {| jd_status := Some "completed";
     jd_results := Some {[ "c" := ["01"; "11"] ]};
     jd_info := {[ "name" := JStr "job" ]} |}.

Definition sample_device : gmap string Json :=
  list_to_map
    [ ("name", JStr "H1-1"); ("n_qubits", JInt 20);
      ("gateset", JList [JStr "RZZ"]); ("n_shots", JInt 10);
      ("batching", JBool true); ("wasm", JBool true) ].

Definition is_login (c : ApiCall) : bool :=
  match c with Login => true | _ => false end.

(** A service whose status query is refused until the handler has logged
    in; every job is named [job-1] and is completed. *)
Definition sample_api : QuantinuumAPI :=
  {| online := true;
     login := λ _, Ok "token";
     machine_list := λ _, Ok [sample_device];
     _submit_job := λ _ _,
       Ok {| status_code := 200; job := Some "job-1"; error := None |};
     retrieve_job_status := λ log _ _,
       if existsb is_login log then Ok (Some completed_job)
       else Raise QuantinuumAPIError;
     retrieve_job := λ _ _ _ _ _, Ok (Some completed_job);
     cancel_job := λ _ _, Ok tt |}.

(** A completed job whose [results] has no register, as for a circuit
    without classical bits, and a service whose jobs are all of this kind. *)
Definition empty_results_job : JobDict :=
  {| jd_status := Some "completed"; jd_results := Some ∅;
     jd_info := {[ "name" := JStr "job" ]} |}.

Definition empty_results_api : QuantinuumAPI :=
  {| online := true;
     login := λ _, Ok "token";
     machine_list := λ _, Ok [sample_device];
     _submit_job := λ _ _,
       Ok {| status_code := 200; job := Some "job-1"; error := None |};
     retrieve_job_status := λ _ _ _, Ok (Some empty_results_job);
     retrieve_job := λ _ _ _ _ _, Ok (Some empty_results_job);
     cancel_job := λ _ _, Ok tt |}.

Definition debug_backend : Backend :=
  new_backend "H1-1SC" (Some "job") "state-vector" None true ∅.

Definition sample_backend : Backend :=
  new_backend "H1-1" (Some "job") "state-vector" None false ∅.

(** A measured circuit on one qubit with two classical bits. *)
Definition one_qubit_two_bits : Circuit :=
  {| circ_name := Some "test"; n_qubits := 1; cregs := [("c", 2)];
     is_symbolic := false; op_types := [PhasedX; Measure] |}.

(** The shape [(shots, total classical bits)] with every entry zero, for the
    result of one debug-mode submission. *)
Definition zero_table_of_bits (host : Pytket) (api : QuantinuumAPI)
    (σ : Backend) (circ : Circuit) (n_shots : Z) : Prop :=
  ∀ handle r,
    (process_circuits host api [circ] (IntShots n_shots) true no_kwargs σ).1
      = Ok [handle] →
    (get_result host api handle no_kwargs σ).1 = Ok r →
    length (shots r) = Z.to_nat n_shots ∧
    Forall (λ row, length row = n_bits circ ∧ Forall (eq 0%N) row) (shots r).

(** Fetching the result of a job, on the handles of a backend that are no
    debug handles, have no cached result and hold a readable
    post-processing text, when the job record that is retrieved has a
    known status: [GetResultFailed] is raised if and only if the status
    is neither [COMPLETED] nor [CANCELLED] or the record has no [results];
    otherwise the decoded result is returned and is stored in the cache. *)
Definition fails_or_caches (host : Pytket) (api : QuantinuumAPI)
    (σ : Backend) : Prop :=
  ∀ (handle : ResultHandle) kwargs job_retrieve s st,
    is_debug_handle σ handle.1 = false →
    (∀ res, _cache σ !! handle ≠ Some (Some res)) →
    is_ok (circuit_from_json host handle.2) = true →
    retrieve_job api (api_log σ) handle.1 (kw_use_websocket kwargs)
      (kw_timeout kwargs) (kw_wait kwargs) = Ok (Some job_retrieve) →
    jd_status job_retrieve = Some s →
    _STATUS_MAP !! s = Some st →
    let out := get_result host api handle kwargs σ in
    let failed :=
      (st ≠ COMPLETED ∧ st ≠ CANCELLED) ∨ jd_results job_retrieve = None in
    (out.1 = Raise GetResultFailed ↔ failed) ∧
    (¬ failed →
     ∃ backres, out.1 = Ok backres ∧
                _cache out.2 !! handle = Some (Some backres)).

(** The calls of a look-up of the device descriptor. *)
Definition listing_calls (calls : list ApiCall) : Prop :=
  Forall (λ c, c = Login ∨ c = MachineList) calls.

(** ** Sample inputs *)

(** Two registers, [a] of 2 bits and [b] of 3 bits, and two shots. *)
Definition two_registers : gmap string (list string) :=
  <["a" := ["01"; "10"]]> (<["b" := ["110"; "001"]]> ∅).

Definition two_registers_width (name : string) : nat :=
  if String.eqb name "a" then 2 else 3.

Definition sample_handle : ResultHandle := ("job-1", "null").

Definition debug_sample_handle : ResultHandle :=
  ("_MACHINE_DEBUG_(2, 10)", "null").

Definition paused_job : JobDict :=
  {| jd_status := Some "paused"; jd_results := None; jd_info := ∅ |}.

(** The head of a batch, started on the sample service. *)
Definition started_batch : Result ResultHandle * Backend :=
  start_batch sample_host sample_api 500 one_qubit_two_bits (IntShots 10) true
    no_kwargs sample_backend.

(** Unfolding of the operations on methods. *)
Ltac unfold_m :=
  unfold bind, ret, raise, get_self, modify, lift, try_except, api_call in *.

(** * Further definitions *)

Definition digit_char (c : ascii) : Prop :=
  (48 ≤ N_of_ascii c)%N ∧ (N_of_ascii c ≤ 57)%N.
Definition digit_string (s : string) : Prop :=
  Forall digit_char (list_ascii_of_string s).

(** The payloads the decoder accepts: at least one register, one number of
    shots for all registers, which is not zero, and in each register
    strings of one length made of decimal digits. *)
Definition decodable (m : gmap string (list string)) : Prop :=
  m ≠ ∅ ∧
  (∃ n, 0 < n ∧ ∀ name l, m !! name = Some l → length l = n) ∧
  ∀ name l, m !! name = Some l →
    ∃ w, Forall (λ s, String.length s = w ∧ digit_string s) l.

(** The table decoded from [two_registers]. *)
Definition two_registers_result : BackendResult :=
  {| c_bits := [ {| reg_name := "b"; index := 2 |};
                 {| reg_name := "b"; index := 1 |};
                 {| reg_name := "b"; index := 0 |};
                 {| reg_name := "a"; index := 1 |};
                 {| reg_name := "a"; index := 0 |} ];
     shots := [ [1; 1; 0; 0; 1]; [0; 0; 1; 1; 0] ]%N;
     ppcirc := None |}.

(** ** Compiler passes *)

Definition MAX_C_REG_WIDTH : Z := 32.

Section scratch_reg_resize_pass.

(** The name of the scratch register of the host framework. *)
Variable _TEMP_BIT_NAME : string.

(** The filter of [trans] on the register name of a bit. *)
Definition is_scratch_bit (bit : Bit) : bool :=
  String.eqb (reg_name bit) _TEMP_BIT_NAME
  || String.prefix (_TEMP_BIT_NAME ++ "_") (reg_name bit).

(** The arguments of [Bit(f"{_TEMP_BIT_NAME}_{i//max_size}", i % max_size)]:
    [//] raises [ZeroDivisionError] when [max_size] is 0, and [Bit] raises
    [TypeError] on a negative index, which [%] gives for a negative
    [max_size] that does not divide [i]. *)
Definition resized_bit (max_size : Z) (i : nat) : Result (string * Z) :=
  if (max_size =? 0)%Z then Raise ZeroDivisionError
  else
    let name := _TEMP_BIT_NAME ++ "_" ++ str_int (Z.of_nat i / max_size) in
    let ind := (Z.of_nat i mod max_size)%Z in
    if (ind <? 0)%Z then Raise TypeError else Ok (name, ind).

(** [trans], on the bits of the circuit: the renaming [bits_map] handed to
    [rename_units], in the order of its insertions ([[]] when no renaming is
    asked for), or the exception that ends the loop. The bits of a circuit
    are pairwise distinct, so no key is written twice. *)
Definition trans (bits : list Bit) (max_size : Z)
  : Result (list (Bit * (string * Z))) :=
  let scratch_bits := List.filter is_scratch_bit bits in
  if (max_size <? Z.of_nat (length scratch_bits))%Z then
    result_mapM (λ ib, rbind (resized_bit max_size ib.1)
                         (λ new, Ok (ib.2, new)))
      (imap pair scratch_bits)
  else Ok [].

End scratch_reg_resize_pass.

(** Four bits of a circuit, three of them scratch bits. *)
Definition sample_bits : list Bit :=
  [ {| reg_name := "c"; index := 0 |};
    {| reg_name := "tk_SCRATCH_BIT"; index := 0 |};
    {| reg_name := "tk_SCRATCH_BIT"; index := 1 |};
    {| reg_name := "tk_SCRATCH_BIT_1"; index := 5 |} ].

(** Passes of the host framework, as the data [default_compilation_pass]
    puts together. [scratch_reg_resize_pass max_size] is the custom pass of
    [trans]; [DecomposeTK2] records which of the two fidelities it is given
    (their values are the constants of the source); [FullPeepholeOptimise]
    targets [TK2]; [CustomPass_flatten_registers] is
    [CustomPass(_flatten_registers)]. *)
Inductive BasePass :=
| DecomposeBoxes
| scratch_reg_resize_pass (max_size : Z)
| auto_rebase_pass (gateset : list OpType)
| auto_squash_pass (singleqs : list OpType)
| SynthesiseTK
| NormaliseTK2
| DecomposeTK2 (ZZMax_fidelity ZZPhase_fidelity : bool)
| ZZPhaseToRz
| RemoveRedundancies
| SimplifyInitial
| FullPeepholeOptimise
| CustomPass_flatten_registers.

#[global] Instance BasePass_eq_dec : EqDecision BasePass.
Proof. solve_decision. Defined.

Section compilation.

Context (api : QuantinuumAPI).

Definition rebase_pass : M BasePass :=
  let! gs := _gate_set api in
  ret (auto_rebase_pass gs).

(** The passes of the returned [SequencePass], in order. *)
Definition default_compilation_pass (optimisation_level : Z)
  : M (list BasePass) :=
  if negb ((0 <=? optimisation_level) && (optimisation_level <? 3))%Z
  then raise AssertionError
  else
    let passlist := [ DecomposeBoxes; scratch_reg_resize_pass MAX_C_REG_WIDTH ] in
    let squash := auto_squash_pass [ PhasedX; Rz ] in
    let! gs := _gate_set api in
    let zzmax := bool_decide (ZZMax ∈ gs) in
    let! gs := _gate_set api in
    let zzphase := bool_decide (ZZPhase ∈ gs) in
    if negb (zzmax || zzphase) then raise QuantinuumAPIError
    else
      let! passlist :=
        if (optimisation_level =? 0)%Z then
          let! rebase := rebase_pass in
          ret (passlist ++ [ rebase ])%list
        else if (optimisation_level =? 1)%Z then
          let! rebase := rebase_pass in
          ret (passlist ++
               [ SynthesiseTK; NormaliseTK2; DecomposeTK2 zzmax zzphase;
                 rebase; ZZPhaseToRz; RemoveRedundancies; squash;
                 SimplifyInitial ])%list
        else
          let! rebase := rebase_pass in
          ret (passlist ++
               [ FullPeepholeOptimise; NormaliseTK2;
                 DecomposeTK2 zzmax zzphase; rebase; RemoveRedundancies;
                 squash; SimplifyInitial ])%list in
      ret (passlist ++ [ CustomPass_flatten_registers ])%list.

(** [available_devices]: the descriptors of all listed devices. *)
Definition available_devices : M (list BackendInfo) :=
  let! jr := _available_devices api in
  lift (result_mapM _dict_to_backendinfo jr).

End compilation.

(** A backend whose descriptor, when it has one, was made from an entry of
    a device listing. *)
Definition descriptor_from_listing (σ : Backend) : Prop :=
  ∀ bi, _backend_info σ = Some bi → ∃ dct, _dict_to_backendinfo dct = Ok bi.

(** The descriptor that [available_devices] lists for [sample_device], the
    one that [sample_backend] fetches, and the backend after the fetch. *)
Definition listed_descriptor : BackendInfo :=
  {| device_name := "H1-1"; n_nodes := 20;
     gate_set := (_GATE_SET ++ [ZZPhase])%list;
     misc := delete "gateset" (delete "n_qubits" (delete "name" sample_device)) |}.

Definition sample_descriptor : BackendInfo :=
  {| device_name := "H1-1"; n_nodes := 20;
     gate_set := (_GATE_SET ++ [ZZPhase])%list;
     misc := <["options" := JDict ∅]> (misc listed_descriptor) |}.

Definition fetched_backend : Backend :=
  set_backend_info (Some sample_descriptor)
    (log_call MachineList (log_call Login sample_backend)).

(** A backend for a device that the sample service does not list. *)
Definition unlisted_backend : Backend :=
  new_backend "H2-1" (Some "job") "state-vector" None false ∅.

(** The result of [completed_job], and the sample backend after fetching
    it, and after polling the job once the descriptor is fetched. *)
Definition sample_result : BackendResult :=
  {| c_bits := [ {| reg_name := "c"; index := 1 |};
                 {| reg_name := "c"; index := 0 |} ];
     shots := [ [0; 1]; [1; 1] ]%N;
     ppcirc := None |}.

Definition retrieved_backend : Backend :=
  set_cache (<[sample_handle := Some sample_result]> ∅)
    (log_call (RetrieveJob "job-1" None None None) sample_backend).

Definition polled_backend : Backend :=
  set_cache (<[sample_handle := Some sample_result]> ∅)
    (log_call (RetrieveJobStatus "job-1" true) fetched_backend).

(** A backend whose descriptor declares no capability. *)
Definition bare_backend : Backend :=
  set_backend_info
    (Some {| device_name := "H1-1"; n_nodes := 20; gate_set := _GATE_SET;
             misc := ∅ |})
    sample_backend.

(** A circuit with a symbolic parameter. *)
Definition symbolic_circuit : Circuit :=
  {| circ_name := None; n_qubits := 1; cregs := []; is_symbolic := true;
     op_types := [PhasedX] |}.

(** The predicates that the sample device requires. *)
Definition sample_predicates : list Predicate :=
  [ NoSymbolsPredicate; GateSetPredicate (gate_set sample_descriptor);
    MaxNQubitsPredicate 20 ].

(** The circuit that a turn of the loop of [process_circuits] writes as
    QASM, and the post-processing circuit that it records in the handle:
    the prepared circuit and its post-processing circuit when [postprocess]
    is set, the circuit itself and nothing otherwise. *)
Definition loop_circuits (host : Pytket) (kwargs : Kwargs) (circ : Circuit)
    : Circuit * option Circuit :=
  if default false (kw_postprocess kwargs) then
    let '(c0, ppcirc) := prepare_circuit host circ in (c0, Some ppcirc)
  else (circ, None).

(** The body that a turn of the loop of [process_circuits] has
    [submit_qasm] send for a circuit and its shot count: the arguments of
    the call of [submit_qasm] in the loop. *)
Definition loop_request_body (kwargs : Kwargs) (σ : Backend) (qasm : string)
    (circ : Circuit) (n_shots : Z) : gmap string Json :=
  request_body σ qasm n_shots (str_or (circ_name circ) None)
    (default true (kw_noisy_simulation kwargs))
    (default (_group σ) (kw_group kwargs)) (kw_wasm_file_handler kwargs)
    (kw_pytketpass kwargs) (default false (kw_no_opt kwargs))
    (Some (default ∅ (kw_options kwargs)))
    (Some (default ∅ (kw_request_options kwargs))).

(** One circuit submitted on the sample service, once the descriptor is
    fetched. *)
Definition submitted : Result (list ResultHandle) * Backend :=
  process_circuits sample_host sample_api [one_qubit_two_bits] (IntShots 10)
    true no_kwargs fetched_backend.

(** The fields of a job record that go into the message of its status. *)
Definition status_message_keys : list string :=
  [ "name"; "submit-date"; "result-date"; "queue-position"; "cost"; "error" ].

(** A circuit added to the batch of [sample_handle], as its last one. *)
Definition added_to_batch : Result ResultHandle * Backend :=
  add_to_batch sample_host sample_api sample_handle one_qubit_two_bits
    (IntShots 10) true true no_kwargs fetched_backend.

(** What a method may change in a backend: calls are added to the log of
    the API handler, entries are added to the cache or overwritten, and a
    descriptor is stored when there is none. *)
Definition frame (σ σ' : Backend) : Prop :=
  _device_name σ' = _device_name σ ∧ _label σ' = _label σ ∧
  _group σ' = _group σ ∧ _MACHINE_DEBUG σ' = _MACHINE_DEBUG σ ∧
  simulator_type σ' = simulator_type σ ∧
  _process_circuits_options σ' = _process_circuits_options σ ∧
  (∃ calls, api_log σ' = (api_log σ ++ calls)%list) ∧
  (∀ bi, _backend_info σ = Some bi → _backend_info σ' = Some bi) ∧
  (∀ h, is_Some (_cache σ !! h) → is_Some (_cache σ' !! h)).

Definition keeps_frame {A} (m : M A) : Prop :=
  ∀ σ r σ', m σ = (r, σ') → frame σ σ'.

(** * Theorems *)

Section order.

Lemma str_leb_trans a : ∀ b c,
  String.leb a b = true → String.leb b c = true → String.leb a c = true.
Proof.
  unfold String.leb.
  induction a as [|x a IH]; intros [|y b] [|z c]; simpl; try done.
  unfold Ascii.compare.
  destruct (N.compare_spec (N_of_ascii x) (N_of_ascii y)) as [E1|L1|G1];
    destruct (N.compare_spec (N_of_ascii y) (N_of_ascii z)) as [E2|L2|G2];
    destruct (N.compare_spec (N_of_ascii x) (N_of_ascii z)) as [E3|L3|G3];
    try done; try lia.
  apply IH.
Qed.

#[global] Instance str_ge_trans : Transitive str_ge.
Proof. intros a b c Hab Hbc. unfold str_ge in *. eauto using str_leb_trans. Qed.

#[global] Instance str_ge_total : Total str_ge.
Proof. intros a b. unfold str_ge. destruct (String.leb_total a b); auto. Qed.

Lemma sorted_reverse_perm keys : sorted_reverse keys ≡ₚ keys.
Proof. apply merge_sort_Permutation. Qed.

Lemma StronglySorted_NoDup_strict (l : list string) :
  StronglySorted str_ge l → NoDup l → StronglySorted str_gt l.
Proof.
  induction 1 as [|x l Hs IH Hall]; intros Hnd; [constructor|].
  apply NoDup_cons in Hnd as [Hx Hnd]. constructor; [auto|].
  rewrite Forall_forall in *. intros y Hy. split; [auto|].
  intros ->. done.
Qed.

Lemma sorted_reverse_descending keys :
  NoDup keys → StronglySorted str_gt (sorted_reverse keys).
Proof.
  intros Hnd. apply StronglySorted_NoDup_strict.
  - apply (StronglySorted_merge_sort str_ge).
  - by rewrite sorted_reverse_perm.
Qed.

End order.

Section decoding.

Lemma uint8_of_bit_char c : bit_char c → Numpy.uint8_of_char c = Some (bit_value c).
Proof. by intros [-> | ->]. Qed.

Lemma uint8_row_bits s : bit_string s → Numpy.uint8_row s = Some (bits_of s).
Proof.
  unfold bit_string, Numpy.uint8_row, bits_of.
  induction 1 as [|c l Hc _ IH]; [done|].
  cbn [mapM fmap list_fmap]. rewrite (uint8_of_bit_char c Hc). cbn.
  by rewrite IH.
Qed.

Lemma length_bits_of s : length (bits_of s) = String.length s.
Proof.
  unfold bits_of. rewrite length_fmap.
  induction s as [|c s IH]; [done|]. cbn. by rewrite IH.
Qed.

Lemma array_decoded l w :
  Forall (λ s, String.length s = w ∧ bit_string s) l →
  Numpy.array l = Ok (decoded l).
Proof.
  intros Hl. unfold Numpy.array, decoded. destruct l as [|a0 l0]; [done|].
  set (l := a0 :: l0) in *.
  assert (Hw : String.length a0 = w) by (by inversion Hl as [|?? [? _]]).
  assert (forallb (λ a, Nat.eqb (String.length a) (String.length a0)) l = true)
    as ->.
  { apply forallb_forall. intros s Hs%list_elem_of_In.
    rewrite Forall_forall in Hl. destruct (Hl s Hs) as [-> _].
    rewrite Hw. apply Nat.eqb_refl. }
  assert (mapM Numpy.uint8_row l = Some (bits_of <$> l)) as ->; [|done].
  clearbody l. clear Hw. induction Hl as [|s k [_ Hs] _ IH]; [done|].
  cbn [mapM fmap list_fmap]. rewrite (uint8_row_bits s Hs). cbn. by rewrite IH.
Qed.

Lemma result_mapM_ok {A B} (f : A → Result B) (g : A → B) l :
  Forall (λ x, f x = Ok (g x)) l → result_mapM f l = Ok (g <$> l).
Proof. induction 1 as [|x l Hx _ IH]; [done|]. cbn. by rewrite Hx, IH. Qed.

Lemma dict_comprehension_ok {A B} (f : A → Result B) (g : A → B)
    (m : gmap string A) :
  map_Forall (λ _ a, f a = Ok (g a)) m → dict_comprehension f m = Ok (g <$> m).
Proof.
  intros Hm. unfold dict_comprehension.
  rewrite (result_mapM_ok _ (prod_map id g)).
  - cbn. f_equal. rewrite list_to_map_fmap. by rewrite list_to_map_to_list.
  - apply Forall_forall. intros [k a] Hka%elem_of_map_to_list. cbn.
    by rewrite (Hm k a Hka).
Qed.

Lemma foldr_zip_rows (arrs : list Numpy.ndarray) n :
  Forall (λ a, length (Numpy.rows a) = n) arrs →
  foldr (λ a acc, zip_with app (Numpy.rows a) acc) (replicate n []) arrs
  = (λ i, arrs ≫= λ a, default [] (Numpy.rows a !! i)) <$> seq 0 n.
Proof.
  induction 1 as [|a arrs Ha _ IH]; cbn [foldr].
  - apply list_eq. intros i. rewrite list_lookup_fmap.
    destruct (decide (i < n)) as [Hi|Hi].
    + rewrite lookup_replicate_2 by done. by rewrite lookup_seq_lt.
    + rewrite lookup_seq_ge by lia. cbn. apply lookup_replicate_None. lia.
  - rewrite IH. apply list_eq. intros i.
    rewrite lookup_zip_with, !list_lookup_fmap.
    destruct (decide (i < n)) as [Hi|Hi].
    + rewrite lookup_seq_lt by done. cbn.
      destruct (lookup_lt_is_Some_2 (Numpy.rows a) i) as [r Hr]; [lia|].
      by rewrite Hr.
    + rewrite lookup_seq_ge by lia. cbn.
      by destruct (Numpy.rows a !! i).
Qed.

Lemma hstack_rows (arrs : list Numpy.ndarray) n :
  arrs ≠ [] → Forall (λ a, length (Numpy.rows a) = n) arrs →
  Numpy.hstack arrs
  = Ok ((λ i, arrs ≫= λ a, default [] (Numpy.rows a !! i)) <$> seq 0 n).
Proof.
  intros Hne Hall. unfold Numpy.hstack. destruct arrs as [|a0 arrs0]; [done|].
  set (arrs := a0 :: arrs0) in *.
  assert (Hn : length (Numpy.rows a0) = n) by (by inversion Hall).
  rewrite Hn.
  assert (forallb (λ a, Nat.eqb (length (Numpy.rows a)) n) arrs = true) as ->.
  { apply forallb_forall. intros a Ha%list_elem_of_In.
    rewrite Forall_forall in Hall. rewrite (Hall a Ha). apply Nat.eqb_refl. }
  by rewrite foldr_zip_rows.
Qed.

End decoding.

Section convert_result.

Lemma bind_ext_Forall {A B} (f g : A → list B) (l : list A) :
  Forall (λ x, f x = g x) l → l ≫= f = l ≫= g.
Proof. induction 1 as [|x l Hx _ IH]; [done|]. cbn. by rewrite Hx, IH. Qed.

Lemma bind_singleton_fmap {A B} (f : A → B) (l : list A) :
  (x ← l; [f x]) = f <$> l.
Proof. induction l as [|x l IH]; [done|]. cbn. by rewrite IH. Qed.

Lemma bind_fmap_compose {A B C} (f : A → B) (g : B → list C) (l : list A) :
  (f <$> l) ≫= g = l ≫= (g ∘ f).
Proof. induction l as [|x l IH]; [done|]. cbn. by rewrite IH. Qed.

Lemma omap_lookup_default {A} (m : gmap string A) (d : A) (l : list string) :
  Forall (λ k, is_Some (m !! k)) l →
  omap (λ k, m !! k) l = (λ k, default d (m !! k)) <$> l.
Proof.
  induction 1 as [|k l [a Ha] _ IH]; [done|]. cbn. by rewrite Ha, IH.
Qed.

Lemma elem_of_sorted_keys {A} (m : gmap string A) name :
  name ∈ sorted_reverse (map_to_list m).*1 ↔ is_Some (m !! name).
Proof.
  rewrite sorted_reverse_perm, list_elem_of_fmap. split.
  - intros [[k a] [-> Hka%elem_of_map_to_list]]. by exists a.
  - intros [a Ha]. exists (name, a). by rewrite elem_of_map_to_list.
Qed.

Lemma sorted_keys_descending {A} (m : gmap string A) :
  StronglySorted str_gt (sorted_reverse (map_to_list m).*1).
Proof. apply sorted_reverse_descending, NoDup_fst_map_to_list. Qed.

Lemma sorted_keys_nil {A} (m : gmap string A) :
  sorted_reverse (map_to_list m).*1 = [] ↔ m = ∅.
Proof.
  split.
  - intros Hnil. apply map_empty. intros k.
    destruct (m !! k) as [a|] eqn:Hk; [|done].
    assert (k ∈ sorted_reverse (map_to_list m).*1) as Hin
      by (apply elem_of_sorted_keys; eauto).
    rewrite Hnil in Hin. by apply elem_of_nil in Hin.
  - intros ->. by rewrite map_to_list_empty.
Qed.

Lemma packbit_bits_of s : OutcomeArray.packbit <$> bits_of s = bits_of s.
Proof.
  unfold bits_of. rewrite <- list_fmap_compose. apply list_fmap_ext.
  intros _ c _. cbn. unfold bit_value. by destruct (Ascii.eqb c "1").
Qed.

Lemma packbit_shot_bits m i (names : list string) :
  OutcomeArray.packbit <$> (names ≫= λ name, shot_bits m name i)
  = names ≫= λ name, shot_bits m name i.
Proof.
  induction names as [|name names IH]; [done|]. cbn.
  rewrite fmap_app, IH. f_equal. unfold shot_bits.
  destruct (m !! name ≫= (.!! i)); [apply packbit_bits_of|done].
Qed.

(** The value of [_convert_result] on every well-formed payload. *)
Lemma convert_result_well_formed m n w pp :
  well_formed m n w →
  _convert_result m pp =
    let names := sorted_reverse (map_to_list (decoded <$> m)).*1 in
    if decide (m = ∅) then Raise ValueError
    else match n with
         | 0 => Raise ValueError
         | S _ =>
             Ok {| c_bits := names ≫= (λ name, msb_first name (w name));
                   shots := (λ i, names ≫= λ name, shot_bits m name i)
                              <$> seq 0 n;
                   ppcirc := pp |}
         end.
Proof.
  intros Hwf. unfold _convert_result.
  rewrite (dict_comprehension_ok _ decoded); last first.
  { intros k l Hl. destruct (Hwf k l Hl) as [_ Hall].
    by apply (array_decoded l (w k)). }
  cbn [rbind]. set (m' := decoded <$> m).
  set (names := sorted_reverse (map_to_list m').*1). cbn zeta.
  assert (Hnames : Forall (λ name, ∃ l, m !! name = Some l ∧ length l = n ∧
            Forall (λ s, String.length s = w name ∧ bit_string s) l) names).
  { apply Forall_forall. intros name [a Ha]%elem_of_sorted_keys.
    unfold m' in Ha. rewrite lookup_fmap in Ha.
    destruct (m !! name) as [l|] eqn:Hl; [|done].
    exists l. split; [done|]. by apply Hwf. }
  rewrite (omap_lookup_default m' (decoded [])); last first.
  { eapply Forall_impl; [apply Hnames|]. intros name (l & Hl & _).
    unfold m'. rewrite lookup_fmap, Hl. by eexists. }
  destruct (decide (m = ∅)) as [->|Hne].
  { subst m' names. by rewrite fmap_empty, map_to_list_empty. }
  rewrite (hstack_rows _ n); first last.
  - apply Forall_fmap. eapply Forall_impl; [apply Hnames|].
    intros name (l & Hl & Hlen & _). cbn. unfold m'.
    rewrite lookup_fmap, Hl. cbn. by rewrite length_fmap.
  - intros Hnil%fmap_nil_inv. apply sorted_keys_nil in Hnil.
    apply Hne. unfold m' in Hnil. by apply fmap_empty_inv in Hnil.
  - cbn [rbind].
    assert (Hrows :
      (λ i, ((λ k, default (decoded []) (m' !! k)) <$> names) ≫=
              λ a, default [] (Numpy.rows a !! i)) <$> seq 0 n
      = (λ i, names ≫= λ name, shot_bits m name i) <$> seq 0 n).
    { apply list_fmap_ext. intros _ i _.
      rewrite bind_fmap_compose. apply bind_ext_Forall.
      eapply Forall_impl; [apply Hnames|].
      intros name (l & Hl & _). cbn. unfold m', shot_bits.
      rewrite lookup_fmap, Hl. cbn. rewrite list_lookup_fmap.
      by destruct (l !! i). }
    rewrite Hrows. destruct n as [|n']; [done|].
    set (table := (λ i, names ≫= λ name, shot_bits m name i) <$> seq 0 (S n')).
    assert (OutcomeArray.from_readouts table = Ok table) as ->.
    { assert (fmap (M := list) (fmap (M := list) OutcomeArray.packbit) table
              = table) as Hpack.
      { unfold table. rewrite <- list_fmap_compose. apply list_fmap_ext.
        intros _ i _. apply packbit_shot_bits. }
      unfold OutcomeArray.from_readouts.
      destruct table as [|row table'] eqn:Htable; [done|]. by rewrite Hpack. }
    cbn [rbind]. do 2 f_equal.
    apply bind_ext_Forall. eapply Forall_impl; [apply Hnames|].
    intros name (l & Hl & Hlen & Hall). cbn beta.
    rewrite bind_singleton_fmap. unfold msb_first, m'.
    rewrite lookup_fmap, Hl. cbn. do 2 f_equal.
    destruct Hall as [|s k [Hs _] _]; cbn in *; [done|]. by rewrite Hs.
Qed.

End convert_result.

Section column_order.

Lemma length_shot_bits m n w name i :
  well_formed m n w → is_Some (m !! name) → i < n →
  length (shot_bits m name i) = w name.
Proof.
  intros Hwf [l Hl] Hi. destruct (Hwf name l Hl) as [Hlen Hall].
  unfold shot_bits. rewrite Hl. cbn.
  destruct (lookup_lt_is_Some_2 l i) as [s Hs]; [lia|]. rewrite Hs.
  rewrite length_bits_of. rewrite Forall_forall in Hall.
  by apply Hall, list_elem_of_lookup; eauto.
Qed.

Lemma length_bind_sum {A B} (f : A → list B) (g : A → nat) (l : list A) :
  Forall (λ x, length (f x) = g x) l → length (l ≫= f) = sum_list (g <$> l).
Proof.
  induction 1 as [|x l Hx _ IH]; [done|]. cbn.
  by rewrite length_app, Hx, IH.
Qed.

Lemma length_msb_first name width : length (msb_first name width) = width.
Proof.
  unfold msb_first, range_down.
  by rewrite length_fmap, length_rev, length_seq.
Qed.

Lemma str_gt_antisym x y : str_gt x y → str_gt y x → x = y.
Proof. intros [Hxy _] [Hyx _]. by apply String.leb_antisym. Qed.

Lemma two_registers_order {A} (m : gmap string A) a b (x y : A) :
  str_gt b a → m = <[a := x]> (<[b := y]> ∅) →
  sorted_reverse (map_to_list m).*1 = [b; a].
Proof.
  intros Hgt ->. set (m := <[a := x]> (<[b := y]> ∅)).
  apply (StronglySorted_unique_strong str_gt).
  - intros ????. apply str_gt_antisym.
  - apply sorted_keys_descending.
  - repeat first [ apply SSorted_nil | apply SSorted_cons
                   | apply Forall_nil_2 | apply Forall_cons_2 ]; done.
  - apply NoDup_Permutation.
    + rewrite sorted_reverse_perm. apply NoDup_fst_map_to_list.
    + apply NoDup_cons. split; [|apply NoDup_singleton].
      intros ->%list_elem_of_singleton. by destruct Hgt.
    + intros k. rewrite elem_of_sorted_keys. unfold m.
      rewrite !elem_of_cons, elem_of_nil.
      destruct (decide (k = a)) as [->|Ha];
        [rewrite lookup_insert_eq; split; eauto|].
      rewrite lookup_insert_ne by done.
      destruct (decide (k = b)) as [->|Hb];
        [rewrite lookup_insert_eq; split; eauto|].
      rewrite lookup_insert_ne, lookup_empty by done.
      split; [by intros [? ?]|]. intros [?|[?|[]]]; done.
Qed.

(** C1. For every payload of [n] shots whose registers hold bit-strings of
    one width each, a decoded shot table exists exactly when the payload has
    a register and a shot (otherwise [ValueError] is raised), and the
    decoded table lists the registers in strictly
    descending name order: its column labels are, register after register,
    the bits from the most significant one down to bit 0, every row is the
    registers' bit-strings of that shot joined in that order, and every row
    is as long as the sum of the register widths. For the two registers
    [a] (2 bits) and [b] (3 bits) the columns are b[2], b[1], b[0], a[1],
    a[0] and every row has 5 entries. *)
Theorem convert_result_column_order m n w pp :
  well_formed m n w →
  (m ≠ ∅ → 0 < n → is_ok (_convert_result m pp) = true) ∧
  (m = ∅ ∨ n = 0 → _convert_result m pp = Raise ValueError) ∧
  (∀ r, _convert_result m pp = Ok r →
     ∃ names,
       StronglySorted str_gt names ∧
       (∀ name, name ∈ names ↔ is_Some (m !! name)) ∧
       0 < n ∧
       c_bits r = (names ≫= λ name, msb_first name (w name)) ∧
       length (shots r) = n ∧
       ∀ i row, shots r !! i = Some row →
         row = names ≫= (λ name, shot_bits m name i) ∧
         length row = sum_list (w <$> names) ∧
         length row = length (c_bits r)) ∧
  (∀ la lb, m = <["a" := la]> (<["b" := lb]> ∅) →
     w "a" = 2 → w "b" = 3 → 0 < n →
     ∃ r, _convert_result m pp = Ok r ∧
       c_bits r = [ {| reg_name := "b"; index := 2 |};
                    {| reg_name := "b"; index := 1 |};
                    {| reg_name := "b"; index := 0 |};
                    {| reg_name := "a"; index := 1 |};
                    {| reg_name := "a"; index := 0 |} ] ∧
       length (shots r) = n ∧
       Forall (λ row, length row = 5) (shots r)).
Proof.
  intros Hwf. pose proof (convert_result_well_formed m n w pp Hwf) as Heq.
  cbn zeta in Heq. set (names := sorted_reverse _) in Heq.
  assert (Hkeys : ∀ name, name ∈ names ↔ is_Some (m !! name)).
  { intros name. unfold names. rewrite elem_of_sorted_keys, lookup_fmap.
    by rewrite fmap_is_Some. }
  assert (Hrow : ∀ i, i < n →
    length (names ≫= λ name, shot_bits m name i) = sum_list (w <$> names)).
  { intros i Hi. apply length_bind_sum, Forall_forall.
    intros name Hname%Hkeys. by apply (length_shot_bits m n w). }
  split; [|split; [|split]].
  - intros Hne Hn. rewrite Heq. destruct (decide (m = ∅)); [done|].
    by destruct n; [lia|].
  - intros Hempty. rewrite Heq. destruct (decide (m = ∅)); [done|].
    by destruct Hempty as [?| ->].
  - intros r Hr. rewrite Heq in Hr.
    destruct (decide (m = ∅)); [done|].
    destruct n as [|n'] eqn:Hn; [done|]. rewrite <- Hn in *.
    injection Hr as <-. cbn [c_bits shots].
    exists names. split; [apply sorted_keys_descending|].
    split; [done|]. split; [lia|]. split; [done|].
    split; [by rewrite length_fmap, length_seq|].
    intros i row Hi. rewrite list_lookup_fmap in Hi.
    destruct (seq 0 n !! i) as [j|] eqn:Hj; [|done].
    apply lookup_seq in Hj as [-> Hlt]. injection Hi as <-. cbn.
    split; [done|]. split; [by apply Hrow|].
    rewrite (Hrow i Hlt). symmetry.
    apply length_bind_sum, Forall_forall. intros name _.
    apply length_msb_first.
  - intros la lb Hm Ha Hb Hn.
    assert (names = ["b"; "a"]) as Hnames.
    { unfold names. apply (two_registers_order _ _ _ (decoded la) (decoded lb)).
      - by split.
      - rewrite Hm. by rewrite !fmap_insert, fmap_empty. }
    assert (m ≠ ∅) as Hne.
    { rewrite Hm. apply insert_non_empty. }
    rewrite Heq. destruct (decide (m = ∅)); [done|].
    destruct n as [|n'] eqn:Hn'; [lia|]. rewrite <- Hn' in *.
    eexists. split; [done|]. cbn [c_bits shots].
    split; [|split].
    + rewrite Hnames. cbn. by rewrite Ha, Hb.
    + by rewrite length_fmap, length_seq.
    + apply Forall_fmap, Forall_forall. intros i [_ Hi]%elem_of_seq.
      cbn [compose]. rewrite Hrow by lia. rewrite Hnames. cbn.
      by rewrite Ha, Hb.
Qed.

End column_order.

Section status.

Context (host : Pytket) (api : QuantinuumAPI).

Lemma prefix_app p s : String.prefix p (p ++ s) = true.
Proof.
  induction p as [|c p IH]; simpl; [by destruct s|].
  destruct (ascii_dec c c); [apply IH|congruence].
Qed.

Lemma prefix_inv p s : String.prefix p s = true → ∃ rest, s = p ++ rest.
Proof.
  revert s. induction p as [|c p IH]; intros s Hs; [by exists s|].
  destruct s as [|d s]; [done|]. cbn in Hs.
  destruct (ascii_dec c d) as [->|]; [|done].
  destruct (IH s Hs) as [rest ->]. by exists rest.
Qed.

Lemma is_debug_handle_spec σ jobid :
  is_debug_handle σ jobid = true ↔
  _MACHINE_DEBUG σ = true ∨ ∃ rest, jobid = _DEBUG_HANDLE_PREFIX ++ rest.
Proof.
  unfold is_debug_handle. rewrite orb_true_iff. split.
  - intros [?|?%prefix_inv]; auto.
  - intros [?|[rest ->]]; [auto|]. right. apply prefix_app.
Qed.

Lemma status_map_lookup s st :
  _STATUS_MAP !! s = Some st ↔
  (s, st) ∈ [ ("queued", QUEUED); ("running", RUNNING);
              ("completed", COMPLETED); ("failed", ERROR);
              ("canceling", CANCELLED); ("canceled", CANCELLED) ].
Proof.
  unfold _STATUS_MAP. symmetry. apply elem_of_list_to_map.
  cbn. repeat (apply NoDup_cons; split; [set_solver|]). apply NoDup_nil_2.
Qed.

Lemma status_map_None s :
  s ∉ [ "queued"; "running"; "completed"; "failed"; "canceling"; "canceled" ] →
  _STATUS_MAP !! s = None.
Proof.
  intros Hs. destruct (_STATUS_MAP !! s) as [st|] eqn:Hst; [|done].
  apply status_map_lookup in Hst. exfalso. apply Hs.
  rewrite !elem_of_cons, elem_of_nil in Hst. rewrite !elem_of_cons.
  destruct Hst as [H|[H|[H|[H|[H|[H|[]]]]]]]; injection H as -> _; auto 10.
Qed.

Lemma parse_status_known response s st :
  jd_status response = Some s → _STATUS_MAP !! s = Some st →
  ∃ msg, _parse_status host response = Ok {| status := st; message := msg |}.
Proof. intros Hs Hst. unfold _parse_status. rewrite Hs, Hst. eauto. Qed.

End status.

Section polling.

Context (host : Pytket) (api : QuantinuumAPI).

(** C7. For every handle whose job id begins with the debug prefix, and for
    every handle when the backend is in debug mode, [circuit_status] returns
    [COMPLETED] and leaves the state as it was: no call is made on the API
    handler (the log of calls is unchanged) and the cache is untouched. *)
Theorem circuit_status_debug_handle σ (handle : ResultHandle) kwargs :
  _MACHINE_DEBUG σ = true ∨ (∃ rest, handle.1 = _DEBUG_HANDLE_PREFIX ++ rest) →
  circuit_status host api handle kwargs σ
    = (Ok {| status := COMPLETED; message := "" |}, σ) ∧
  api_log (circuit_status host api handle kwargs σ).2 = api_log σ.
Proof.
  intros Hdebug%is_debug_handle_spec.
  assert (circuit_status host api handle kwargs σ
          = (Ok {| status := COMPLETED; message := "" |}, σ)) as ->; [|done].
  unfold circuit_status. unfold_m. by rewrite Hdebug.
Qed.

(** [circuit_status] once the first status query has returned a record. *)
Lemma circuit_status_unknown_status σ (handle : ResultHandle) kwargs response s :
  is_debug_handle σ handle.1 = false →
  retrieve_job_status api (api_log σ) handle.1
    (default true (kw_use_websocket kwargs)) = Ok (Some response) →
  jd_status response = Some s → _STATUS_MAP !! s = None →
  circuit_status host api handle kwargs σ
  = (Raise (KeyError s),
     log_call (RetrieveJobStatus handle.1
                 (default true (kw_use_websocket kwargs))) σ).
Proof.
  intros Hnd Hq Hs Hmap. unfold circuit_status. unfold_m.
  rewrite Hnd, Hq. unfold _parse_status. by rewrite Hs, Hmap.
Qed.

(** C4. For a handle that is no debug handle, when the status query raises
    [QuantinuumAPIError]: if the re-authentication returns, the calls made
    by [circuit_status] are exactly the failed query, one login and one
    second query, in this order, and an exception of the second query is
    the outcome of [circuit_status]; if the re-authentication itself raises,
    that exception is the outcome, after the failed query and the one
    login. *)
Theorem circuit_status_reauthenticates σ (handle : ResultHandle) kwargs :
  is_debug_handle σ handle.1 = false →
  let ws := default true (kw_use_websocket kwargs) in
  let q := RetrieveJobStatus handle.1 ws in
  retrieve_job_status api (api_log σ) handle.1 ws = Raise QuantinuumAPIError →
  (∀ tok, login api (api_log σ ++ [q])%list = Ok tok →
     api_log (circuit_status host api handle kwargs σ).2
       = (api_log σ ++ [q; Login; q])%list ∧
     ∀ e, retrieve_job_status api (api_log σ ++ [q; Login])%list handle.1 ws
            = Raise e →
          (circuit_status host api handle kwargs σ).1 = Raise e) ∧
  (∀ e, login api (api_log σ ++ [q])%list = Raise e →
     (circuit_status host api handle kwargs σ).1 = Raise e ∧
     api_log (circuit_status host api handle kwargs σ).2
       = (api_log σ ++ [q; Login])%list).
Proof.
  intros Hnd ws q Hq. unfold circuit_status. unfold_m.
  rewrite Hnd. fold ws. rewrite Hq. cbn. fold q.
  rewrite (bool_decide_eq_true_2 _ (eq_refl QuantinuumAPIError)).
  split.
  - intros tok Hlogin. rewrite Hlogin. cbn. split.
    + destruct (retrieve_job_status api (_ ++ _) _ _) as [[response|]|e]; cbn;
        [|by rewrite <- ?(assoc_L (++))..].
      destruct (_parse_status host response) as [cs|e]; cbn;
        [|by rewrite <- ?(assoc_L (++))].
      destruct (bool_decide _); cbn; [|by rewrite <- ?(assoc_L (++))].
      destruct (jd_results response) as [payload|]; cbn;
        [|by rewrite <- ?(assoc_L (++))].
      destruct (circuit_from_json host _) as [pp|e]; cbn;
        [|by rewrite <- ?(assoc_L (++))].
      destruct (_convert_result payload pp) as [r|e]; cbn;
        by rewrite <- ?(assoc_L (++)).
    + intros e He. rewrite <- (assoc_L (++)). cbn. by rewrite He.
  - intros e Hlogin. rewrite Hlogin. cbn. by rewrite <- ?(assoc_L (++)).
Qed.

End polling.

Section retrieval.

Context (host : Pytket) (api : QuantinuumAPI).

Lemma result_mapM_raises {A B} (f : A → Result B) l e :
  result_mapM f l = Raise e → ∃ x, x ∈ l ∧ f x = Raise e.
Proof.
  induction l as [|x l IH]; [done|]. cbn.
  destruct (f x) as [y|e'] eqn:Hx; cbn.
  - destruct (result_mapM f l) as [k|e1]; [done|]. cbn. intros [= <-].
    destruct IH as (x' & ? & ?); [done|]. exists x'. by rewrite elem_of_cons; auto.
  - intros [= <-]. exists x. by rewrite elem_of_cons; auto.
Qed.

Lemma array_raises l e : Numpy.array l = Raise e → e = ValueError.
Proof.
  unfold Numpy.array. destruct l as [|a0 l]; [done|].
  destruct (forallb _ _); [|congruence].
  destruct (mapM _ _); [done|congruence].
Qed.

Lemma hstack_raises arrs e : Numpy.hstack arrs = Raise e → e = ValueError.
Proof.
  unfold Numpy.hstack. destruct arrs as [|a0 arrs]; [congruence|].
  destruct (forallb _ _); [done|congruence].
Qed.

(** The decoder raises nothing but [ValueError]. *)
Lemma convert_result_raises m pp e :
  _convert_result m pp = Raise e → e = ValueError.
Proof.
  unfold _convert_result, dict_comprehension.
  destruct (result_mapM _ _) as [items|e'] eqn:Hitems; cbn.
  - destruct (Numpy.hstack _) as [stacked|e1] eqn:Hst; cbn.
    + destruct stacked; cbn; [by intros [= <-]|done].
    + intros [= <-]. by apply hstack_raises in Hst.
  - intros [= <-]. apply result_mapM_raises in Hitems as ([k l] & _ & Hkl).
    cbn in Hkl. destruct (Numpy.array l) as [a|e2] eqn:Ha; [done|].
    cbn in Hkl. injection Hkl as <-. by apply array_raises in Ha.
Qed.

(** [get_result] on a handle that is no debug handle and has no cached
    result, once the job record is retrieved and its status parsed. *)
Lemma get_result_retrieved σ (handle : ResultHandle) kwargs pp job_retrieve
    circ_status :
  is_debug_handle σ handle.1 = false →
  (∀ res, _cache σ !! handle ≠ Some (Some res)) →
  circuit_from_json host handle.2 = Ok pp →
  retrieve_job api (api_log σ) handle.1 (kw_use_websocket kwargs)
    (kw_timeout kwargs) (kw_wait kwargs) = Ok (Some job_retrieve) →
  _parse_status host job_retrieve = Ok circ_status →
  let σ1 := log_call (RetrieveJob handle.1 (kw_use_websocket kwargs)
                        (kw_timeout kwargs) (kw_wait kwargs)) σ in
  get_result host api handle kwargs σ =
    if negb (bool_decide (status circ_status = COMPLETED)
             || bool_decide (status circ_status = CANCELLED))
    then (Raise GetResultFailed, σ1)
    else match jd_results job_retrieve with
         | None => (Raise GetResultFailed, σ1)
         | Some res =>
             match _convert_result res pp with
             | Ok backres =>
                 (Ok backres,
                  set_cache (<[handle := Some backres]> (_cache σ1)) σ1)
             | Raise e => (Raise e, σ1)
             end
         end.
Proof.
  intros Hnd Hcache Hpp Hjob Hst σ1.
  unfold get_result, Backend_get_result, _retrieve_job. unfold_m.
  destruct (_cache σ !! handle) as [[res0|]|] eqn:Hc;
    [by destruct (Hcache res0)|..]; cbn;
    rewrite (bool_decide_eq_true_2 _ (eq_refl CircuitNotRunError));
    rewrite Hpp, Hnd, Hjob; cbn; rewrite Hst;
    (destruct (negb _); [done|]);
    (destruct (jd_results job_retrieve) as [res|]; [|done]);
    (destruct (_convert_result res pp) as [backres|e]; [|done]);
    by unfold _update_cache_result; unfold_m.
Qed.

(** The status strings that the table maps to [COMPLETED] or [CANCELLED]. *)
Lemma status_map_terminal s st :
  _STATUS_MAP !! s = Some st →
  st = COMPLETED ∨ st = CANCELLED ↔
  s ∈ [ "completed"; "canceling"; "canceled" ].
Proof.
  intros Hst%status_map_lookup. revert Hst.
  rewrite !elem_of_cons, !elem_of_nil.
  intros [?|[?|[?|[?|[?|[?|[]]]]]]]; simplify_eq; naive_solver.
Qed.

(** The decoder refuses a payload without register. *)
Lemma convert_result_empty pp : _convert_result ∅ pp = Raise ValueError.
Proof.
  unfold _convert_result, dict_comprehension.
  by rewrite map_to_list_empty.
Qed.

(** C3. For a handle that is no debug handle and has no cached result,
    whose job record is retrieved with a status string of the status
    table: [get_result] raises [GetResultFailed] exactly when the status
    of that string is neither [COMPLETED] nor [CANCELLED] (the string is
    none of [completed], [canceling], [canceled]) or the record has no
    [results]. Otherwise the payload is decoded: when the decoder accepts
    it, the decoded result is returned and is the cached result of the
    handle afterwards; when it does not, as for a payload without
    register, [ValueError] is raised and nothing is cached. In each case
    one call was made on the API handler, the retrieval of the job. *)
Theorem get_result_failed_iff σ (handle : ResultHandle) kwargs pp job_retrieve
    s st :
  is_debug_handle σ handle.1 = false →
  (∀ res, _cache σ !! handle ≠ Some (Some res)) →
  circuit_from_json host handle.2 = Ok pp →
  retrieve_job api (api_log σ) handle.1 (kw_use_websocket kwargs)
    (kw_timeout kwargs) (kw_wait kwargs) = Ok (Some job_retrieve) →
  jd_status job_retrieve = Some s →
  _STATUS_MAP !! s = Some st →
  let out := get_result host api handle kwargs σ in
  let σ1 := log_call (RetrieveJob handle.1 (kw_use_websocket kwargs)
                        (kw_timeout kwargs) (kw_wait kwargs)) σ in
  (st = COMPLETED ∨ st = CANCELLED ↔
   s ∈ [ "completed"; "canceling"; "canceled" ]) ∧
  (out.1 = Raise GetResultFailed ↔
     (st ≠ COMPLETED ∧ st ≠ CANCELLED) ∨
     jd_results job_retrieve = None) ∧
  (∀ res,
     st = COMPLETED ∨ st = CANCELLED →
     jd_results job_retrieve = Some res →
     (∀ backres, _convert_result res pp = Ok backres →
        out.1 = Ok backres ∧
        _cache out.2 !! handle = Some (Some backres) ∧
        api_log out.2
          = (api_log σ ++ [RetrieveJob handle.1 (kw_use_websocket kwargs)
                             (kw_timeout kwargs) (kw_wait kwargs)])%list) ∧
     (is_ok (_convert_result res pp) = false →
        out = (Raise ValueError, σ1)) ∧
     (res = ∅ → out = (Raise ValueError, σ1))).
Proof.
  intros Hnd Hcache Hpp Hjob Hs Hst out σ1. subst out σ1.
  destruct (parse_status_known host _ _ _ Hs Hst) as [msg Hparse].
  rewrite (get_result_retrieved σ handle kwargs pp job_retrieve _ Hnd Hcache
             Hpp Hjob Hparse).
  cbn [status]. split; [by apply status_map_terminal|]. split.
  - split.
    + intros Hraise.
      destruct (bool_decide (st = COMPLETED)) eqn:Hc;
        [|destruct (bool_decide (st = CANCELLED)) eqn:Hx];
        cbn in Hraise.
      * destruct (jd_results job_retrieve) as [res|]; [|by right].
        destruct (_convert_result res pp) as [backres|e] eqn:He; [done|].
        cbn in Hraise. injection Hraise as ->.
        by apply convert_result_raises in He.
      * destruct (jd_results job_retrieve) as [res|]; [|by right].
        destruct (_convert_result res pp) as [backres|e] eqn:He; [done|].
        cbn in Hraise. injection Hraise as ->.
        by apply convert_result_raises in He.
      * left. apply bool_decide_eq_false in Hc, Hx. done.
    + intros [[Hc Hx]|Hnone].
      * by rewrite !bool_decide_eq_false_2.
      * rewrite Hnone. by destruct (negb _).
  - intros res Hok Hres.
    assert (negb (bool_decide (st = COMPLETED)
                  || bool_decide (st = CANCELLED)) = false)
      as ->.
    { destruct Hok as [-> | ->];
        [by rewrite (bool_decide_eq_true_2 _ (eq_refl COMPLETED))|].
      rewrite (bool_decide_eq_true_2 _ (eq_refl CANCELLED)).
      by rewrite orb_true_r. }
    rewrite Hres.
    assert (Hrej : is_ok (_convert_result res pp) = false →
              match _convert_result res pp with
              | Ok backres =>
                  (Ok backres,
                   set_cache
                     (<[handle := Some backres]>
                        (_cache (log_call (RetrieveJob handle.1
                                   (kw_use_websocket kwargs)
                                   (kw_timeout kwargs) (kw_wait kwargs)) σ)))
                     (log_call (RetrieveJob handle.1
                                  (kw_use_websocket kwargs)
                                  (kw_timeout kwargs) (kw_wait kwargs)) σ))
              | Raise e =>
                  (Raise e,
                   log_call (RetrieveJob handle.1 (kw_use_websocket kwargs)
                               (kw_timeout kwargs) (kw_wait kwargs)) σ)
              end
              = (Raise ValueError,
                 log_call (RetrieveJob handle.1 (kw_use_websocket kwargs)
                             (kw_timeout kwargs) (kw_wait kwargs)) σ)).
    { destruct (_convert_result res pp) as [backres|e] eqn:He; [done|].
      intros _. by rewrite (convert_result_raises _ _ _ He). }
    split; [|split; [done|]].
    + intros backres Hconv. rewrite Hconv. cbn. split; [done|].
      split; [|done]. apply lookup_insert_eq.
    + intros ->. apply Hrej. by rewrite convert_result_empty.
Qed.

End retrieval.

Section status_mapping.

Context (host : Pytket) (api : QuantinuumAPI).

(** C10. The status table has exactly six keys: [queued], [running],
    [completed], [failed], [canceling] and [canceled], the last two both
    giving [CANCELLED]. A record with one of them is parsed to the status of
    the table; a record with any other status string makes [_parse_status]
    raise [KeyError], and neither [circuit_status] nor [get_result] catches
    it: it is their outcome. *)
Theorem parse_status_unknown_raises σ (handle : ResultHandle) kwargs response s :
  jd_status response = Some s →
  (∀ k st, _STATUS_MAP !! k = Some st ↔
     (k, st) ∈ [ ("queued", QUEUED); ("running", RUNNING);
                 ("completed", COMPLETED); ("failed", ERROR);
                 ("canceling", CANCELLED); ("canceled", CANCELLED) ]) ∧
  (∀ st, _STATUS_MAP !! s = Some st →
     ∃ msg, _parse_status host response
            = Ok {| status := st; message := msg |}) ∧
  (s ∉ [ "queued"; "running"; "completed"; "failed"; "canceling";
         "canceled" ] →
     _parse_status host response = Raise (KeyError s) ∧
     (is_debug_handle σ handle.1 = false →
      retrieve_job_status api (api_log σ) handle.1
        (default true (kw_use_websocket kwargs)) = Ok (Some response) →
      (circuit_status host api handle kwargs σ).1 = Raise (KeyError s)) ∧
     (is_debug_handle σ handle.1 = false →
      (∀ res, _cache σ !! handle ≠ Some (Some res)) →
      is_ok (circuit_from_json host handle.2) = true →
      retrieve_job api (api_log σ) handle.1 (kw_use_websocket kwargs)
        (kw_timeout kwargs) (kw_wait kwargs) = Ok (Some response) →
      (get_result host api handle kwargs σ).1 = Raise (KeyError s))).
Proof.
  intros Hs. split; [apply status_map_lookup|].
  split; [intros st Hst; by apply (parse_status_known host response s)|].
  intros Hnot%status_map_None.
  assert (_parse_status host response = Raise (KeyError s)) as Hparse.
  { unfold _parse_status. by rewrite Hs, Hnot. }
  split; [done|]. split.
  - intros Hnd Hq.
    by rewrite (circuit_status_unknown_status host api σ handle kwargs response s).
  - intros Hnd Hcache Hpp Hjob.
    destruct (circuit_from_json host handle.2) as [pp|] eqn:Hpp'; [|done].
    unfold get_result, Backend_get_result, _retrieve_job. unfold_m.
    destruct (_cache σ !! handle) as [[res0|]|] eqn:Hc;
      [by destruct (Hcache res0)|..]; cbn;
      rewrite (bool_decide_eq_true_2 _ (eq_refl CircuitNotRunError));
      rewrite Hpp', Hnd, Hjob; cbn; by rewrite Hparse.
Qed.

End status_mapping.

Section device_info.

Context (host : Pytket) (api : QuantinuumAPI).

Lemma backend_info_cached σ bi :
  _backend_info σ = Some bi → backend_info api σ = (Ok (Some bi), σ).
Proof. intros Hbi. unfold backend_info. unfold_m. by rewrite Hbi. Qed.

Lemma backend_info_debug σ :
  debug_mode σ → backend_info api σ = (Ok None, σ).
Proof.
  intros [Hd Hbi]. unfold backend_info. unfold_m. by rewrite Hbi, Hd.
Qed.

(** What a call of the [backend_info] property leaves behind. *)
Lemma backend_info_inv σ r σ' :
  backend_info api σ = (r, σ') →
  _MACHINE_DEBUG σ' = _MACHINE_DEBUG σ ∧
  match r with
  | Ok (Some bi) => _backend_info σ' = Some bi
  | Ok None => σ' = σ ∧ debug_mode σ
  | Raise e =>
      _backend_info σ' = None ∧
      (api_foreign api → own_exception e = true →
       e = DeviceNotAvailable (_device_name σ))
  end.
Proof.
  unfold backend_info, _retrieve_backendinfo, _available_devices. unfold_m.
  destruct (_backend_info σ) as [bi|] eqn:Hbi; [by intros [= <- <-]|].
  destruct (_MACHINE_DEBUG σ) eqn:Hd; cbn; [by intros [= <- <-]|].
  destruct (login api (api_log σ)) as [tok|e] eqn:Hlogin; cbn.
  2:{ intros [= <- <-]. cbn. repeat split; [done..|].
      intros [Hf _ _ _ _ _] He. by rewrite (Hf _ _ Hlogin) in He. }
  destruct (machine_list api _) as [jr|e] eqn:Hlist; cbn.
  2:{ intros [= <- <-]. cbn. repeat split; [done..|].
      intros [_ Hf _ _ _ _] He. by rewrite (Hf _ _ Hlist) in He. }
  destruct (find_machine _ jr) as [info|e] eqn:Hfind; cbn.
  2:{ intros [= <- <-]. cbn. repeat split; [done..|]. intros _ He.
      clear Hlist. induction jr as [|entry jr IH]; cbn in Hfind;
        [by injection Hfind as <-|].
      destruct (entry !! "name") as [[| | |s| |]|]; try by apply IH.
      - destruct (String.eqb s _); [done|by apply IH].
      - injection Hfind as <-. done. }
  destruct (_dict_to_backendinfo _) as [bi|e] eqn:Hdict; cbn.
  - by intros [= <- <-].
  - intros [= <- <-]. cbn. repeat split; [done..|]. intros _ He.
    unfold _dict_to_backendinfo in Hdict.
    repeat match type of Hdict with
           | match ?x with _ => _ end = _ => destruct x eqn:?
           | rbind ?x _ = _ => destruct x eqn:?; cbn in Hdict
           end; try done; try by injection Hdict as <-.
    injection Hdict as <-. unfold _get_gateset in *.
    repeat match goal with
           | H : rbind ?x _ = _ |- _ => destruct x eqn:?; cbn in H
           | H : json_contains _ ?g = _ |- _ => destruct g; cbn in H
           end; by simplify_eq.
Qed.

End device_info.

Section debug.

Context (host : Pytket) (api : QuantinuumAPI).

Lemma required_predicates_debug σ :
  _MACHINE_DEBUG σ = true →
  required_predicates api σ = (Ok debug_predicates, σ).
Proof.
  intros Hd. unfold required_predicates, _gate_set. unfold_m.
  by rewrite !Hd.
Qed.

Lemma check_all_circuits_debug σ circuits :
  _MACHINE_DEBUG σ = true →
  _check_all_circuits host api circuits σ
  = (if forallb (λ c, forallb (λ p, verify host p c) debug_predicates) circuits
     then Ok tt else Raise CircuitNotValidError, σ).
Proof.
  intros Hd. induction circuits as [|c circuits IH]; [done|].
  cbn [_check_all_circuits forallb]. unfold bind at 1.
  rewrite required_predicates_debug by done.
  destruct (forallb (λ p, verify host p c) debug_predicates); [|done].
  by rewrite IH.
Qed.

Lemma process_circuit_body_debug σ kwargs circ n_shots :
  _MACHINE_DEBUG σ = true →
  process_circuit_body host api kwargs JNull circ n_shots σ
  = (debug_handle host kwargs circ n_shots, σ).
Proof.
  intros Hd. unfold process_circuit_body, debug_handle. unfold_m. cbn.
  destruct (default false (kw_postprocess kwargs)).
  - destruct (prepare_circuit host circ) as [c0 pp].
    destruct (circuit_to_qasm_str host c0); [|done]. by rewrite Hd.
  - destruct (circuit_to_qasm_str host circ); [|done]. by rewrite Hd.
Qed.

Lemma process_circuits_loop_debug σ kwargs l :
  _MACHINE_DEBUG σ = true →
  process_circuits_loop host api kwargs JNull l σ
  = (result_mapM (λ cn, debug_handle host kwargs cn.1 cn.2) l, σ).
Proof.
  intros Hd. induction l as [|[circ n] l IH]; [done|].
  cbn [process_circuits_loop result_mapM]. unfold bind at 1.
  rewrite process_circuit_body_debug by done. cbn.
  destruct (debug_handle host kwargs circ n); [|done]. cbn.
  unfold bind. rewrite IH.
  by destruct (result_mapM _ l).
Qed.

(** In debug mode [process_circuits] touches neither the state nor the API
    handler. *)
Lemma process_circuits_debug σ circuits n_shots valid_check kwargs :
  debug_mode σ →
  process_circuits host api circuits n_shots valid_check kwargs σ
  = (debug_handles host circuits n_shots valid_check kwargs, σ).
Proof.
  intros Hdm. pose proof Hdm as [Hd Hbi].
  unfold process_circuits, debug_handles.
  unfold bind at 1. unfold lift.
  destruct (_get_n_shots_as_list host n_shots (length circuits))
    as [n_shots_list|]; [|done]. cbn [rbind].
  unfold bind at 1.
  assert ((if valid_check then _check_all_circuits host api circuits else ret tt) σ
          = (if valid_check
                && negb (forallb (λ c, forallb (λ p, verify host p c)
                                         debug_predicates) circuits)
             then Raise CircuitNotValidError else Ok tt, σ)) as ->.
  { destruct valid_check; [|done]. rewrite check_all_circuits_debug by done.
    by destruct (forallb _ circuits). }
  destruct (valid_check && _); [done|]. cbn [rbind].
  unfold bind at 1. rewrite backend_info_debug by done.
  unfold bind at 1. unfold ret at 1.
  by apply process_circuits_loop_debug.
Qed.

End debug.

Section batchable.

Context (host : Pytket) (api : QuantinuumAPI).

Lemma debug_handles_foreign circuits n_shots valid_check kwargs :
  host_foreign host →
  foreign (debug_handles host circuits n_shots valid_check kwargs).
Proof.
  intros [Hqasm _ Hshots] e. unfold debug_handles.
  destruct (_get_n_shots_as_list host _ _) as [l|e1] eqn:Hl; cbn;
    [|intros [= <-]; by apply (Hshots _ _ _ Hl)].
  destruct (valid_check && _); cbn; [by intros [= <-]|].
  intros ([circ n] & _ & Hraise)%result_mapM_raises.
  unfold debug_handle in Hraise. cbn in Hraise.
  destruct (if default false (kw_postprocess kwargs) then _ else _)
    as [c0 rep].
  destruct (circuit_to_qasm_str host c0) as [?|e1] eqn:Hq; [done|].
  cbn in Hraise. injection Hraise as <-. by apply (Hqasm _ _ Hq).
Qed.

Lemma check_batchable_debug_mode σ :
  debug_mode σ → _check_batchable api σ = (Ok tt, σ).
Proof.
  intros Hdm. unfold _check_batchable. unfold bind.
  by rewrite backend_info_debug.
Qed.

(** C9. With no device descriptor (debug mode) [_check_batchable] returns
    without a call on the API handler, and neither [start_batch] nor
    [add_to_batch] raises [BatchingUnsupported]. In any state, when
    [_check_batchable] raises [BatchingUnsupported] a device descriptor has
    been fetched and its capability map has no true [batching] entry; and
    with such a descriptor the check does raise it. *)
Theorem check_batchable_without_descriptor σ :
  (debug_mode σ → _check_batchable api σ = (Ok tt, σ)) ∧
  (debug_mode σ → host_foreign host → api_foreign api →
     ∀ cost h circ ns batch_end valid kw,
       (start_batch host api cost circ ns valid kw σ).1
         ≠ Raise BatchingUnsupported ∧
       (add_to_batch host api h circ ns batch_end valid kw σ).1
         ≠ Raise BatchingUnsupported) ∧
  (api_foreign api →
     ∀ σ', _check_batchable api σ = (Raise BatchingUnsupported, σ') →
       ∃ bi, _backend_info σ' = Some bi ∧
             truthy (misc_get bi "batching" (JBool false)) = false) ∧
  (∀ bi, _backend_info σ = Some bi →
     truthy (misc_get bi "batching" (JBool false)) = false →
     _check_batchable api σ = (Raise BatchingUnsupported, σ)).
Proof.
  split; [by apply check_batchable_debug_mode|]. split; [|split].
  - intros Hdm Hhost Hapi cost h circ ns batch_end valid kw.
    split.
    + unfold start_batch. unfold bind at 1.
      rewrite check_batchable_debug_mode by done.
      unfold bind at 1. rewrite (process_circuits_debug host api) by done.
      destruct (debug_handles _ _ _ _ _) as [[|h1 [|h2 hs]]|e] eqn:Hh;
        cbn; try done.
      * unfold_m. cbn.
        destruct (retrieve_job_status api _ _ _) as [?|e] eqn:Hq; [done|].
        cbn. intros [= ->].
        by pose proof (retrieve_job_status_foreign api Hapi _ _ _ _ Hq).
      * intros [= ->].
        by pose proof (debug_handles_foreign _ _ _ _ Hhost _ Hh).
    + unfold add_to_batch. unfold bind at 1.
      rewrite check_batchable_debug_mode by done.
      unfold bind at 1. rewrite (process_circuits_debug host api) by done.
      destruct (debug_handles _ _ _ _ _) as [[|h1 hs]|e] eqn:Hh; cbn;
        try done.
      intros [= ->].
      by pose proof (debug_handles_foreign _ _ _ _ Hhost _ Hh).
  - intros Hapi σ'. unfold _check_batchable. unfold bind at 1.
    destruct (backend_info api σ) as [r σ1] eqn:Hinfo.
    apply backend_info_inv in Hinfo as [_ Hinfo].
    destruct r as [[bi|]|e].
    + unfold bind. rewrite (backend_info_cached api σ1 bi) by done.
      destruct (negb _) eqn:Ht; [|done]. intros [= <-].
      exists bi. split; [done|]. by apply negb_true_iff.
    + done.
    + intros [= -> <-]. destruct Hinfo as [_ Hown].
      by specialize (Hown Hapi eq_refl).
  - intros bi Hbi Ht. unfold _check_batchable. unfold bind.
    rewrite !(backend_info_cached api σ bi) by done. by rewrite Ht.
Qed.

End batchable.

Section literals.

Lemma int_literal_str z : int_literal (str_int z) = Some z.
Proof.
  unfold int_literal, str_int. rewrite NilEmpty.isi, DecimalZ.of_to.
  by rewrite String.eqb_refl.
Qed.

Lemma string_of_uint_chars d :
  Forall (λ c, c ≠ ","%char ∧ c ≠ ")"%char)
    (list_ascii_of_string (NilEmpty.string_of_uint d)).
Proof. induction d; cbn; constructor; done. Qed.

Lemma str_int_chars z :
  Forall (λ c, c ≠ ","%char ∧ c ≠ ")"%char) (list_ascii_of_string (str_int z)).
Proof.
  unfold str_int. destruct (Z.to_int z); cbn.
  - apply string_of_uint_chars.
  - constructor; [done|]. apply string_of_uint_chars.
Qed.

Lemma append_nil_l (s : string) : "" ++ s = s.
Proof. done. Qed.

Lemma append_cons c (a s : string) : String c a ++ s = String c (a ++ s).
Proof. done. Qed.

Lemma split_at_app sep a b :
  Forall (λ c, c ≠ sep) (list_ascii_of_string a) →
  split_at sep (a ++ String sep b) = Some (a, b).
Proof.
  induction a as [|c a IH]; rewrite ?append_nil_l, ?append_cons;
    cbn [split_at list_ascii_of_string].
  - intros _. by rewrite Ascii.eqb_refl.
  - intros [Hc Ha]%Forall_cons. apply Ascii.eqb_neq in Hc. rewrite Hc.
    by rewrite IH.
Qed.

Lemma literal_eval_str_pair a b : literal_eval_pair (str_pair a b) = Ok (a, b).
Proof.
  unfold literal_eval_pair, str_pair.
  rewrite append_cons, append_nil_l.
  change (", " ++ str_int b ++ ")") with (String "," (" " ++ str_int b ++ ")")).
  rewrite split_at_app; last first.
  { eapply Forall_impl; [apply str_int_chars|]. by intros c [? _]. }
  rewrite append_cons, append_nil_l.
  rewrite split_at_app; last first.
  { eapply Forall_impl; [apply str_int_chars|]. by intros c [_ ?]. }
  by rewrite !int_literal_str.
Qed.

Lemma str_drop_app p s : str_drop (String.length p) (p ++ s) = s.
Proof.
  induction p as [|c p IH]; rewrite ?append_nil_l, ?append_cons; [done|].
  apply IH.
Qed.

Lemma str_times_zeros n :
  str_times "0" (Z.of_nat n) = string_of_list_ascii (replicate n "0"%char).
Proof.
  unfold str_times. rewrite Nat2Z.id.
  induction n as [|n IH]; [done|]. cbn [replicate string_of_list_ascii].
  rewrite <- IH. by destruct n.
Qed.

Lemma list_times_singleton {A} (x : A) n :
  list_times [x] n = replicate (Z.to_nat n) x.
Proof.
  unfold list_times. generalize (Z.to_nat n). intros k.
  induction k as [|k IH]; [done|]. cbn. by f_equal.
Qed.

End literals.

Section debug_results.

Context (host : Pytket) (api : QuantinuumAPI).

Lemma bits_of_zeros nq :
  bits_of (string_of_list_ascii (replicate nq "0"%char)) = replicate nq 0%N.
Proof.
  unfold bits_of. rewrite list_ascii_of_string_of_list_ascii.
  by rewrite fmap_replicate.
Qed.

Lemma zeros_well_formed nq n :
  well_formed
    {[ "c" := replicate n (string_of_list_ascii (replicate nq "0"%char)) ]}
    n (λ _, nq).
Proof.
  intros name l [<- <-]%lookup_singleton_Some.
  split; [by rewrite length_replicate|].
  apply Forall_replicate. split.
  - rewrite <- length_bits_of, bits_of_zeros. by rewrite length_replicate.
  - unfold bit_string. rewrite list_ascii_of_string_of_list_ascii.
    apply Forall_replicate. by left.
Qed.

(** The decoded table of a payload of [n] all-zero strings of [nq]
    characters, in the one register [c]; there is none without a shot. *)
Lemma convert_result_zeros nq n pp :
  _convert_result
    {[ "c" := replicate n (string_of_list_ascii (replicate nq "0"%char)) ]} pp
  = match n with
    | 0 => Raise ValueError
    | S _ => Ok {| c_bits := msb_first "c" nq;
                   shots := replicate n (replicate nq 0%N);
                   ppcirc := pp |}
    end.
Proof.
  rewrite (convert_result_well_formed _ n (λ _, nq)) by apply zeros_well_formed.
  cbn zeta. rewrite decide_False by apply map_non_empty_singleton.
  rewrite map_fmap_singleton, map_to_list_singleton.
  change (sorted_reverse _) with ["c"]. cbn [mbind list_bind mapM app].
  destruct n as [|n'] eqn:Hn; [done|]. rewrite <- Hn. clear Hn.
  f_equal. f_equal.
  - by rewrite app_nil_r.
  - apply list_eq. intros i. rewrite list_lookup_fmap.
    destruct (decide (i < n)) as [Hi|Hi].
    + rewrite lookup_seq_lt, lookup_replicate_2 by done. cbn. f_equal.
      rewrite app_nil_r. unfold shot_bits.
      rewrite lookup_singleton_eq. cbn.
      rewrite lookup_replicate_2 by done. apply bits_of_zeros.
    + rewrite lookup_seq_ge by lia. symmetry. apply lookup_replicate_None. lia.
Qed.

(** [get_result] on a debug handle without a cached result. *)
Lemma get_result_debug σ (handle : ResultHandle) kwargs pp n_qubits n_shots :
  is_debug_handle σ handle.1 = true →
  (∀ res, _cache σ !! handle ≠ Some (Some res)) →
  circuit_from_json host handle.2 = Ok pp →
  literal_eval_pair (str_drop (String.length _DEBUG_HANDLE_PREFIX) handle.1)
    = Ok (n_qubits, n_shots) →
  get_result host api handle kwargs σ
  = (_convert_result
       {[ "c" := list_times [str_times "0" n_qubits] n_shots ]} pp, σ).
Proof.
  intros Hdebug Hcache Hpp Hinfo.
  unfold get_result, Backend_get_result. unfold_m.
  destruct (_cache σ !! handle) as [[res0|]|] eqn:Hc;
    [by destruct (Hcache res0)|..];
    rewrite (bool_decide_eq_true_2 _ (eq_refl CircuitNotRunError));
    by rewrite Hpp, Hdebug, Hinfo.
Qed.

(** [get_result] on the handle that debug mode gives for [nq] qubits and
    [n_shots] shots. *)
Lemma get_result_debug_handle σ kwargs nq n_shots pp_str pp :
  let handle : ResultHandle :=
    (_DEBUG_HANDLE_PREFIX ++ str_pair (Z.of_nat nq) n_shots, pp_str) in
  (∀ res, _cache σ !! handle ≠ Some (Some res)) →
  circuit_from_json host pp_str = Ok pp →
  get_result host api handle kwargs σ
  = (match Z.to_nat n_shots with
     | 0 => Raise ValueError
     | S _ => Ok {| c_bits := msb_first "c" nq;
                    shots := replicate (Z.to_nat n_shots) (replicate nq 0%N);
                    ppcirc := pp |}
     end, σ).
Proof.
  intros handle Hcache Hpp.
  rewrite (get_result_debug σ handle kwargs pp (Z.of_nat nq) n_shots);
    [|apply is_debug_handle_spec; right; by eexists|done..|].
  - by rewrite str_times_zeros, list_times_singleton, convert_result_zeros.
  - unfold handle. cbn [fst].
    by rewrite (str_drop_app _DEBUG_HANDLE_PREFIX), literal_eval_str_pair.
Qed.

End debug_results.

Section debug_shape.

Context (host : Pytket) (api : QuantinuumAPI).

Lemma result_mapM_lookup {A B} (f : A → Result B) l k i y :
  result_mapM f l = Ok k → k !! i = Some y →
  ∃ x, l !! i = Some x ∧ f x = Ok y.
Proof.
  revert k i. induction l as [|x l IH]; intros k i; cbn.
  - by intros [= <-].
  - destruct (f x) as [y0|] eqn:Hx; [|done]. cbn.
    destruct (result_mapM f l) as [k0|]; [|done]. cbn. intros [= <-].
    destruct i as [|i]; cbn.
    + intros [= <-]. eauto.
    + intros Hy. by apply (IH k0 i).
Qed.

Lemma debug_handle_jobid kwargs circ n_shots (handle : ResultHandle) :
  debug_handle host kwargs circ n_shots = Ok handle →
  handle.1 = _DEBUG_HANDLE_PREFIX ++ str_pair (Z.of_nat (n_qubits circ)) n_shots.
Proof.
  unfold debug_handle.
  destruct (if default false (kw_postprocess kwargs) then _ else _)
    as [c0 rep].
  destruct (circuit_to_qasm_str host c0); [|done]. by intros [= <-].
Qed.

(** C2 (amended). In debug mode a submission leaves the state as
    it was, and for every circuit submitted with a positive shot count [n]
    the fetched result (for a handle with no cached result and a readable
    post-processing text) is a table of [n] rows and as many columns as the
    circuit has qubits, every entry zero; for a shot count that is not
    positive the fetch raises [ValueError]. Fetching leaves the state as it
    was, so no call is made on the API handler. *)
Theorem debug_result_zero_table σ circuits n_shots valid_check kwargs
    n_shots_list handles :
  debug_mode σ →
  _get_n_shots_as_list host n_shots (length circuits) = Ok n_shots_list →
  (process_circuits host api circuits n_shots valid_check kwargs σ).1
    = Ok handles →
  (process_circuits host api circuits n_shots valid_check kwargs σ).2 = σ ∧
  ∀ i (handle : ResultHandle) circ n pp kw,
    handles !! i = Some handle → circuits !! i = Some circ →
    n_shots_list !! i = Some n →
    (∀ res, _cache σ !! handle ≠ Some (Some res)) →
    circuit_from_json host handle.2 = Ok pp →
    ((0 < n)%Z →
       ∃ r, get_result host api handle kw σ = (Ok r, σ) ∧
            shots r = replicate (Z.to_nat n) (replicate (n_qubits circ) 0%N) ∧
            length (shots r) = Z.to_nat n ∧
            Forall (λ row, length row = n_qubits circ ∧ Forall (eq 0%N) row)
              (shots r)) ∧
    ((n ≤ 0)%Z → get_result host api handle kw σ = (Raise ValueError, σ)).
Proof.
  intros Hdm Hshots. rewrite (process_circuits_debug host api) by done.
  cbn [fst snd]. unfold debug_handles. rewrite Hshots. cbn [rbind].
  destruct (valid_check && _); [done|]. cbn [rbind]. intros Hmap.
  split; [done|].
  intros i handle circ n pp kw Hh Hc Hn Hcache Hpp.
  destruct (result_mapM_lookup _ _ _ _ _ Hmap Hh) as ([c' n'] & Hzip & Hdh).
  apply lookup_zip_with_Some in Hzip as (c2 & n2 & [= -> ->] & Hc2 & Hn2).
  rewrite Hc in Hc2. rewrite Hn in Hn2. injection Hc2 as <-.
  injection Hn2 as <-. cbn in Hdh.
  pose proof (debug_handle_jobid _ _ _ _ Hdh) as Hid.
  destruct handle as [jobid pp_str]. cbn in Hid, Hpp. subst jobid.
  pose proof (get_result_debug_handle host api σ kw (n_qubits circ) n pp_str pp
                Hcache Hpp) as Hget.
  cbv zeta in Hget. rewrite Hget. split.
  - intros Hpos. destruct (Z.to_nat n) as [|k] eqn:Hk; [lia|].
    rewrite <- Hk. eexists. split; [done|]. cbn [shots].
    split; [done|]. split; [by rewrite length_replicate|].
    apply Forall_replicate. split; [by rewrite length_replicate|].
    by apply Forall_replicate.
  - intros Hneg. by replace (Z.to_nat n) with 0 by lia.
Qed.

End debug_shape.

(** C2 (as stated): the column count is not the number of declared
    classical bits. A debug-mode submission of a circuit with one qubit and
    two classical bits, for one shot, gives a table with one column. *)
Lemma debug_table_not_of_bits :
  ¬ zero_table_of_bits sample_host sample_api debug_backend
      one_qubit_two_bits 1.
Proof.
  intros Hclaim.
  destruct (Hclaim ("_MACHINE_DEBUG_(1, 1)", "null")
              {| c_bits := [ {| reg_name := "c"; index := 0 |} ];
                 shots := [[0%N]]; ppcirc := None |}) as [_ Hrows].
  - by vm_compute.
  - by vm_compute.
  - apply Forall_cons in Hrows as [[Hlen _] _]. by vm_compute in Hlen.
Qed.

Section submission.

Context (host : Pytket) (api : QuantinuumAPI).

(** With a cached device descriptor the WASM guard leaves the state. *)
Lemma check_wasm_cached σ bi wasm :
  _backend_info σ = Some bi →
  check_wasm api wasm σ
  = (match wasm with
     | Some _ =>
         if negb (truthy (misc_get bi "wasm" (JBool false)))
         then Raise WasmUnsupported else Ok tt
     | None => Ok tt
     end, σ).
Proof.
  intros Hbi. unfold check_wasm. destruct wasm; [|done].
  unfold bind. rewrite !(backend_info_cached api σ bi) by done.
  by destruct (negb _).
Qed.

(** [submit_qasm] once the WASM guard has passed: one call, the submission
    of the request body. *)
Lemma submit_qasm_after_guard σ σ1 qasm n_shots name noisy group wasm pass
    no_opt options request_options :
  check_wasm api wasm σ = (Ok tt, σ1) →
  let body :=
    request_body σ qasm n_shots name noisy group wasm pass no_opt options
      request_options in
  submit_qasm api qasm n_shots name noisy group wasm pass no_opt options
    request_options σ
  = (rbind (reraise_connection_error (_submit_job api (api_log σ1) body))
       (submitted_handle api),
     log_call (SubmitJob body) σ1).
Proof.
  intros Hguard body. unfold submit_qasm. unfold_m. rewrite Hguard.
  fold body. destruct (_submit_job api (api_log σ1) body) as [res|e]; [done|].
  cbn. by destruct (is_connection_error e).
Qed.

(** C5. The request body of a submission takes every key of the call's
    [request_options] as it is given; when these do not replace [options],
    the [options] dictionary of the body takes every key of the call's
    [options], then every other key of the instance's options, then the
    built-in entries; and this body is the one submitted, in one call,
    once the WASM guard has passed. *)
Theorem request_body_precedence σ qasm n_shots name noisy group wasm pass
    no_opt options request_options :
  let body :=
    request_body σ qasm n_shots name noisy group wasm pass no_opt options
      request_options in
  let ro := default ∅ request_options in
  let opt := default ∅ options in
  let inst := _process_circuits_options σ in
  (∀ k v, ro !! k = Some v → body !! k = Some v) ∧
  (ro !! "options" = None →
     ∃ opts, body !! "options" = Some (JDict opts) ∧
       (∀ k v, opt !! k = Some v → opts !! k = Some v) ∧
       (∀ k v, opt !! k = None → inst !! k = Some v → opts !! k = Some v) ∧
       (∀ k, opt !! k = None → inst !! k = None →
          opts !! k
          = (list_to_map
               [ ("simulator", JStr (simulator_type σ));
                 ("no-opt", JBool no_opt); ("error-model", JBool noisy);
                 ("tket", JDict match pass with
                                | Some p => {[ "compilation-pass" := p ]}
                                | None => ∅
                                end) ] : gmap string Json) !! k)) ∧
  (∀ σ1, check_wasm api wasm σ = (Ok tt, σ1) →
     api_log (submit_qasm api qasm n_shots name noisy group wasm pass no_opt
                options request_options σ).2
     = (api_log σ1 ++ [SubmitJob body])%list) ∧
  (wasm = None →
     api_log (submit_qasm api qasm n_shots name noisy group wasm pass no_opt
                options request_options σ).2
     = (api_log σ ++ [SubmitJob body])%list).
Proof.
  intros body ro opt inst.
  assert (Hsub : ∀ σ1, check_wasm api wasm σ = (Ok tt, σ1) →
     api_log (submit_qasm api qasm n_shots name noisy group wasm pass no_opt
                options request_options σ).2
     = (api_log σ1 ++ [SubmitJob body])%list).
  { intros σ1 Hguard.
    by rewrite (submit_qasm_after_guard σ σ1). }
  split; [|split; [|split]].
  - intros k v Hk. unfold body, request_body, dict_update.
    by apply lookup_union_Some_l.
  - intros Hro. unfold body, request_body, dict_update. fold ro.
    eexists. split.
    { rewrite lookup_union_r by done. apply lookup_insert_eq. }
    split; [|split].
    + intros k v Hk. destruct options as [o|]; [|done].
      by apply lookup_union_Some_l.
    + intros k v Hk Hinst. destruct options as [o|].
      * rewrite lookup_union_r by done. by apply lookup_union_Some_l.
      * by apply lookup_union_Some_l.
    + intros k Hk Hinst. destruct options as [o|].
      * by rewrite !lookup_union_r.
      * by rewrite lookup_union_r.
  - done.
  - intros ->. by apply Hsub.
Qed.

End submission.

Section shot_limit.

Context (host : Pytket) (api : QuantinuumAPI).

Lemma process_circuit_body_exceeds σ kwargs (max : Z) circ n_shots :
  (max < n_shots)%Z →
  process_circuit_body host api kwargs (JInt max) circ n_shots σ
  = (Raise MaxShotsExceeded, σ).
Proof.
  intros Hmax. unfold process_circuit_body. unfold_m. cbn.
  by rewrite (proj2 (Z.ltb_lt max n_shots) Hmax).
Qed.

Lemma process_circuits_loop_cons σ kwargs max_shots circ n l :
  process_circuits_loop host api kwargs max_shots ((circ, n) :: l) σ
  = match process_circuit_body host api kwargs max_shots circ n σ with
    | (Ok h, σ0) =>
        match process_circuits_loop host api kwargs max_shots l σ0 with
        | (Ok hs, σ1) => (Ok (h :: hs), σ1)
        | (Raise e, σ1) => (Raise e, σ1)
        end
    | (Raise e, σ0) => (Raise e, σ0)
    end.
Proof.
  cbn [process_circuits_loop]. unfold bind at 1.
  destruct (process_circuit_body _ _ _ _ _ _ σ) as [[h|e] σ0]; [|done].
  unfold bind, ret.
  by destruct (process_circuits_loop _ _ _ _ l σ0) as [[?|?] ?].
Qed.

Lemma process_circuits_loop_app σ kwargs max_shots pre rest handles σ1 :
  process_circuits_loop host api kwargs max_shots pre σ = (Ok handles, σ1) →
  process_circuits_loop host api kwargs max_shots (pre ++ rest) σ
  = match process_circuits_loop host api kwargs max_shots rest σ1 with
    | (Ok more, σ2) => (Ok (handles ++ more)%list, σ2)
    | (Raise e, σ2) => (Raise e, σ2)
    end.
Proof.
  revert σ handles. induction pre as [|[circ n] pre IH]; intros σ handles.
  - cbn. intros [= <- <-].
    by destruct (process_circuits_loop _ _ _ _ rest σ) as [[?|?] ?].
  - cbn [app]. rewrite !process_circuits_loop_cons.
    destruct (process_circuit_body _ _ _ _ _ _ σ) as [[h|e] σ0]; [|done].
    destruct (process_circuits_loop _ _ _ _ pre σ0) as [[hs|e] σ0'] eqn:Hpre;
      [|done].
    intros [= <- <-]. rewrite (IH σ0 hs) by done.
    by destruct (process_circuits_loop _ _ _ _ rest σ0') as [[?|?] ?].
Qed.

(** C6. A circuit whose shot count exceeds the declared limit makes the
    loop of [process_circuits] raise [MaxShotsExceeded] in the state it is
    reached in: nothing is submitted for it nor for the circuits behind it,
    and the calls on the API handler are those of the circuits before it.
    With the limit taken from the capability map of the device, a
    submission whose first circuit exceeds it ends in the state left by the
    look-up of the descriptor: with a cached descriptor, no call at all. *)
Theorem max_shots_exceeded_before_submission σ kwargs (max : Z) circ n_shots
    rest :
  (max < n_shots)%Z →
  process_circuits_loop host api kwargs (JInt max) ((circ, n_shots) :: rest) σ
    = (Raise MaxShotsExceeded, σ) ∧
  (∀ pre handles σ1,
     process_circuits_loop host api kwargs (JInt max) pre σ = (Ok handles, σ1) →
     process_circuits_loop host api kwargs (JInt max)
       (pre ++ (circ, n_shots) :: rest)%list σ
     = (Raise MaxShotsExceeded, σ1)) ∧
  (∀ bi σ0 σ1 circuits ns (valid_check : bool) l,
     _get_n_shots_as_list host ns (length (circ :: circuits))
       = Ok (n_shots :: l) →
     (if valid_check then _check_all_circuits host api (circ :: circuits)
      else ret tt) σ = (Ok tt, σ0) →
     backend_info api σ0 = (Ok (Some bi), σ1) →
     misc bi !! "n_shots" = Some (JInt max) →
     process_circuits host api (circ :: circuits) ns valid_check kwargs σ
     = (Raise MaxShotsExceeded, σ1)) ∧
  (∀ bi circuits ns l,
     _get_n_shots_as_list host ns (length (circ :: circuits))
       = Ok (n_shots :: l) →
     _backend_info σ = Some bi →
     misc bi !! "n_shots" = Some (JInt max) →
     process_circuits host api (circ :: circuits) ns false kwargs σ
     = (Raise MaxShotsExceeded, σ)).
Proof.
  intros Hmax.
  assert (Hhead : ∀ σ rest,
    process_circuits_loop host api kwargs (JInt max) ((circ, n_shots) :: rest) σ
    = (Raise MaxShotsExceeded, σ)).
  { intros σ' rest'. rewrite process_circuits_loop_cons.
    by rewrite process_circuit_body_exceeds. }
  assert (Hfull : ∀ bi σ0 σ1 circuits ns (valid_check : bool) l,
     _get_n_shots_as_list host ns (length (circ :: circuits))
       = Ok (n_shots :: l) →
     (if valid_check then _check_all_circuits host api (circ :: circuits)
      else ret tt) σ = (Ok tt, σ0) →
     backend_info api σ0 = (Ok (Some bi), σ1) →
     misc bi !! "n_shots" = Some (JInt max) →
     process_circuits host api (circ :: circuits) ns valid_check kwargs σ
     = (Raise MaxShotsExceeded, σ1)).
  { intros bi σ0 σ1 circuits ns valid_check l Hshots Hcheck Hinfo Hmisc.
    unfold process_circuits. unfold bind at 1. unfold lift. rewrite Hshots.
    unfold bind at 1. rewrite Hcheck.
    unfold bind at 1. rewrite Hinfo.
    apply backend_info_inv in Hinfo as [_ Hinfo].
    unfold bind at 1. unfold bind at 1.
    rewrite (backend_info_cached api σ1 bi) by done.
    unfold ret at 1. unfold misc_get. rewrite Hmisc. cbn [default zip zip_with].
    apply Hhead. }
  split; [apply Hhead|]. split; [|split; [apply Hfull|]].
  - intros pre handles σ1 Hpre.
    rewrite (process_circuits_loop_app σ kwargs _ pre _ handles σ1) by done.
    by rewrite Hhead.
  - intros bi circuits ns l Hshots Hbi Hmisc.
    apply (Hfull bi σ σ circuits ns false l); try done.
    by apply backend_info_cached.
Qed.

End shot_limit.

Section batch.

Context (host : Pytket) (api : QuantinuumAPI).

Lemma backend_info_log σ r σ' :
  backend_info api σ = (r, σ') →
  ∃ calls, api_log σ' = (api_log σ ++ calls)%list ∧ listing_calls calls ∧
           _cache σ' = _cache σ.
Proof.
  unfold backend_info, _retrieve_backendinfo, _available_devices,
    listing_calls. unfold_m.
  destruct (_backend_info σ) as [bi|];
    [intros [= <- <-]; exists []; by rewrite app_nil_r|].
  destruct (_MACHINE_DEBUG σ); cbn;
    [intros [= <- <-]; exists []; by rewrite app_nil_r|].
  destruct (login api (api_log σ)) as [tok|e]; cbn;
    [|intros [= <- <-]; exists [Login]; split; [done|]; split; [|done];
      repeat constructor].
  assert (Forall (λ c, c = Login ∨ c = MachineList) [Login; MachineList])
    by (repeat constructor; auto).
  destruct (machine_list api _) as [jr|e]; cbn;
    [|intros [= <- <-]; exists [Login; MachineList]; cbn;
      by rewrite <- (assoc_L (++))].
  destruct (find_machine _ jr) as [info|e]; cbn;
    [|intros [= <- <-]; exists [Login; MachineList]; cbn;
      by rewrite <- (assoc_L (++))].
  destruct (_dict_to_backendinfo _) as [bi|e]; cbn;
    intros [= <- <-]; exists [Login; MachineList]; cbn;
    by rewrite <- (assoc_L (++)).
Qed.

Lemma gate_set_cached σ bi :
  _backend_info σ = Some bi → (_gate_set api σ).2 = σ.
Proof.
  intros Hbi. unfold _gate_set. unfold bind at 1. unfold get_self at 1.
  destruct (_MACHINE_DEBUG σ); [done|].
  unfold bind. by rewrite (backend_info_cached api σ bi).
Qed.

Lemma required_predicates_cached σ bi :
  _backend_info σ = Some bi → (required_predicates api σ).2 = σ.
Proof.
  intros Hbi. unfold required_predicates. unfold bind at 1.
  pose proof (gate_set_cached σ bi Hbi) as Hgs.
  destruct (_gate_set api σ) as [[gs|e] σ0]; cbn in Hgs; subst σ0; [|done].
  unfold bind at 1. unfold get_self at 1.
  destruct (_MACHINE_DEBUG σ); [done|]. cbn [negb].
  unfold bind. by rewrite !(backend_info_cached api σ bi).
Qed.

Lemma check_all_circuits_cached σ bi circuits :
  _backend_info σ = Some bi → (_check_all_circuits host api circuits σ).2 = σ.
Proof.
  intros Hbi. induction circuits as [|c circuits IH]; [done|].
  cbn [_check_all_circuits]. unfold bind.
  pose proof (required_predicates_cached σ bi Hbi) as Hreq.
  destruct (required_predicates api σ) as [[preds|e] σ0]; cbn in Hreq;
    subst σ0; [|done].
  by destruct (forallb _ preds).
Qed.

(** One turn of the loop on a device with a cached descriptor: a handle is
    returned only after one call, the submission, whose body carries the
    request options of the call. *)
Lemma process_circuit_body_submits σ bi kwargs max_shots circ n
    (h : ResultHandle) σ' :
  _backend_info σ = Some bi → _MACHINE_DEBUG σ = false →
  process_circuit_body host api kwargs max_shots circ n σ = (Ok h, σ') →
  ∃ body res,
    σ' = set_cache (<[h := None]> (_cache σ)) (log_call (SubmitJob body) σ) ∧
    (∀ k v, default ∅ (kw_request_options kwargs) !! k = Some v →
            body !! k = Some v) ∧
    _submit_job api (api_log σ) body = Ok res ∧
    submitted_handle api res = Ok (h.1, "null").
Proof.
  intros Hbi Hd. unfold process_circuit_body.
  unfold bind at 1. unfold get_self at 1.
  unfold bind at 1. unfold lift at 1.
  destruct (exceeds n max_shots) as [[|]|]; [done| |done].
  destruct (if default false (kw_postprocess kwargs) then _ else _)
    as [c0 rep].
  unfold bind at 1. unfold lift at 1.
  destruct (circuit_to_qasm_str host c0) as [qasm|]; [|done].
  rewrite Hd. unfold bind at 1.
  pose proof (check_wasm_cached api σ bi (kw_wasm_file_handler kwargs) Hbi)
    as Hguard.
  destruct (match kw_wasm_file_handler kwargs with
            | Some _ => if negb _ then _ else _
            | None => Ok ()
            end) as [[]|e] eqn:Hg.
  2:{ unfold submit_qasm. unfold bind at 1. unfold get_self at 1.
      unfold bind at 1. rewrite Hguard. intros [=]. }
  rewrite (submit_qasm_after_guard api σ σ _ _ _ _ _ _ _ _ _ _ Hguard).
  cbn zeta.
  destruct (_submit_job api (api_log σ) _) as [res|] eqn:Hres;
    [|intros [=]].
  cbn [rbind reraise_connection_error].
  destruct (submitted_handle api res) as [[jobid null]|] eqn:Hsub;
    [|intros [=]].
  assert (null = "null") as ->.
  { unfold submitted_handle in Hsub.
    repeat match type of Hsub with
           | (if ?b then _ else _) = _ => destruct b
           | match ?x with _ => _ end = _ => destruct x
           end; by simplify_eq. }
  unfold_m. cbn. intros [= <- <-].
  eexists _, res. split; [done|]. split; [|done].
  intros k v Hk. unfold request_body, dict_update. cbn [default].
  by apply lookup_union_Some_l.
Qed.

Lemma process_circuits_one_cached σ bi circ ns valid_check kwargs hs σ' :
  _backend_info σ = Some bi → _MACHINE_DEBUG σ = false →
  process_circuits host api [circ] ns valid_check kwargs σ = (Ok hs, σ') →
  (hs = [] ∧ σ' = σ) ∨
  ∃ h n, hs = [h] ∧
    process_circuit_body host api kwargs (misc_get bi "n_shots" JNull) circ n σ
      = (Ok h, σ').
Proof.
  intros Hbi Hd. unfold process_circuits.
  unfold bind at 1. unfold lift at 1.
  destruct (_get_n_shots_as_list host ns _) as [l|]; [|done].
  unfold bind at 1.
  assert (∃ r, (if valid_check then _check_all_circuits host api [circ] else ret tt) σ
               = (r, σ)) as [r ->].
  { destruct valid_check; [|by eexists].
    pose proof (check_all_circuits_cached σ bi [circ] Hbi) as Hcheck.
    destruct (_check_all_circuits host api [circ] σ) as [r σ0]. cbn in Hcheck.
    subst σ0. by eexists. }
  destruct r as [[]|]; [|done].
  unfold bind at 1. rewrite (backend_info_cached api σ bi) by done.
  unfold bind at 1. unfold bind at 1.
  rewrite (backend_info_cached api σ bi) by done. unfold ret at 1.
  destruct l as [|n l]; cbn [zip zip_with].
  - cbn. intros [= <- <-]. by left.
  - rewrite process_circuits_loop_cons.
    destruct (process_circuit_body _ _ _ _ _ _ σ) as [[h|] σ1] eqn:Hbody;
      [|done].
    cbn. intros [= <- <-]. right. by exists h, n.
Qed.

(** [_check_batchable] returning, outside debug mode: the descriptor is
    cached afterwards and declares batching. *)
Lemma check_batchable_ok σ σ0 :
  _MACHINE_DEBUG σ = false →
  _check_batchable api σ = (Ok tt, σ0) →
  ∃ bi calls,
    _backend_info σ0 = Some bi ∧ _MACHINE_DEBUG σ0 = false ∧
    truthy (misc_get bi "batching" (JBool false)) = true ∧
    api_log σ0 = (api_log σ ++ calls)%list ∧ listing_calls calls.
Proof.
  intros Hd. unfold _check_batchable. unfold bind at 1.
  destruct (backend_info api σ) as [r σ1] eqn:Hinfo.
  pose proof (backend_info_log _ _ _ Hinfo) as (calls & Hlog & Hcalls & _).
  apply backend_info_inv in Hinfo as [Hd1 Hinfo]. rewrite Hd in Hd1.
  destruct r as [[bi|]|e]; [| |done].
  - unfold bind. rewrite (backend_info_cached api σ1 bi) by done.
    destruct (negb _) eqn:Ht; [done|]. intros [= <-].
    exists bi, calls. by apply negb_false_iff in Ht.
  - destruct Hinfo as [_ [Hdm _]]. congruence.
Qed.

(** C8. When [start_batch] returns a handle, outside debug mode the calls
    it made on the API handler are: the look-up of the descriptor (if it
    was not cached), then one submission, whose body has the cost ceiling
    under [batch-exec] and whose response gives the job id of the handle,
    then one status query on that job id, and nothing else. A later
    [add_to_batch] naming the handle submits, after that query, a body with
    the job id under [batch-exec] (and [batch-end] set when asked). In
    debug mode the one call is the status query. *)
Theorem start_batch_polls_once σ cost circuit ns valid_check kwargs
    (h1 : ResultHandle) σ' :
  start_batch host api cost circuit ns valid_check kwargs σ = (Ok h1, σ') →
  let poll := RetrieveJobStatus h1.1 (default true (kw_use_websocket kwargs)) in
  (_MACHINE_DEBUG σ = false →
     ∃ calls body res,
       api_log σ' = (api_log σ ++ calls ++ [SubmitJob body; poll])%list ∧
       listing_calls calls ∧
       body !! "batch-exec" = Some (JInt cost) ∧
       _submit_job api (api_log σ ++ calls)%list body = Ok res ∧
       submitted_handle api res = Ok (h1.1, "null") ∧
       ∀ circ2 ns2 batch_end valid2 kw2 (h2 : ResultHandle) σ'',
         add_to_batch host api h1 circ2 ns2 batch_end valid2 kw2 σ'
           = (Ok h2, σ'') →
         ∃ body2,
           api_log σ'' = (api_log σ' ++ [SubmitJob body2])%list ∧
           body2 !! "batch-exec" = Some (JStr h1.1) ∧
           (batch_end = true → body2 !! "batch-end" = Some (JBool true))) ∧
  (debug_mode σ → api_log σ' = (api_log σ ++ [poll])%list).
Proof.
  intros Hstart poll. split.
  - intros Hd. revert Hstart. unfold start_batch. unfold bind at 1.
    destruct (_check_batchable api σ) as [[[]|] σ0] eqn:Hcheck; [|done].
    destruct (check_batchable_ok _ _ Hd Hcheck)
      as (bi & calls & Hbi & Hd0 & Hbatch & Hlog & Hcalls).
    unfold bind at 1.
    destruct (process_circuits _ _ _ _ _ _ σ0) as [[hs|] σ1] eqn:Hproc;
      [|done].
    destruct (process_circuits_one_cached _ _ _ _ _ _ _ _ Hbi Hd0 Hproc)
      as [[-> ->]|(h & n & -> & Hbody)]; [done|].
    destruct (process_circuit_body_submits _ _ _ _ _ _ _ _ Hbi Hd0 Hbody)
      as (body & res & -> & Hro & Hres & Hsub).
    unfold_m. cbn.
    destruct (retrieve_job_status api _ _ _); [|done].
    intros [= -> <-]. exists calls, body, res. split; [|split; [|split]].
    + cbn. rewrite Hlog. by rewrite <- !(assoc_L (++)).
    + done.
    + apply Hro. cbn. apply lookup_singleton_eq.
    + rewrite <- Hlog. split; [done|]. split; [done|].
      intros circ2 ns2 batch_end valid2 kw2 h2 σ''.
      set (σ1 := log_call _ (set_cache _ _)).
      assert (_backend_info σ1 = Some bi) as Hbi1 by done.
      assert (_MACHINE_DEBUG σ1 = false) as Hd1 by done.
      unfold add_to_batch. unfold bind at 1.
      assert (_check_batchable api σ1 = (Ok tt, σ1)) as ->.
      { unfold _check_batchable. unfold bind.
        rewrite !(backend_info_cached api σ1 bi) by done. by rewrite Hbatch. }
      unfold bind at 1.
      destruct (process_circuits _ _ _ _ _ _ σ1) as [[hs|] σ2] eqn:Hproc2;
        [|done].
      destruct (process_circuits_one_cached _ _ _ _ _ _ _ _ Hbi1 Hd1 Hproc2)
        as [[-> ->]|(h' & n' & -> & Hbody2)]; [done|].
      destruct (process_circuit_body_submits _ _ _ _ _ _ _ _ Hbi1 Hd1 Hbody2)
        as (body2 & res2 & -> & Hro2 & _ & _).
      unfold ret. intros [= <- <-]. exists body2. split; [done|]. split.
      * apply Hro2. cbn. destruct batch_end.
        -- rewrite lookup_insert_ne by done. apply lookup_singleton_eq.
        -- apply lookup_singleton_eq.
      * intros ->. apply Hro2. cbn. apply lookup_insert_eq.
  - intros Hdm. revert Hstart. unfold start_batch. unfold bind at 1.
    rewrite (check_batchable_debug_mode api) by done.
    unfold bind at 1. rewrite (process_circuits_debug host api) by done.
    destruct (debug_handles _ _ _ _ _) as [[|h [|h' hs]]|]; try done.
    unfold_m. cbn.
    destruct (retrieve_job_status api _ _ _); [|done].
    by intros [= -> <-].
Qed.

End batch.

(** * The theorems on sample inputs *)

Section samples.

Lemma two_registers_well_formed :
  well_formed two_registers 2 two_registers_width.
Proof.
  intros name l Hl. unfold two_registers in Hl.
  apply lookup_insert_Some in Hl as [[<- <-]|[_ Hl]];
    [|apply lookup_insert_Some in Hl as [[<- <-]|[_ Hl]];
      [|by rewrite lookup_empty in Hl]].
  all: split; [done|].
  all: repeat (apply Forall_cons; split; [split; [done|]|]);
    try apply Forall_nil_2.
  all: unfold bit_string; cbn;
    repeat (apply Forall_cons; split; [by (left + right)|]);
    apply Forall_nil_2.
Qed.

Lemma convert_result_column_order_witness :
  well_formed two_registers 2 two_registers_width ∧
  ∃ r, _convert_result two_registers None = Ok r ∧
       c_bits r = [ {| reg_name := "b"; index := 2 |};
                    {| reg_name := "b"; index := 1 |};
                    {| reg_name := "b"; index := 0 |};
                    {| reg_name := "a"; index := 1 |};
                    {| reg_name := "a"; index := 0 |} ] ∧
       length (shots r) = 2 ∧
       Forall (λ row, length row = 5) (shots r).
Proof.
  split; [exact two_registers_well_formed|].
  refine (proj2 (proj2 (proj2 (convert_result_column_order two_registers 2
            two_registers_width None two_registers_well_formed)))
            ["01"; "10"] ["110"; "001"] eq_refl eq_refl eq_refl _).
  apply Nat.lt_0_succ.
Defined.

Lemma sample_host_foreign : host_foreign sample_host.
Proof.
  split.
  - by intros c e.
  - intros s e. cbn. by destruct (String.eqb s "null").
  - intros ns n e. cbn. destruct ns as [|k|l]; cbn.
    + by intros [= <-].
    + destruct (0 <? k)%Z; [done|by intros [= <-]].
    + destruct (mapM id l); [|by intros [= <-]].
      destruct (_ && _); [done|by intros [= <-]].
Qed.

Lemma sample_api_foreign : api_foreign sample_api.
Proof.
  split; try by intros; intros e.
  intros log jobid ws e. cbn.
  destruct (existsb is_login log); [done|by intros [= <-]].
Qed.

Lemma circuit_status_debug_handle_witness :
  circuit_status sample_host sample_api debug_sample_handle no_kwargs
    sample_backend
  = (Ok {| status := COMPLETED; message := "" |}, sample_backend) ∧
  api_log (circuit_status sample_host sample_api debug_sample_handle
             no_kwargs sample_backend).2 = [].
Proof.
  apply (circuit_status_debug_handle sample_host sample_api sample_backend
           debug_sample_handle no_kwargs).
  right. by exists "(2, 10)".
Defined.

Lemma circuit_status_reauthenticates_witness :
  retrieve_job_status sample_api [] "job-1" true = Raise QuantinuumAPIError ∧
  api_log (circuit_status sample_host sample_api sample_handle no_kwargs
             sample_backend).2
  = [ RetrieveJobStatus "job-1" true; Login; RetrieveJobStatus "job-1" true ].
Proof.
  split; [reflexivity|].
  exact (proj1 (proj1 (circuit_status_reauthenticates sample_host sample_api
                         sample_backend sample_handle no_kwargs
                         eq_refl eq_refl) "token" eq_refl)).
Defined.

Lemma sample_backend_uncached (handle : ResultHandle) :
  ∀ res, _cache sample_backend !! handle ≠ Some (Some res).
Proof. intros res. unfold sample_backend, new_backend. cbn. by rewrite lookup_empty. Qed.

Lemma debug_backend_uncached (handle : ResultHandle) :
  ∀ res, _cache debug_backend !! handle ≠ Some (Some res).
Proof. intros res. unfold debug_backend, new_backend. cbn. by rewrite lookup_empty. Qed.

Lemma debug_result_zero_table_witness :
  debug_mode debug_backend ∧
  ∃ r, get_result sample_host sample_api ("_MACHINE_DEBUG_(1, 3)", "null")
         no_kwargs debug_backend = (Ok r, debug_backend) ∧
       shots r = [[0%N]; [0%N]; [0%N]] ∧
       n_bits one_qubit_two_bits = 2.
Proof.
  split; [by split|].
  destruct (proj1 (proj2 (debug_result_zero_table sample_host sample_api
              debug_backend
              [one_qubit_two_bits] (IntShots 3) true no_kwargs [3%Z]
              [("_MACHINE_DEBUG_(1, 3)", "null")]
              (conj eq_refl eq_refl) eq_refl eq_refl)
            0 ("_MACHINE_DEBUG_(1, 3)", "null") one_qubit_two_bits 3%Z None
            no_kwargs eq_refl eq_refl eq_refl
            (debug_backend_uncached _) eq_refl) eq_refl)
    as (r & Hget & Hshots & _).
  exists r. split; [exact Hget|]. split; [exact Hshots|reflexivity].
Defined.

Lemma get_result_failed_iff_witness :
  jd_status completed_job = Some "completed" ∧
  _STATUS_MAP !! "completed" = Some COMPLETED ∧
  (get_result sample_host sample_api sample_handle no_kwargs sample_backend).1
    = Ok {| c_bits := [ {| reg_name := "c"; index := 1 |};
                        {| reg_name := "c"; index := 0 |} ];
            shots := [[0%N; 1%N]; [1%N; 1%N]];
            ppcirc := None |}.
Proof.
  split; [reflexivity|]. split; [reflexivity|].
  refine (proj1 (proj1 (proj2 (proj2 (get_result_failed_iff sample_host
            sample_api sample_backend sample_handle no_kwargs None
            completed_job "completed" COMPLETED
            eq_refl (sample_backend_uncached _) eq_refl eq_refl eq_refl
            eq_refl))
            {[ "c" := ["01"; "11"] ]} (or_introl eq_refl) eq_refl) _ _)).
  by vm_compute.
Defined.

(** C3 (as stated): a completed job with [results] may have a payload
    that the decoder refuses. The record of a completed job whose
    [results] has no register is neither failing nor decoded: fetching its
    result raises [ValueError]. *)
Lemma get_result_neither_failed_nor_cached :
  ¬ fails_or_caches sample_host empty_results_api sample_backend.
Proof.
  intros Hclaim.
  destruct (Hclaim sample_handle no_kwargs empty_results_job "completed"
              COMPLETED eq_refl (sample_backend_uncached _) eq_refl eq_refl
              eq_refl eq_refl) as [_ Hret].
  destruct Hret as (backres & Hout & _).
  - intros [[Hc _]|Hnone]; [by apply Hc|done].
  - by vm_compute in Hout.
Qed.

Lemma parse_status_unknown_raises_witness :
  jd_status paused_job = Some "paused" ∧
  _parse_status sample_host paused_job = Raise (KeyError "paused").
Proof.
  split; [reflexivity|].
  refine (proj1 (proj2 (proj2 (parse_status_unknown_raises sample_host
            sample_api sample_backend sample_handle no_kwargs paused_job
            "paused" eq_refl)) _)).
  rewrite !elem_of_cons, elem_of_nil. by intros [|[|[|[|[|[|]]]]]].
Defined.

Lemma check_batchable_without_descriptor_witness :
  debug_mode debug_backend ∧
  _check_batchable sample_api debug_backend = (Ok tt, debug_backend) ∧
  (start_batch sample_host sample_api 500 one_qubit_two_bits (IntShots 10)
     true no_kwargs debug_backend).1 ≠ Raise BatchingUnsupported.
Proof.
  split; [by split|]. split.
  - exact (proj1 (check_batchable_without_descriptor sample_host sample_api
                    debug_backend) (conj eq_refl eq_refl)).
  - exact (proj1 (proj1 (proj2 (check_batchable_without_descriptor sample_host
                    sample_api debug_backend)) (conj eq_refl eq_refl)
                    sample_host_foreign sample_api_foreign 500%Z sample_handle
                    one_qubit_two_bits (IntShots 10) false true no_kwargs)).
Defined.

Lemma max_shots_exceeded_before_submission_witness :
  (10 < 11)%Z ∧
  process_circuits_loop sample_host sample_api no_kwargs (JInt 10)
    [(one_qubit_two_bits, 11%Z)] sample_backend
  = (Raise MaxShotsExceeded, sample_backend).
Proof.
  split; [reflexivity|].
  exact (proj1 (max_shots_exceeded_before_submission sample_host sample_api
                  sample_backend no_kwargs 10 one_qubit_two_bits 11 []
                  eq_refl)).
Defined.

Lemma started_batch_returns :
  started_batch = (Ok sample_handle, started_batch.2).
Proof. by vm_compute. Qed.

Lemma start_batch_polls_once_witness :
  started_batch.1 = Ok sample_handle ∧
  ∃ calls body,
    api_log started_batch.2
    = (calls ++ [SubmitJob body; RetrieveJobStatus "job-1" true])%list ∧
    listing_calls calls ∧
    body !! "batch-exec" = Some (JInt 500).
Proof.
  split; [by vm_compute|].
  destruct (proj1 (start_batch_polls_once sample_host sample_api
              sample_backend 500 one_qubit_two_bits (IntShots 10) true
              no_kwargs sample_handle started_batch.2 started_batch_returns)
            eq_refl)
    as (calls & body & res & Hlog & Hcalls & Hbatch & _).
  exists calls, body. split; [exact Hlog|]. split; [exact Hcalls|exact Hbatch].
Defined.

End samples.

(** * Further properties *)

Section decoder_domain.

Lemma uint8_row_is_Some s : is_Some (Numpy.uint8_row s) ↔ digit_string s.
Proof.
  unfold Numpy.uint8_row, digit_string.
  induction (list_ascii_of_string s) as [|c l IH].
  - split; [constructor|by eexists].
  - cbn [mapM]. rewrite Forall_cons, <- IH.
    unfold Numpy.uint8_of_char, digit_char.
    rewrite !is_Some_alt.
    destruct (N.leb_spec 48 (N_of_ascii c)), (N.leb_spec (N_of_ascii c) 57);
      cbn; try (split; [done|lia]).
    destruct (mapM _ l); cbn; tauto.
Qed.

Lemma mapM_uint8_rows l :
  is_Some (mapM Numpy.uint8_row l) ↔ Forall digit_string l.
Proof.
  induction l as [|s l IH]; [split; [constructor|by eexists]|].
  cbn [mapM]. rewrite Forall_cons, <- IH, <- uint8_row_is_Some.
  rewrite !is_Some_alt. destruct (Numpy.uint8_row s); cbn.
  - destruct (mapM _ l); cbn; tauto.
  - tauto.
Qed.

Lemma length_mapM_Some {A B} (f : A → option B) l k :
  mapM f l = Some k → length k = length l.
Proof.
  revert k. induction l as [|x l IH]; intros k; cbn; [by intros [= <-]|].
  destruct (f x); [|done]. cbn. destruct (mapM f l) as [k0|]; [|done].
  cbn. intros [= <-]. cbn. by rewrite (IH k0).
Qed.

(** [np.array] on a register's strings. *)
Lemma array_ok_iff l :
  is_ok (Numpy.array l) = true ↔
  ∃ w, Forall (λ s, String.length s = w ∧ digit_string s) l.
Proof.
  unfold Numpy.array. destruct l as [|a0 l0]; [split; [by exists 0|done]|].
  set (l := a0 :: l0).
  destruct (forallb _ l) eqn:Hlen.
  - rewrite forallb_forall in Hlen.
    destruct (mapM Numpy.uint8_row l) as [rs|] eqn:Hrs; cbn.
    + split; [intros _|done]. exists (String.length a0).
      assert (Forall digit_string l) as Hd
        by (apply mapM_uint8_rows; by rewrite Hrs).
      rewrite Forall_forall in Hd |- *. intros s Hs. split; [|auto].
      by apply Nat.eqb_eq, Hlen, list_elem_of_In.
    + split; [done|]. intros [w Hw].
      assert (is_Some (mapM Numpy.uint8_row l)) as [? ?]; [|congruence].
      apply mapM_uint8_rows. eapply Forall_impl; [apply Hw|]. by intros ? [_ ?].
  - split; [done|]. intros [w Hw]. rewrite Forall_forall in Hw.
    assert (forallb (λ a, Nat.eqb (String.length a) (String.length a0)) l = true)
      as Habs; [|congruence].
    apply forallb_forall. intros s Hs%list_elem_of_In. apply Nat.eqb_eq.
    destruct (Hw s Hs) as [-> _]. destruct (Hw a0) as [-> _]; [|done].
    apply list_elem_of_here.
Qed.

Lemma array_rows l a : Numpy.array l = Ok a → length (Numpy.rows a) = length l.
Proof.
  unfold Numpy.array. destruct l as [|a0 l0]; [by intros [= <-]|].
  destruct (forallb _ _); [|done].
  destruct (mapM _ _) as [rs|] eqn:Hrs; [|done]. intros [= <-]. cbn.
  by apply length_mapM_Some in Hrs.
Qed.

Lemma result_mapM_is_ok {A B} (f : A → Result B) l :
  is_ok (result_mapM f l) = true ↔ Forall (λ x, is_ok (f x) = true) l.
Proof.
  induction l as [|x l IH]; [split; [constructor|done]|].
  cbn. rewrite Forall_cons, <- IH.
  destruct (f x); cbn; [|split; [done|by intros [? _]]].
  destruct (result_mapM f l); cbn; split; try done. by intros [_ ?].
Qed.

Lemma result_mapM_length {A B} (f : A → Result B) l k :
  result_mapM f l = Ok k → length k = length l.
Proof.
  revert k. induction l as [|x l IH]; intros k; cbn; [by intros [= <-]|].
  destruct (f x); cbn; [|done].
  destruct (result_mapM f l) as [k0|]; cbn; [|done].
  intros [= <-]. cbn. f_equal. by apply IH.
Qed.

(** What a comprehension that returns has built. *)
Lemma dict_comprehension_lookup {A B} (f : A → Result B) (m : gmap string A) d :
  dict_comprehension f m = Ok d →
  ∀ k, match m !! k with
       | Some a => ∃ b, f a = Ok b ∧ d !! k = Some b
       | None => d !! k = None
       end.
Proof.
  unfold dict_comprehension.
  destruct (result_mapM _ _) as [items|] eqn:Hitems; [|done].
  cbn. intros [= <-] k.
  assert (Hfst : items.*1 = (map_to_list m).*1).
  { apply list_eq. intros i. rewrite !list_lookup_fmap.
    destruct (items !! i) as [[k' b]|] eqn:Hi; cbn.
    - destruct (result_mapM_lookup _ _ _ _ _ Hitems Hi) as ([k0 a] & -> & Hx).
      cbn in *. destruct (f a); [|done]. cbn in Hx. by simplify_eq.
    - apply lookup_ge_None in Hi.
      apply result_mapM_length in Hitems.
      rewrite lookup_ge_None_2; [done|lia]. }
  destruct (m !! k) as [a|] eqn:Hk.
  - apply elem_of_map_to_list, list_elem_of_lookup in Hk as [i Hi].
    destruct (lookup_lt_is_Some_2 items i) as [[k' b] Hb].
    { rewrite <- (length_fmap fst), Hfst, length_fmap.
      by eapply lookup_lt_Some. }
    destruct (result_mapM_lookup _ _ _ _ _ Hitems Hb) as ([k0 a0] & Hi' & Hx).
    rewrite Hi in Hi'. injection Hi' as <- <-. cbn in Hx.
    destruct (f a) as [b0|]; [|done]. cbn in Hx. injection Hx as <- <-.
    exists b0. split; [done|]. apply elem_of_list_to_map.
    + rewrite Hfst. apply NoDup_fst_map_to_list.
    + by eapply list_elem_of_lookup_2.
  - apply not_elem_of_list_to_map. rewrite Hfst.
    intros ([k0 a] & -> & Hin%elem_of_map_to_list)%list_elem_of_fmap.
    cbn in Hk. congruence.
Qed.

Lemma dict_comprehension_is_ok {A B} (f : A → Result B) (m : gmap string A) :
  is_ok (dict_comprehension f m) = true ↔
  map_Forall (λ _ a, is_ok (f a) = true) m.
Proof.
  unfold dict_comprehension.
  assert (is_ok (rbind (result_mapM (λ kv, rbind (f kv.2) (λ b, Ok (kv.1, b)))
                          (map_to_list m))
                   (λ items, Ok (list_to_map (M := gmap string B) items))) =
          is_ok (result_mapM (λ kv, rbind (f kv.2) (λ b, Ok (kv.1, b)))
                   (map_to_list m))) as ->
    by (by destruct (result_mapM _ _)).
  rewrite result_mapM_is_ok, Forall_forall. split.
  - intros H k a Hka. apply elem_of_map_to_list in Hka.
    specialize (H _ Hka). cbn in H. by destruct (f a).
  - intros H [k a] Hka%elem_of_map_to_list. cbn.
    specialize (H k a Hka). cbn in H. by destruct (f a).
Qed.

Lemma hstack_is_ok arrs :
  is_ok (Numpy.hstack arrs) = true ↔
  arrs ≠ [] ∧ ∃ n, Forall (λ a, length (Numpy.rows a) = n) arrs.
Proof.
  unfold Numpy.hstack. destruct arrs as [|a0 arrs0]; [by split; [|intros [? _]]|].
  set (arrs := a0 :: arrs0).
  destruct (forallb _ arrs) eqn:Hall; cbn.
  - split; [intros _|done]. split; [done|]. exists (length (Numpy.rows a0)).
    rewrite forallb_forall in Hall. apply Forall_forall.
    intros a Ha%list_elem_of_In. by apply Nat.eqb_eq, Hall.
  - split; [done|]. intros [_ [n Hn]]. rewrite Forall_forall in Hn.
    assert (forallb (λ a, Nat.eqb (length (Numpy.rows a))
                            (length (Numpy.rows a0))) arrs = true) as Habs;
      [|congruence].
    apply forallb_forall. intros a Ha%list_elem_of_In. apply Nat.eqb_eq.
    rewrite (Hn a Ha). symmetry. apply Hn, list_elem_of_here.
Qed.

End decoder_domain.

Section decoder_accepts.

(** Joining the arrays and packing the readouts succeeds when there is an
    array and the arrays have one number of rows, which is not zero. *)
Lemma hstack_readouts_is_ok (arrs : list Numpy.ndarray)
    (F : list (list N) → BackendResult) :
  is_ok (rbind (Numpy.hstack arrs) (λ stacked_array,
           rbind (OutcomeArray.from_readouts stacked_array) (λ shots,
             Ok (F shots)))) = true ↔
  arrs ≠ [] ∧ ∃ n, 0 < n ∧ Forall (λ a, length (Numpy.rows a) = n) arrs.
Proof.
  split.
  - intros Hok.
    assert (is_ok (Numpy.hstack arrs) = true) as Hst
      by (by destruct (Numpy.hstack arrs)).
    apply hstack_is_ok in Hst as [Hne [n Hn]]. split; [done|].
    exists n. split; [|done]. rewrite (hstack_rows arrs n) in Hok by done.
    destruct n; [done|lia].
  - intros (Hne & n & Hpos & Hn). rewrite (hstack_rows arrs n) by done.
    by destruct n; [lia|].
Qed.

Lemma from_readouts_bits readouts table :
  OutcomeArray.from_readouts readouts = Ok table →
  Forall (Forall (λ x, x = 0%N ∨ x = 1%N)) table.
Proof.
  assert (Hrow : ∀ row : list N,
    Forall (λ x, x = 0%N ∨ x = 1%N) (OutcomeArray.packbit <$> row)).
  { induction row as [|x row IH]; constructor; [|done].
    unfold OutcomeArray.packbit. destruct (N.eqb x 0); auto. }
  assert (Hrows : ∀ rows : list (list N),
    Forall (Forall (λ x, x = 0%N ∨ x = 1%N))
      (fmap (M := list) (fmap (M := list) OutcomeArray.packbit) rows)).
  { induction rows as [|row rows IH]; constructor; [apply Hrow|done]. }
  unfold OutcomeArray.from_readouts. destruct readouts as [|row rows]; [done|].
  intros H. injection H as H. rewrite <- H. apply (Hrows (row :: rows)).
Qed.

Lemma convert_result_is_ok m pp :
  is_ok (_convert_result m pp) = true ↔ decodable m.
Proof.
  unfold _convert_result.
  destruct (dict_comprehension Numpy.array m) as [d|e] eqn:Hd; cbn [rbind].
  - pose proof (dict_comprehension_lookup _ _ _ Hd) as Hlook.
    set (names := sorted_reverse (map_to_list d).*1).
    set (arrs := omap (λ name, d !! name) names).
    cbn zeta. fold names. fold arrs.
    rewrite (hstack_readouts_is_ok arrs (λ shots,
      {| c_bits := name ← names;
           ind ← range_down (default 0 (Numpy.last_dim <$> d !! name));
           [ {| reg_name := name; index := ind |} ];
         shots := shots; ppcirc := pp |})).
    assert (Harr : ∀ a, a ∈ arrs ↔ ∃ name l, m !! name = Some l ∧
                          Numpy.array l = Ok a).
    { intros a. unfold arrs. rewrite list_elem_of_omap. split.
      - intros (name & _ & Ha). specialize (Hlook name).
        destruct (m !! name) as [l|] eqn:Hl; [|congruence].
        destruct Hlook as (b & Hb & Hdb). exists name, l.
        split; [done|]. congruence.
      - intros (name & l & Hl & Ha). exists name. specialize (Hlook name).
        rewrite Hl in Hlook. destruct Hlook as (b & Hb & Hdb).
        split; [|congruence]. apply elem_of_sorted_keys. eauto. }
    assert (Hall : ∀ name l, m !! name = Some l →
              ∃ w, Forall (λ s, String.length s = w ∧ digit_string s) l).
    { intros name l Hl. apply array_ok_iff. specialize (Hlook name).
      rewrite Hl in Hlook. destruct Hlook as (b & -> & _). done. }
    split.
    + intros (Hne & n & Hpos & Hn). rewrite Forall_forall in Hn.
      split; [|split; [|done]].
      * intros ->. destruct Hne. apply (fmap_nil_inv id).
        apply list_eq. intros i. rewrite list_lookup_fmap.
        destruct (arrs !! i) as [a|] eqn:Ha; [|done].
        apply list_elem_of_lookup_2, Harr in Ha as (name & l & Hl & _).
        by rewrite lookup_empty in Hl.
      * exists n. split; [done|]. intros name l Hl. specialize (Hlook name).
        rewrite Hl in Hlook. destruct Hlook as (b & Hb & Hdb).
        rewrite <- (array_rows l b Hb). apply Hn, Harr. eauto.
    + intros (Hne & (n & Hpos & Hn) & _). split.
      * intros Hnil. apply Hne, map_empty. intros name.
        destruct (m !! name) as [l|] eqn:Hl; [|done].
        specialize (Hlook name). rewrite Hl in Hlook.
        destruct Hlook as (b & Hb & Hdb).
        assert (b ∈ arrs) as Hin by (apply Harr; eauto).
        rewrite Hnil in Hin. by apply elem_of_nil in Hin.
      * exists n. split; [done|].
        apply Forall_forall. intros a (name & l & Hl & Ha)%Harr.
        rewrite (array_rows l a Ha). eauto.
  - cbn. split; [done|]. intros (_ & _ & Hall).
    assert (is_ok (dict_comprehension Numpy.array m) = true) as Habs;
      [|by rewrite Hd in Habs].
    apply dict_comprehension_is_ok. intros name l Hl. cbn.
    apply array_ok_iff. eauto.
Qed.

(** X1. The decoder returns a shot table exactly on the payloads that have
    at least one register, the same number of shots in every register, at
    least one shot and, within a register, strings of one length made of
    decimal digits; on every other payload, also one without shots, it
    raises [ValueError]. The entries of the table are bits: a digit other
    than 0 is read as 1. The post-processing circuit is handed through
    unchanged. *)
Theorem convert_result_accepts m pp :
  (decodable m →
     ∃ r, _convert_result m pp = Ok r ∧ ppcirc r = pp ∧
          Forall (Forall (λ x, x = 0%N ∨ x = 1%N)) (shots r)) ∧
  (¬ decodable m → _convert_result m pp = Raise ValueError) ∧
  (∀ name, m !! name = Some [] → _convert_result m pp = Raise ValueError).
Proof.
  pose proof (convert_result_is_ok m pp) as Hiff.
  assert (Hnot : ¬ decodable m → _convert_result m pp = Raise ValueError).
  { intros Hn. destruct (_convert_result m pp) as [r|e] eqn:Hr; cbn in Hiff.
    - destruct Hn. by apply Hiff.
    - f_equal. by apply (convert_result_raises m pp). }
  split; [|split; [done|]].
  - intros Hd%Hiff. destruct (_convert_result m pp) as [r|e] eqn:Hr; [|done].
    exists r. split; [done|]. unfold _convert_result in Hr.
    destruct (dict_comprehension _ _); [|done]. cbn in Hr.
    destruct (Numpy.hstack _); [|done]. cbn in Hr.
    destruct (OutcomeArray.from_readouts _) as [table|] eqn:Htable; [|done].
    cbn in Hr. injection Hr as <-. cbn. split; [done|].
    by eapply from_readouts_bits.
  - intros name Hname. apply Hnot. intros (_ & (n & Hpos & Hn) & _).
    specialize (Hn name [] Hname). cbn in Hn. lia.
Qed.

End decoder_accepts.

Section bit_lookup.

(** Two tables built block by block over the same list, with blocks of the
    same lengths: an entry of the first lies in some block, and the entry
    at its position in the second lies at the same place of that block. *)
Lemma bind_lookup_blocks {A B C} (f : A → list B) (g : A → list C) l j x :
  Forall (λ a, length (f a) = length (g a)) l →
  (l ≫= f) !! j = Some x →
  ∃ a t, a ∈ l ∧ f a !! t = Some x ∧ (l ≫= g) !! j = g a !! t.
Proof.
  intros Hall. revert j. induction Hall as [|a l Ha _ IH]; intros j; [done|].
  cbn. intros [Hj|[Hge Hj]]%lookup_app_Some.
  - exists a, j. split; [apply list_elem_of_here|]. split; [done|].
    apply lookup_app_l. rewrite <- Ha. by eapply lookup_lt_Some.
  - destruct (IH _ Hj) as (a' & t & Hin & Hf & Hg).
    exists a', t. split; [by apply list_elem_of_further|]. split; [done|].
    rewrite lookup_app_r by lia. by rewrite <- Ha.
Qed.

Lemma range_down_lookup w t k :
  range_down w !! t = Some k ↔ t < w ∧ k = w - 1 - t.
Proof.
  unfold range_down. rewrite rev_alt. change (rev_append ?l []) with (reverse l).
  destruct (decide (t < w)) as [Ht|Ht].
  - rewrite reverse_lookup by (by rewrite length_seq).
    rewrite length_seq, lookup_seq. split; [intros [-> _]|intros [_ ->]]; lia.
  - split; [|lia]. intros Hk%lookup_lt_Some.
    rewrite length_reverse, length_seq in Hk. lia.
Qed.

Lemma msb_first_lookup name w t b :
  msb_first name w !! t = Some b ↔
  t < w ∧ b = {| reg_name := name; index := w - 1 - t |}.
Proof.
  unfold msb_first. rewrite list_lookup_fmap, fmap_Some. split.
  - intros (k & [? ->]%range_down_lookup & ->). done.
  - intros [Ht ->]. exists (w - 1 - t). by rewrite range_down_lookup.
Qed.

Lemma NoDup_msb_first name w : NoDup (msb_first name w).
Proof.
  apply NoDup_alt. intros i j b [Hi ->]%msb_first_lookup [Hj [=]]%msb_first_lookup.
  lia.
Qed.

(** X2. On a payload of bit-strings, the decoded table reads every
    register's string most significant bit first: the column labelled with
    bit [k] of register [name] holds, in the row of shot [i], the character
    at position [width - 1 - k] of that register's [i]-th string. Every bit
    of every register has one column, and no two columns have one label. *)
Theorem convert_result_msb_first m n w pp r :
  well_formed m n w → 0 < n → _convert_result m pp = Ok r →
  NoDup (c_bits r) ∧
  (∀ name l k, m !! name = Some l → k < w name →
     {| reg_name := name; index := k |} ∈ c_bits r) ∧
  ∀ i row j name k,
    shots r !! i = Some row →
    c_bits r !! j = Some {| reg_name := name; index := k |} →
    ∃ l s, m !! name = Some l ∧ l !! i = Some s ∧ k < w name ∧
           row !! j = bits_of s !! (w name - 1 - k).
Proof.
  intros Hwf Hn Hr. rewrite (convert_result_well_formed m n w pp Hwf) in Hr.
  cbn zeta in Hr. set (names := sorted_reverse _) in Hr.
  destruct (decide (m = ∅)); [done|].
  destruct n as [|n'] eqn:Hn'; [lia|]. rewrite <- Hn' in *.
  injection Hr as <-. cbn [c_bits shots].
  assert (Hkeys : ∀ name, name ∈ names ↔ is_Some (m !! name)).
  { intros name. unfold names. rewrite elem_of_sorted_keys, lookup_fmap.
    by rewrite fmap_is_Some. }
  split; [|split].
  - apply NoDup_bind.
    + intros x1 x2 b _ _ [t1 [_ ->]%msb_first_lookup]%list_elem_of_lookup
        [t2 [_ [=]]%msb_first_lookup]%list_elem_of_lookup. done.
    + intros name _. apply NoDup_msb_first.
    + unfold names. rewrite sorted_reverse_perm. apply NoDup_fst_map_to_list.
  - intros name l k Hl Hk. apply list_elem_of_bind. exists name.
    split; [|apply Hkeys; eauto].
    apply list_elem_of_lookup. exists (w name - 1 - k).
    apply msb_first_lookup. split; [lia|]. f_equal. lia.
  - intros i row j name k Hi Hj. rewrite list_lookup_fmap in Hi.
    destruct (seq 0 n !! i) as [i'|] eqn:Hi'; [|done].
    apply lookup_seq in Hi' as [-> Hlt]. cbn in Hi. injection Hi as <-.
    cbn [compose].
    destruct (bind_lookup_blocks (λ name, msb_first name (w name))
                (λ name, shot_bits m name i) names j
                {| reg_name := name; index := k |}) as
      (a & t & Hin & Hf & Hg); [|exact Hj|].
    { apply Forall_forall. intros name' Hname'%Hkeys.
      rewrite length_msb_first. symmetry.
      by apply (length_shot_bits m n w). }
    apply msb_first_lookup in Hf as [Ht [= Hname Hk]]. subst a k.
    apply Hkeys in Hin as [l Hl]. destruct (Hwf name l Hl) as [Hlen Hall].
    destruct (lookup_lt_is_Some_2 l i) as [s Hs]; [lia|].
    exists l, s. split; [done|]. split; [done|]. split; [lia|].
    rewrite Hg. unfold shot_bits. rewrite Hl. cbn. rewrite Hs.
    f_equal. lia.
Qed.

End bit_lookup.

Section decoder_samples.

Lemma two_registers_decoded :
  _convert_result two_registers None = Ok two_registers_result.
Proof. by vm_compute. Qed.

Lemma convert_result_msb_first_witness :
  well_formed two_registers 2 two_registers_width ∧
  _convert_result two_registers None = Ok two_registers_result ∧
  NoDup (c_bits two_registers_result) ∧
  (∀ name l k, two_registers !! name = Some l → k < two_registers_width name →
     {| reg_name := name; index := k |} ∈ c_bits two_registers_result) ∧
  ∀ i row j name k,
    shots two_registers_result !! i = Some row →
    c_bits two_registers_result !! j = Some {| reg_name := name; index := k |} →
    ∃ l s, two_registers !! name = Some l ∧ l !! i = Some s ∧
           k < two_registers_width name ∧
           row !! j = bits_of s !! (two_registers_width name - 1 - k).
Proof.
  split; [exact two_registers_well_formed|].
  split; [exact two_registers_decoded|].
  exact (convert_result_msb_first two_registers 2 two_registers_width None
           two_registers_result two_registers_well_formed (Nat.lt_0_succ 1)
           two_registers_decoded).
Defined.

End decoder_samples.

Section scratch_registers.

Context (_TEMP_BIT_NAME : string).

Lemma str_int_inj a b : str_int a = str_int b → a = b.
Proof.
  intros H. apply (f_equal int_literal) in H.
  rewrite !int_literal_str in H. by injection H.
Qed.

Lemma append_inv_head (p a b : string) : p ++ a = p ++ b → a = b.
Proof.
  induction p as [|c p IH]; [done|]. rewrite !append_cons. intros [= H]. auto.
Qed.

Lemma existsb_filter_length {A} (f : A → bool) (l : list A) :
  existsb f l = negb (Nat.eqb (length (List.filter f l)) 0).
Proof. induction l as [|a l IH]; [done|]. cbn. by destruct (f a). Qed.

(** The renaming, when the width is positive. *)
Lemma resized_bits_map max_size (l : list Bit) :
  (0 < max_size)%Z →
  result_mapM (λ ib : nat * Bit,
                 rbind (resized_bit _TEMP_BIT_NAME max_size ib.1)
                   (λ new, Ok (ib.2, new)))
    (imap pair l)
  = Ok (imap (λ i bit,
          (bit, (_TEMP_BIT_NAME ++ "_" ++ str_int (Z.of_nat i / max_size),
                 (Z.of_nat i mod max_size)%Z))) l).
Proof.
  intros Hm.
  rewrite (result_mapM_ok _
             (λ ib : nat * Bit,
                (ib.2, (_TEMP_BIT_NAME ++ "_"
                          ++ str_int (Z.of_nat ib.1 / max_size),
                        (Z.of_nat ib.1 mod max_size)%Z)))).
  - f_equal. apply list_eq. intros i.
    rewrite list_lookup_fmap, !list_lookup_imap. by destruct (l !! i).
  - apply Forall_forall. intros [i bit] _. cbn. unfold resized_bit.
    rewrite (proj2 (Z.eqb_neq max_size 0)) by lia. cbv zeta.
    pose proof (Z.mod_pos_bound (Z.of_nat i) max_size Hm).
    by rewrite (proj2 (Z.ltb_ge _ _)) by lia.
Qed.

(** X3. For a positive width, [trans] raises nothing, and asks for no
    renaming when the circuit has at most [max_size] scratch bits.
    Otherwise it renames the scratch bits, and only them, in the order of
    the circuit: the [i]-th one becomes bit [i mod max_size] of the
    register numbered [i / max_size]; the new indices are below
    [max_size], no two scratch bits get the same new name, and no new
    register has more than [max_size] bits. *)
Theorem trans_renaming bits max_size :
  (0 < max_size)%Z →
  let scratch_bits := List.filter (is_scratch_bit _TEMP_BIT_NAME) bits in
  ∃ bits_map,
    trans _TEMP_BIT_NAME bits max_size = Ok bits_map ∧
    (Z.of_nat (length scratch_bits) ≤ max_size → bits_map = [])%Z ∧
    (max_size < Z.of_nat (length scratch_bits) →
       bits_map.*1 = scratch_bits)%Z ∧
    (∀ bit, bit ∈ bits_map.*1 →
       bit ∈ bits ∧ is_scratch_bit _TEMP_BIT_NAME bit = true) ∧
    (∀ i bit name idx, bits_map !! i = Some (bit, (name, idx)) →
       name = _TEMP_BIT_NAME ++ "_" ++ str_int (Z.of_nat i / max_size) ∧
       idx = (Z.of_nat i mod max_size)%Z ∧ (0 ≤ idx < max_size)%Z) ∧
    NoDup bits_map.*2 ∧
    ∀ name,
      (Z.of_nat (length (filter (λ e, e.2.1 = name) bits_map)) ≤ max_size)%Z.
Proof.
  intros Hpos scratch_bits. unfold trans. fold scratch_bits.
  destruct (Z.ltb_spec max_size (Z.of_nat (length scratch_bits))) as [Hlt|Hge].
  - rewrite resized_bits_map by lia. eexists. split; [done|].
    set (g := λ (i : nat) (bit : Bit), (bit, (_, _))).
    assert (Hfst : (imap g scratch_bits).*1 = scratch_bits).
    { apply list_eq. intros i. rewrite list_lookup_fmap, list_lookup_imap.
      by destruct (scratch_bits !! i). }
    assert (Hlook : ∀ i bit name idx,
      imap g scratch_bits !! i = Some (bit, (name, idx)) →
      name = _TEMP_BIT_NAME ++ "_" ++ str_int (Z.of_nat i / max_size) ∧
      idx = (Z.of_nat i mod max_size)%Z ∧ (0 ≤ idx < max_size)%Z).
    { intros i bit name idx. rewrite list_lookup_imap.
      destruct (scratch_bits !! i); [|done]. cbn. intros [= <- <- <-].
      split; [done|]. split; [done|]. by apply Z.mod_pos_bound. }
    assert (Hnd : NoDup (imap g scratch_bits).*2).
    { apply NoDup_alt. intros i j [name idx]. rewrite !list_lookup_fmap.
      destruct (imap g scratch_bits !! i) as [[b1 [n1 i1]]|] eqn:H1; [|done].
      destruct (imap g scratch_bits !! j) as [[b2 [n2 i2]]|] eqn:H2; [|done].
      cbn. intros [= -> ->] [= -> ->].
      apply Hlook in H1 as (Hn1 & Hi1 & _). apply Hlook in H2 as (Hn2 & Hi2 & _).
      rewrite Hn1 in Hn2.
      apply append_inv_head, append_inv_head, str_int_inj in Hn2.
      apply Nat2Z.inj.
      rewrite (Z.div_mod (Z.of_nat i) max_size),
        (Z.div_mod (Z.of_nat j) max_size) by lia.
      congruence. }
    split; [lia|]. split; [done|]. split; [|split; [done|split; [done|]]].
    + rewrite Hfst. intros bit Hbit. unfold scratch_bits in Hbit.
      apply list_elem_of_In, filter_In in Hbit as [Hin Hs].
      by apply list_elem_of_In in Hin.
    + intros name.
      set (sel := filter (λ e, e.2.1 = name) (imap g scratch_bits)).
      assert (length sel = length (sel.*2.*2)) as -> by (by rewrite !length_fmap).
      rewrite <- (Z2Nat.id max_size), <- Nat2Z.inj_le by lia.
      rewrite <- (length_seqZ 0 max_size). apply submseteq_length.
      apply NoDup_submseteq.
      * apply (NoDup_fmap_2_strong snd); [|].
        -- intros [n1 i1] [n2 i2] Hin1 Hin2. cbn. intros <-. f_equal.
           apply list_elem_of_fmap in Hin1 as ([b1 e1] & He1 & H1).
           apply list_elem_of_fmap in Hin2 as ([b2 e2] & He2 & H2).
           apply list_elem_of_filter in H1 as [H1 _].
           apply list_elem_of_filter in H2 as [H2 _]. cbn in *.
           subst e1 e2. cbn in *. congruence.
        -- apply (sublist_NoDup _ (imap g scratch_bits).*2); [done|].
           apply fmap_sublist, sublist_filter.
      * intros idx ([name' idx'] & He & ([bit e] & He' & Hin)%list_elem_of_fmap)
          %list_elem_of_fmap.
        apply list_elem_of_filter in Hin as [_ [i Hi]%list_elem_of_lookup].
        cbn in *. subst e idx.
        apply Hlook in Hi as (_ & _ & ?). apply elem_of_seqZ. lia.
  - exists []. split; [done|]. split; [done|]. split; [lia|].
    split; [by intros bit ?%elem_of_nil|]. split; [done|].
    split; [constructor|]. intros name. cbn. lia.
Qed.

(** X4. With a width of 0, [trans] raises [ZeroDivisionError] on every
    circuit that has a scratch bit, and asks for no renaming on the
    others. *)
Theorem trans_zero_width bits :
  trans _TEMP_BIT_NAME bits 0
  = if existsb (is_scratch_bit _TEMP_BIT_NAME) bits
    then Raise ZeroDivisionError else Ok [].
Proof.
  unfold trans. rewrite existsb_filter_length.
  destruct (List.filter _ bits) as [|b l]; done.
Qed.

End scratch_registers.

Section descriptors.

Context (api : QuantinuumAPI).

Lemma find_machine_Ok machine jr entry :
  find_machine machine jr = Ok entry →
  ∃ pre post, jr = (pre ++ entry :: post)%list ∧
    entry !! "name" = Some (JStr machine) ∧
    Forall (λ e, is_Some (e !! "name") ∧ e !! "name" ≠ Some (JStr machine)) pre.
Proof.
  induction jr as [|e jr IH]; [done|]. cbn.
  destruct (e !! "name") as [v|] eqn:Hv; [|done].
  assert (Hrec : e !! "name" ≠ Some (JStr machine) →
            find_machine machine jr = Ok entry →
            ∃ pre post, (e :: jr = pre ++ entry :: post)%list ∧
              entry !! "name" = Some (JStr machine) ∧
              Forall (λ e, is_Some (e !! "name") ∧
                           e !! "name" ≠ Some (JStr machine)) pre).
  { intros Hne (pre & post & -> & Hname & Hpre)%IH.
    exists (e :: pre), post. split; [done|]. split; [done|].
    constructor; [|done]. split; [by rewrite Hv|done]. }
  destruct v as [| | |s| |]; try (apply Hrec; by rewrite Hv).
  destruct (String.eqb_spec s machine) as [->|Hne].
  - intros [= ->]. exists [], jr. by repeat split.
  - apply Hrec. rewrite Hv. congruence.
Qed.

Lemma find_machine_not_available machine jr :
  Forall (λ e, is_Some (e !! "name") ∧ e !! "name" ≠ Some (JStr machine)) jr →
  find_machine machine jr = Raise (DeviceNotAvailable machine).
Proof.
  induction 1 as [|e jr [[v Hv] Hne] _ IH]; [done|]. cbn. rewrite Hv.
  destruct v as [| | |s| |]; try done.
  destruct (String.eqb_spec s machine) as [->|_]; [by rewrite Hv in Hne|done].
Qed.

Lemma find_machine_unnamed machine pre e post :
  Forall (λ e, is_Some (e !! "name") ∧ e !! "name" ≠ Some (JStr machine)) pre →
  e !! "name" = None →
  find_machine machine (pre ++ e :: post) = Raise (KeyError "name").
Proof.
  intros Hpre He.
  induction Hpre as [|e0 pre [[v Hv] Hne] _ IH]; cbn; [by rewrite He|].
  rewrite Hv. destruct v as [| | |s| |]; try done.
  destruct (String.eqb_spec s machine) as [->|_]; [by rewrite Hv in Hne|done].
Qed.

Lemma get_gateset_ops gates gs :
  _get_gateset gates = Ok gs →
  (∀ op, op ∈ _GATE_SET → op ∈ gs) ∧
  (∀ op, op ∈ gs → op ∈ _GATE_SET ∨ op = ZZPhase) ∧
  (ZZPhase ∈ gs ↔ json_contains "RZZ" gates = Ok true).
Proof.
  unfold _get_gateset. destruct (json_contains "RZZ" gates) as [[|]|]; [| |done].
  - intros H. assert (gs = (_GATE_SET ++ [ZZPhase])%list) as ->
      by (by injection H).
    clear H. split; [|split].
    + intros op Hop. apply elem_of_app. by left.
    + intros op [?|Hop]%elem_of_app; [by left|].
      apply list_elem_of_singleton in Hop. by right.
    + split; [done|]. intros _. apply elem_of_app. right.
      apply list_elem_of_here.
  - intros [= <-]. split; [done|]. split; [auto|].
    split; [|done]. intros H. exfalso. revert H. unfold _GATE_SET.
    rewrite !elem_of_cons, elem_of_nil. naive_solver.
Qed.

(** What a descriptor made from a listing entry holds. *)
Lemma dict_to_backendinfo_Ok dct bi :
  _dict_to_backendinfo dct = Ok bi →
  dct !! "name" = Some (JStr (device_name bi)) ∧
  dct !! "n_qubits" = Some (JInt (n_nodes bi)) ∧
  _get_gateset (default (JList []) (dct !! "gateset")) = Ok (gate_set bi) ∧
  misc bi = delete "gateset" (delete "n_qubits" (delete "name" dct)).
Proof.
  unfold _dict_to_backendinfo.
  destruct (dct !! "name") as [name|] eqn:Hname; [|done].
  rewrite lookup_delete_ne by done.
  destruct (dct !! "n_qubits") as [nq|] eqn:Hnq; [|done].
  rewrite !lookup_delete_ne by done.
  destruct name as [| | |name| |]; try done.
  destruct nq as [| |n| | |]; try done.
  destruct (_ && _); [|done].
  destruct (_get_gateset _) as [gs|] eqn:Hgs; [|done].
  cbn. by intros [= <-].
Qed.

(** The first access to [backend_info] that returns a descriptor. *)
Lemma backend_info_fetch σ bi σ' :
  backend_info api σ = (Ok (Some bi), σ') →
  (_backend_info σ = Some bi ∧ σ' = σ) ∨
  (_backend_info σ = None ∧ _MACHINE_DEBUG σ = false ∧
   ∃ token jr entry,
     login api (api_log σ) = Ok token ∧
     machine_list api (api_log σ ++ [Login]) = Ok jr ∧
     find_machine (_device_name σ) jr = Ok entry ∧
     _dict_to_backendinfo
       (<["options" := JDict (_process_circuits_options σ)]> entry) = Ok bi ∧
     σ' = set_backend_info (Some bi) (log_call MachineList (log_call Login σ))).
Proof.
  unfold backend_info, _retrieve_backendinfo, _available_devices. unfold_m.
  destruct (_backend_info σ) as [bi0|] eqn:Hbi; [intros [= -> <-]; by left|].
  destruct (_MACHINE_DEBUG σ) eqn:Hd; [done|]. cbn [negb].
  destruct (login api (api_log σ)) as [token|] eqn:Hlogin; [|done].
  cbn [api_log log_call].
  destruct (machine_list api _) as [jr|] eqn:Hlist; [|done].
  destruct (find_machine _ jr) as [entry|] eqn:Hfind; [|done].
  cbn [_process_circuits_options log_call].
  destruct (_dict_to_backendinfo _) as [bi1|] eqn:Hdict; [|done].
  intros [= -> <-]. right. split; [done|]. split; [done|].
  exists token, jr, entry. by repeat split.
Qed.

Lemma backend_info_from_listing σ r σ' :
  descriptor_from_listing σ → backend_info api σ = (r, σ') →
  descriptor_from_listing σ'.
Proof.
  intros Hinv Hcall. destruct r as [[bi|]|e].
  - apply backend_info_fetch in Hcall as [[_ ->]|(_ & _ & Hf)]; [done|].
    destruct Hf as (token & jr & entry & _ & _ & _ & Hdict & ->).
    intros bi' [= <-]. eauto.
  - apply backend_info_inv in Hcall as [_ [-> _]]. done.
  - apply backend_info_inv in Hcall as [_ [Hnone _]].
    intros bi. by rewrite Hnone.
Qed.

(** The gate set of a backend. *)
Lemma gate_set_Ok σ gs σ' :
  descriptor_from_listing σ → _gate_set api σ = (Ok gs, σ') →
  _gate_set api σ' = (Ok gs, σ') ∧ descriptor_from_listing σ' ∧
  (∀ op, op ∈ _GATE_SET → op ∈ gs) ∧
  (∀ op, op ∈ gs → op ∈ _GATE_SET ∨ op = ZZPhase) ∧
  (_MACHINE_DEBUG σ = true → σ' = σ ∧ gs = _GATE_SET).
Proof.
  intros Hinv. unfold _gate_set. unfold bind at 1. unfold get_self at 1.
  destruct (_MACHINE_DEBUG σ) eqn:Hd.
  - intros [= <- <-]. unfold bind, get_self. rewrite Hd. by repeat split; auto.
  - unfold bind at 1. destruct (backend_info api σ) as [r σ1] eqn:Hcall.
    pose proof (backend_info_from_listing _ _ _ Hinv Hcall) as Hinv1.
    pose proof (backend_info_inv api _ _ _ Hcall) as [Hd1 Hr].
    destruct r as [[bi|]|e]; [|done|done]. intros [= <- <-].
    destruct (Hinv1 bi Hr) as (dct & Hdct).
    apply dict_to_backendinfo_Ok in Hdct as (_ & _ & Hgs & _).
    apply get_gateset_ops in Hgs as (Hbase & Hall & _).
    unfold bind, get_self. rewrite Hd1, Hd.
    rewrite (backend_info_cached api σ1 bi Hr). by repeat split.
Qed.

End descriptors.

Section device_descriptor.

Context (api : QuantinuumAPI).

(** X5. The first access to [backend_info] that returns a descriptor has
    logged in and listed the devices, in this order and once each; the
    descriptor is made from the first entry of the listing that bears the
    device's name: its [misc] has the instance's options under [options],
    has none of the keys [name], [n_qubits] and [gateset], and agrees with
    the entry on every other key. The descriptor is kept: the next access
    returns it without any call on the API handler. *)
Theorem backend_info_first_fetch σ bi σ' :
  _backend_info σ = None →
  backend_info api σ = (Ok (Some bi), σ') →
  (∃ jr pre entry post,
     machine_list api (api_log σ ++ [Login]) = Ok jr ∧
     jr = (pre ++ entry :: post)%list ∧
     Forall (λ e, e !! "name" ≠ Some (JStr (_device_name σ))) pre ∧
     entry !! "name" = Some (JStr (_device_name σ)) ∧
     entry !! "n_qubits" = Some (JInt (n_nodes bi)) ∧
     ∀ k, k ≠ "name" → k ≠ "n_qubits" → k ≠ "gateset" → k ≠ "options" →
          misc bi !! k = entry !! k) ∧
  device_name bi = _device_name σ ∧
  misc bi !! "options" = Some (JDict (_process_circuits_options σ)) ∧
  misc bi !! "name" = None ∧ misc bi !! "n_qubits" = None ∧
  misc bi !! "gateset" = None ∧
  api_log σ' = (api_log σ ++ [Login; MachineList])%list ∧
  _cache σ' = _cache σ ∧
  backend_info api σ' = (Ok (Some bi), σ').
Proof.
  intros Hnone Hcall.
  apply backend_info_fetch in Hcall as [[Hsome _]|(_ & _ & Hf)]; [congruence|].
  destruct Hf as (token & jr & entry & _ & Hlist & Hfind & Hdict & ->).
  apply find_machine_Ok in Hfind as (pre & post & -> & Hname & Hpre).
  apply dict_to_backendinfo_Ok in Hdict as (Hn & Hq & _ & Hmisc).
  rewrite lookup_insert_ne in Hn, Hq by done.
  split; [|split; [congruence|]].
  - exists (pre ++ entry :: post)%list, pre, entry, post.
    split; [done|]. split; [done|].
    split; [eapply Forall_impl; [apply Hpre|]; by intros e [_ ?]|].
    split; [done|]. split; [done|].
    intros k ? ? ? ?. rewrite Hmisc.
    by rewrite !lookup_delete_ne, lookup_insert_ne by done.
  - rewrite Hmisc.
    split; [by rewrite !lookup_delete_ne, lookup_insert_eq by done|].
    split; [by rewrite 2!lookup_delete_ne, lookup_delete_eq by done|].
    split; [by rewrite lookup_delete_ne, lookup_delete_eq by done|].
    split; [by rewrite lookup_delete_eq|].
    split; [cbn; by rewrite <- app_assoc|]. split; [done|].
    by apply backend_info_cached.
Qed.

(** X6. When the listing has no entry with the device's name,
    [backend_info] raises [DeviceNotAvailable] with that name; an entry
    without a name that comes before the device's entry makes it raise
    [KeyError] instead. In both cases the backend keeps no descriptor, so
    the next access asks the API handler again. *)
Theorem backend_info_not_listed σ token jr :
  _backend_info σ = None → _MACHINE_DEBUG σ = false →
  login api (api_log σ) = Ok token →
  machine_list api (api_log σ ++ [Login]) = Ok jr →
  let σ' := log_call MachineList (log_call Login σ) in
  _backend_info σ' = None ∧
  (Forall (λ e, is_Some (e !! "name") ∧
                e !! "name" ≠ Some (JStr (_device_name σ))) jr →
   backend_info api σ = (Raise (DeviceNotAvailable (_device_name σ)), σ')) ∧
  (∀ pre e post, jr = (pre ++ e :: post)%list →
     Forall (λ e, is_Some (e !! "name") ∧
                  e !! "name" ≠ Some (JStr (_device_name σ))) pre →
     e !! "name" = None →
     backend_info api σ = (Raise (KeyError "name"), σ')).
Proof.
  intros Hnone Hd Hlogin Hlist σ'. split; [done|].
  assert (Hcall : backend_info api σ =
    (rbind (find_machine (_device_name σ) jr) (λ entry,
       rbind (_dict_to_backendinfo
                (<["options" := JDict (_process_circuits_options σ)]> entry))
         (λ bi, Ok (Some bi))),
     match find_machine (_device_name σ) jr with
     | Ok entry =>
         match _dict_to_backendinfo
                 (<["options" := JDict (_process_circuits_options σ)]> entry)
         with
         | Ok bi => set_backend_info (Some bi) σ'
         | Raise _ => σ'
         end
     | Raise _ => σ'
     end)).
  { unfold backend_info, _retrieve_backendinfo, _available_devices. unfold_m.
    rewrite Hnone, Hd. cbn [negb]. rewrite Hlogin. cbn [api_log log_call].
    rewrite Hlist. destruct (find_machine _ jr) as [entry|]; [|done].
    cbn [_process_circuits_options log_call rbind].
    by destruct (_dict_to_backendinfo _). }
  rewrite Hcall. split.
  - intros Hall. by rewrite find_machine_not_available.
  - intros pre e post -> Hpre He.
    by rewrite find_machine_unnamed.
Qed.

(** X7. Whatever gates a listed device reports, the gate set of its
    descriptor is the fourteen built-in operations, and [ZZPhase] besides
    exactly when the reported gates contain [RZZ]; an entry without a
    [gateset] key gives the built-in operations only. *)
Theorem dict_to_backendinfo_gate_set dct bi :
  _dict_to_backendinfo dct = Ok bi →
  (∀ op, op ∈ _GATE_SET → op ∈ gate_set bi) ∧
  (∀ op, op ∈ gate_set bi → op ∈ _GATE_SET ∨ op = ZZPhase) ∧
  (∀ gates, dct !! "gateset" = Some (JList gates) →
     (ZZPhase ∈ gate_set bi ↔ JStr "RZZ" ∈ gates)) ∧
  (dct !! "gateset" = None → gate_set bi = _GATE_SET).
Proof.
  intros (_ & _ & Hgs & _)%dict_to_backendinfo_Ok.
  pose proof (get_gateset_ops _ _ Hgs) as (Hbase & Hall & Hzz).
  split; [done|]. split; [done|]. split.
  - intros gates Hgates. rewrite Hzz, Hgates. cbn. clear.
    induction gates as [|g gates IH]; cbn.
    + split; [done|]. by intros ?%elem_of_nil.
    + rewrite elem_of_cons. destruct g as [| | |s| |]; cbn;
        try (rewrite IH; split; [by right|by intros [?|?]]).
      destruct (String.eqb_spec s "RZZ") as [->|Hne]; cbn.
      * split; [by left|done].
      * rewrite IH. split; [by right|]. intros [[=]|?]; [congruence|done].
  - intros Hnone. rewrite Hnone in Hgs. cbn in Hgs. by injection Hgs.
Qed.

(** X8. For an optimisation level of 0, 1 or 2, [default_compilation_pass]
    fails only when the look-up of the gate set fails, and with that
    exception: the gate set of a backend always has [ZZMax], so the error
    for a device without a two-qubit gate is never raised. The sequence it
    returns starts with [DecomposeBoxes] and the resizing of scratch
    registers to width 32, ends with the flattening of registers, and has
    the rebase to the backend's gate set; above level 0 the [TK2]
    decomposition is given the [ZZMax] fidelity, and the [ZZPhase] fidelity
    exactly when the gate set has [ZZPhase]. Any other level fails the
    assertion before anything is looked up. *)
Theorem default_compilation_pass_levels σ lvl :
  descriptor_from_listing σ →
  ((0 ≤ lvl < 3)%Z →
     ∀ r σ', _gate_set api σ = (r, σ') →
       match r with
       | Raise e => default_compilation_pass api lvl σ = (Raise e, σ')
       | Ok gs =>
           ∃ passes middle,
             default_compilation_pass api lvl σ = (Ok passes, σ') ∧
             passes =
               ([ DecomposeBoxes; scratch_reg_resize_pass 32 ] ++ middle ++
                [ CustomPass_flatten_registers ])%list ∧
             auto_rebase_pass gs ∈ middle ∧
             (lvl = 0%Z → middle = [ auto_rebase_pass gs ]) ∧
             (lvl ≠ 0%Z →
                DecomposeTK2 true (bool_decide (ZZPhase ∈ gs)) ∈ middle)
       end) ∧
  (¬ (0 ≤ lvl < 3)%Z →
     default_compilation_pass api lvl σ = (Raise AssertionError, σ)).
Proof.
  intros Hinv. unfold default_compilation_pass. split.
  - intros Hlvl r σ' Hgs.
    assert (((0 <=? lvl) && (lvl <? 3))%Z = true) as -> by lia.
    cbn [negb]. cbv iota.
    destruct r as [gs|e]; unfold bind at 1; rewrite Hgs; [|done].
    destruct (gate_set_Ok api _ _ _ Hinv Hgs) as (Hgs' & _ & Hbase & _ & _).
    unfold bind at 1. rewrite Hgs'.
    assert (bool_decide (ZZMax ∈ gs) = true) as ->.
    { apply bool_decide_eq_true_2, Hbase. unfold _GATE_SET.
      rewrite !elem_of_cons. auto. }
    cbn [orb negb]. cbv iota.
    destruct (Z.eqb_spec lvl 0) as [->|H0]; [|destruct (Z.eqb_spec lvl 1)];
      unfold rebase_pass, bind, ret; rewrite Hgs'.
    + eexists _, [_]. split; [done|]. split; [done|].
      split; [apply list_elem_of_here|]. split; done.
    + eexists _, _. split; [done|]. split; [done|].
      rewrite !elem_of_cons. split; [auto 10|]. split; [done|]. auto.
    + eexists _, _. split; [done|]. split; [done|].
      rewrite !elem_of_cons. split; [auto 10|]. split; [done|]. auto.
  - intros Hlvl.
    assert (((0 <=? lvl) && (lvl <? 3))%Z = false) as -> by lia. done.
Qed.

(** X9. The descriptor that a backend fetches for its device is the one
    that [available_devices] lists for the same entry of the listing, but
    for the instance's options, which only the backend's descriptor has
    (under [options] in [misc]). *)
Theorem backend_info_among_available σ bi σ1 infos σ2 :
  _backend_info σ = None →
  backend_info api σ = (Ok (Some bi), σ1) →
  available_devices api σ = (Ok infos, σ2) →
  ∃ i listed,
    infos !! i = Some listed ∧
    device_name listed = device_name bi ∧ n_nodes listed = n_nodes bi ∧
    gate_set listed = gate_set bi ∧
    misc bi =
      <["options" := JDict (_process_circuits_options σ)]> (misc listed) ∧
    api_log σ2 = api_log σ1.
Proof.
  intros Hnone Hcall.
  apply backend_info_fetch in Hcall as [[Hsome _]|(_ & _ & Hf)]; [congruence|].
  destruct Hf as (token & jr & entry & Hlogin & Hlist & Hfind & Hdict & ->).
  unfold available_devices, _available_devices. unfold_m.
  rewrite Hlogin. cbn [api_log log_call]. rewrite Hlist.
  destruct (result_mapM _ jr) as [l|] eqn:Hl; [|done]. intros [= <- <-].
  apply find_machine_Ok in Hfind as (pre & post & -> & _ & _).
  assert (Hlen : length l = length (pre ++ entry :: post))
    by (by apply result_mapM_length in Hl).
  destruct (lookup_lt_is_Some_2 l (length pre)) as [listed Hi].
  { rewrite Hlen, length_app. cbn. lia. }
  destruct (result_mapM_lookup _ _ _ _ _ Hl Hi) as (entry' & Hentry & Hlisted).
  rewrite list_lookup_middle in Hentry by done. injection Hentry as <-.
  exists (length pre), listed. split; [done|].
  apply dict_to_backendinfo_Ok in Hdict as (Hn & Hq & Hgs & Hmisc).
  apply dict_to_backendinfo_Ok in Hlisted as (Hn' & Hq' & Hgs' & Hmisc').
  rewrite lookup_insert_ne in Hn, Hq, Hgs by done.
  split; [congruence|]. split; [congruence|]. split; [congruence|].
  split; [|done]. rewrite Hmisc, Hmisc'.
  by rewrite !delete_insert_ne.
Qed.

End device_descriptor.

Section descriptor_samples.

Lemma trans_renaming_witness :
  (0 < 2)%Z ∧
  ∃ bits_map,
    trans "tk_SCRATCH_BIT" sample_bits 2 = Ok bits_map ∧
    bits_map.*1 = List.filter (is_scratch_bit "tk_SCRATCH_BIT") sample_bits ∧
    NoDup bits_map.*2.
Proof.
  split; [reflexivity|].
  destruct (trans_renaming "tk_SCRATCH_BIT" sample_bits 2 eq_refl)
    as (bits_map & Hrun & _ & Hkeys & _ & _ & Hnd & _).
  exists bits_map. split; [exact Hrun|]. split; [|exact Hnd].
  apply Hkeys. reflexivity.
Defined.

Lemma sample_backend_info :
  backend_info sample_api sample_backend
  = (Ok (Some sample_descriptor), fetched_backend).
Proof. by vm_compute. Qed.

Lemma backend_info_first_fetch_witness :
  _backend_info sample_backend = None ∧
  backend_info sample_api sample_backend
    = (Ok (Some sample_descriptor), fetched_backend) ∧
  api_log fetched_backend = [Login; MachineList] ∧
  backend_info sample_api fetched_backend
    = (Ok (Some sample_descriptor), fetched_backend).
Proof.
  split; [reflexivity|]. split; [exact sample_backend_info|].
  destruct (backend_info_first_fetch sample_api sample_backend
              sample_descriptor fetched_backend eq_refl sample_backend_info)
    as (_ & _ & _ & _ & _ & _ & Hlog & _ & Hagain).
  split; [exact Hlog|exact Hagain].
Defined.

Lemma backend_info_not_listed_witness :
  machine_list sample_api [Login] = Ok [sample_device] ∧
  backend_info sample_api unlisted_backend
  = (Raise (DeviceNotAvailable "H2-1"),
     log_call MachineList (log_call Login unlisted_backend)).
Proof.
  split; [reflexivity|].
  refine (proj1 (proj2 (backend_info_not_listed sample_api unlisted_backend
            "token" [sample_device] eq_refl eq_refl eq_refl eq_refl)) _).
  apply Forall_cons. split; [|apply Forall_nil_2].
  split; [by exists (JStr "H1-1")|]. by vm_compute.
Defined.

Lemma sample_device_listed :
  _dict_to_backendinfo sample_device = Ok listed_descriptor.
Proof. by vm_compute. Qed.

Lemma dict_to_backendinfo_gate_set_witness :
  _dict_to_backendinfo sample_device = Ok listed_descriptor ∧
  ZZPhase ∈ gate_set listed_descriptor.
Proof.
  split; [exact sample_device_listed|].
  refine (proj2 (proj1 (proj2 (proj2 (dict_to_backendinfo_gate_set
            sample_device listed_descriptor sample_device_listed)))
            [JStr "RZZ"] eq_refl) _).
  apply list_elem_of_here.
Defined.

Lemma sample_backend_from_listing : descriptor_from_listing sample_backend.
Proof. intros bi Hbi. discriminate Hbi. Qed.

Lemma sample_gate_set :
  _gate_set sample_api sample_backend
  = (Ok (gate_set sample_descriptor), fetched_backend).
Proof. by vm_compute. Qed.

Lemma default_compilation_pass_levels_witness :
  descriptor_from_listing sample_backend ∧ (0 ≤ 2 < 3)%Z ∧
  ∃ passes middle,
    default_compilation_pass sample_api 2 sample_backend
      = (Ok passes, fetched_backend) ∧
    passes = ([ DecomposeBoxes; scratch_reg_resize_pass 32 ] ++ middle ++
              [ CustomPass_flatten_registers ])%list ∧
    auto_rebase_pass (gate_set sample_descriptor) ∈ middle.
Proof.
  split; [exact sample_backend_from_listing|]. split; [lia|].
  destruct (proj1 (default_compilation_pass_levels sample_api sample_backend 2
              sample_backend_from_listing) ltac:(lia) _ _ sample_gate_set)
    as (passes & middle & Hrun & Hpasses & Hrebase & _).
  exists passes, middle. split; [exact Hrun|]. split; [exact Hpasses|].
  exact Hrebase.
Defined.

Lemma sample_available_devices :
  available_devices sample_api sample_backend
  = (Ok [listed_descriptor], log_call MachineList (log_call Login sample_backend)).
Proof. by vm_compute. Qed.

Lemma backend_info_among_available_witness :
  _backend_info sample_backend = None ∧
  ∃ i listed,
    [listed_descriptor] !! i = Some listed ∧
    gate_set listed = gate_set sample_descriptor ∧
    misc sample_descriptor = <["options" := JDict ∅]> (misc listed).
Proof.
  split; [reflexivity|].
  destruct (backend_info_among_available sample_api sample_backend
              sample_descriptor fetched_backend [listed_descriptor] _
              eq_refl sample_backend_info sample_available_devices)
    as (i & listed & Hi & _ & _ & Hgs & Hmisc & _).
  exists i, listed. split; [exact Hi|]. split; [exact Hgs|exact Hmisc].
Defined.

End descriptor_samples.

Section result_cache.

Context (host : Pytket) (api : QuantinuumAPI).

Lemma get_result_cached σ (handle : ResultHandle) kwargs res :
  _cache σ !! handle = Some (Some res) →
  get_result host api handle kwargs σ = (Ok res, σ).
Proof.
  intros Hc. unfold get_result, Backend_get_result. unfold_m. by rewrite Hc.
Qed.

(** X10. Fetching a result twice: once [get_result] has returned a
    result for a handle, every later [get_result] on that handle returns the
    same result, whatever its keyword arguments, and leaves the backend as
    it is, so it makes no call on the API handler. The first fetch made at
    most one call. *)
Theorem get_result_idempotent σ (handle : ResultHandle) kwargs res σ1 :
  get_result host api handle kwargs σ = (Ok res, σ1) →
  (∀ kwargs', get_result host api handle kwargs' σ1 = (Ok res, σ1)) ∧
  ∃ calls, api_log σ1 = (api_log σ ++ calls)%list ∧ (length calls ≤ 1)%nat.
Proof.
  intros Hrun.
  destruct (_cache σ !! handle) as [[res0|]|] eqn:Hc.
  { rewrite (get_result_cached _ _ _ res0 Hc) in Hrun.
    injection Hrun as <- <-. split; [intros kw; by apply get_result_cached|].
    exists []. rewrite app_nil_r. split; [done|cbn; lia]. }
  all: assert (Hun : ∀ r, _cache σ !! handle ≠ Some (Some r))
    by (intros r; by rewrite Hc).
  all: unfold get_result, Backend_get_result, _retrieve_job,
    _update_cache_result in Hrun; unfold_m; rewrite Hc in Hrun.
  all: rewrite (bool_decide_eq_true_2 _ (eq_refl CircuitNotRunError)) in Hrun.
  all: destruct (circuit_from_json host handle.2) as [pp|] eqn:Hpp; [|done].
  all: destruct (is_debug_handle σ handle.1) eqn:Hdebug.
  1,3: destruct (literal_eval_pair _) as [[nq n]|] eqn:Hinfo; [|done];
    injection Hrun as Hconv <-; (split; [|exists []; rewrite app_nil_r; split; [done|cbn; lia]]);
    intros kwargs';
    rewrite (get_result_debug host api σ handle kwargs' pp nq n);
      [by rewrite Hconv|done..].
  all: destruct (retrieve_job api _ _ _ _ _) as [[job|]|]; [|done..].
  all: cbn [api_log log_call _cache] in Hrun.
  all: destruct (_parse_status host job) as [cs|]; [|done].
  all: destruct (negb _); [done|].
  all: destruct (jd_results job) as [payload|]; [|done].
  all: destruct (_convert_result payload pp) as [backres|]; [|done].
  all: injection Hrun as <- <-.
  all: split; [intros kwargs'; apply get_result_cached; cbn;
               by rewrite lookup_insert_eq|].
  all: eexists [_]; split; [done|cbn; lia].
Qed.

(** X11. A status query that finds the job completed stores its result:
    when the record of a completed job has results, [circuit_status]
    decodes them and puts the result in the cache under the handle, so that
    a later [get_result] returns it without any call on the API handler;
    when the results do not decode, the status query itself raises the
    decoder's exception instead of returning a status. For any other status,
    or a record without results, the status is returned and the cache is
    left as it is. *)
Theorem circuit_status_stores_result σ (handle : ResultHandle) kwargs response
    cs :
  is_debug_handle σ handle.1 = false →
  let ws := default true (kw_use_websocket kwargs) in
  retrieve_job_status api (api_log σ) handle.1 ws = Ok (Some response) →
  _parse_status host response = Ok cs →
  let σ0 := log_call (RetrieveJobStatus handle.1 ws) σ in
  (∀ results pp,
     status cs = COMPLETED → jd_results response = Some results →
     circuit_from_json host handle.2 = Ok pp →
     match _convert_result results pp with
     | Ok res =>
         let σ1 := set_cache (<[handle := Some res]> (_cache σ)) σ0 in
         circuit_status host api handle kwargs σ = (Ok cs, σ1) ∧
         ∀ kw, get_result host api handle kw σ1 = (Ok res, σ1)
     | Raise e => circuit_status host api handle kwargs σ = (Raise e, σ0)
     end) ∧
  (status cs ≠ COMPLETED ∨ jd_results response = None →
   circuit_status host api handle kwargs σ = (Ok cs, σ0)).
Proof.
  intros Hnd ws Hq Hst σ0. split.
  - intros results pp Hc Hres Hpp.
    assert (Hrun : circuit_status host api handle kwargs σ =
      match _convert_result results pp with
      | Ok res => (Ok cs, set_cache (<[handle := Some res]> (_cache σ)) σ0)
      | Raise e => (Raise e, σ0)
      end).
    { unfold circuit_status, _update_cache_result. unfold_m.
      rewrite Hnd. fold ws. rewrite Hq. cbn. rewrite Hst.
      rewrite (bool_decide_eq_true_2 _ Hc), Hres, Hpp.
      by destruct (_convert_result results pp). }
    destruct (_convert_result results pp) as [res|e]; [|done].
    split; [done|]. intros kw. apply get_result_cached. cbn.
    by rewrite lookup_insert_eq.
  - intros Hother. unfold circuit_status, _update_cache_result. unfold_m.
    rewrite Hnd. fold ws. rewrite Hq. cbn. rewrite Hst.
    destruct Hother as [Hne|Hnone].
    + by rewrite (bool_decide_eq_false_2 _ Hne).
    + rewrite Hnone. by destruct (bool_decide _).
Qed.

(** X12. [circuit_status] logs in only after a [QuantinuumAPIError]: when
    the status query returns, or raises any other exception, it is the only
    call made on the API handler; its exception is the outcome, and an
    answer without a job record gives [RuntimeError]. *)
Theorem circuit_status_single_query σ (handle : ResultHandle) kwargs :
  is_debug_handle σ handle.1 = false →
  let ws := default true (kw_use_websocket kwargs) in
  let q := RetrieveJobStatus handle.1 ws in
  retrieve_job_status api (api_log σ) handle.1 ws ≠ Raise QuantinuumAPIError →
  api_log (circuit_status host api handle kwargs σ).2
    = (api_log σ ++ [q])%list ∧
  (∀ e, retrieve_job_status api (api_log σ) handle.1 ws = Raise e →
     circuit_status host api handle kwargs σ = (Raise e, log_call q σ)) ∧
  (retrieve_job_status api (api_log σ) handle.1 ws = Ok None →
     circuit_status host api handle kwargs σ
     = (Raise RuntimeError, log_call q σ)).
Proof.
  intros Hnd ws q Hq. unfold circuit_status, _update_cache_result. unfold_m.
  rewrite Hnd. fold ws. fold q.
  destruct (retrieve_job_status api (api_log σ) handle.1 ws)
    as [[response|]|e] eqn:Hr; cbn.
  - split; [|by split]. destruct (_parse_status host response); [|done].
    destruct (bool_decide _); [|done].
    destruct (jd_results response); [|done].
    destruct (circuit_from_json host _); [|done].
    by destruct (_convert_result _ _).
  - by repeat split.
  - assert (e ≠ QuantinuumAPIError) as Hne by congruence.
    rewrite (bool_decide_eq_false_2 _ Hne). split; [done|].
    split; [by intros e' [= <-]|done].
Qed.

(** X13. [get_result] on a handle that is no debug handle and has no
    cached result: the text of the post-processing circuit is read first,
    and when it cannot be read no call is made; otherwise exactly one call
    is made, the retrieval of the job with the timeout, wait and websocket
    arguments of the call, whatever the outcome. An exception of the
    retrieval is the outcome, an answer without a job record gives
    [RuntimeError], and when no result is returned the cache is left as it
    is. *)
Theorem get_result_single_retrieval σ (handle : ResultHandle) kwargs :
  is_debug_handle σ handle.1 = false →
  (∀ res, _cache σ !! handle ≠ Some (Some res)) →
  let q := RetrieveJob handle.1 (kw_use_websocket kwargs) (kw_timeout kwargs)
             (kw_wait kwargs) in
  let answer := retrieve_job api (api_log σ) handle.1 (kw_use_websocket kwargs)
                  (kw_timeout kwargs) (kw_wait kwargs) in
  let out := get_result host api handle kwargs σ in
  (∀ e, circuit_from_json host handle.2 = Raise e → out = (Raise e, σ)) ∧
  (is_ok (circuit_from_json host handle.2) = true →
     api_log out.2 = (api_log σ ++ [q])%list ∧
     (∀ e, answer = Raise e → out.1 = Raise e) ∧
     (answer = Ok None → out.1 = Raise RuntimeError)) ∧
  (is_ok out.1 = false → _cache out.2 = _cache σ).
Proof.
  intros Hnd Hcache q answer out. subst out answer q.
  unfold get_result, Backend_get_result, _retrieve_job, _update_cache_result.
  unfold_m.
  destruct (_cache σ !! handle) as [[res0|]|] eqn:Hc;
    [by destruct (Hcache res0)|..].
  all: rewrite (bool_decide_eq_true_2 _ (eq_refl CircuitNotRunError)).
  all: destruct (circuit_from_json host handle.2) as [pp|e0]; cbn [is_ok];
    [|split; [by intros e [= <-]|by split]].
  all: rewrite Hnd.
  all: destruct (retrieve_job api _ _ _ _ _) as [[job|]|e1];
    cbn [api_log log_call _cache fst snd];
    [|split; [done|]; split; [|done]; split; [done|by split]
     |split; [done|]; split; [|done]; split; [done|];
      split; [by intros e [= <-]|done]].
  all: split; [done|].
  all: destruct (_parse_status host job) as [cs|]; [|by repeat split].
  all: destruct (negb _); [by repeat split|].
  all: destruct (jd_results job) as [payload|]; [|by repeat split].
  all: destruct (_convert_result payload pp) as [backres|];
    by repeat split.
Qed.

(** X14. The handle that debug mode makes for [nq] qubits and [n_shots]
    shots is answered by [get_result] on the spot by every backend, also
    one that is not in debug mode: for a positive shot count the result is
    the table of [n_shots] rows of [nq] zeros, labelled with the bits of
    register [c] from the highest index down; for a shot count that is not
    positive the fetch raises [ValueError]. No call is made on the API
    handler and nothing is put in the cache, so every fetch builds the
    table again. *)
Theorem get_result_debug_prefix σ kwargs nq n_shots pp_str pp :
  let handle : ResultHandle :=
    (_DEBUG_HANDLE_PREFIX ++ str_pair (Z.of_nat nq) n_shots, pp_str) in
  (∀ res, _cache σ !! handle ≠ Some (Some res)) →
  circuit_from_json host pp_str = Ok pp →
  ((0 < n_shots)%Z →
     get_result host api handle kwargs σ
     = (Ok {| c_bits := msb_first "c" nq;
              shots := replicate (Z.to_nat n_shots) (replicate nq 0%N);
              ppcirc := pp |}, σ)) ∧
  ((n_shots ≤ 0)%Z →
     get_result host api handle kwargs σ = (Raise ValueError, σ)) ∧
  (get_result host api handle kwargs σ).2 = σ.
Proof.
  intros handle Hcache Hpp. subst handle.
  pose proof (get_result_debug_handle host api σ kwargs nq n_shots pp_str pp)
    as Hrun.
  cbv zeta in Hrun. rewrite Hrun by done. split; [|split; [|done]].
  - intros Hpos. destruct (Z.to_nat n_shots) as [|k] eqn:Hk; [lia|].
    by rewrite <- Hk.
  - intros Hneg. by replace (Z.to_nat n_shots) with 0 by lia.
Qed.

End result_cache.

Section result_cache_samples.

Lemma sample_get_result :
  get_result sample_host sample_api sample_handle no_kwargs sample_backend
  = (Ok sample_result, retrieved_backend).
Proof. by vm_compute. Qed.

Lemma get_result_idempotent_witness :
  get_result sample_host sample_api sample_handle no_kwargs sample_backend
    = (Ok sample_result, retrieved_backend) ∧
  get_result sample_host sample_api sample_handle no_kwargs retrieved_backend
    = (Ok sample_result, retrieved_backend).
Proof.
  split; [exact sample_get_result|].
  exact (proj1 (get_result_idempotent sample_host sample_api sample_backend
                  sample_handle no_kwargs sample_result retrieved_backend
                  sample_get_result) no_kwargs).
Defined.

Lemma completed_job_decoded :
  _convert_result {[ "c" := ["01"; "11"] ]} None = Ok sample_result.
Proof. by vm_compute. Qed.

Lemma circuit_status_stores_result_witness :
  retrieve_job_status sample_api (api_log fetched_backend) "job-1" true
    = Ok (Some completed_job) ∧
  circuit_status sample_host sample_api sample_handle no_kwargs fetched_backend
    = (Ok {| status := COMPLETED; message := "{}" |}, polled_backend) ∧
  get_result sample_host sample_api sample_handle no_kwargs polled_backend
    = (Ok sample_result, polled_backend).
Proof.
  split; [reflexivity|].
  pose proof (proj1 (circuit_status_stores_result sample_host sample_api
                fetched_backend sample_handle no_kwargs completed_job
                {| status := COMPLETED; message := "{}" |}
                eq_refl eq_refl eq_refl)
              {[ "c" := ["01"; "11"] ]} None eq_refl eq_refl eq_refl) as H.
  rewrite completed_job_decoded in H. destruct H as [Hrun Hget].
  split; [exact Hrun|exact (Hget no_kwargs)].
Defined.

Lemma circuit_status_single_query_witness :
  retrieve_job_status sample_api (api_log fetched_backend) "job-1" true
    = Ok (Some completed_job) ∧
  api_log (circuit_status sample_host sample_api sample_handle no_kwargs
             fetched_backend).2
  = [ Login; MachineList; RetrieveJobStatus "job-1" true ].
Proof.
  split; [reflexivity|].
  refine (proj1 (circuit_status_single_query sample_host sample_api
                   fetched_backend sample_handle no_kwargs eq_refl _)).
  discriminate.
Defined.

Lemma get_result_single_retrieval_witness :
  is_debug_handle sample_backend sample_handle.1 = false ∧
  api_log (get_result sample_host sample_api sample_handle no_kwargs
             sample_backend).2
  = [ RetrieveJob "job-1" None None None ].
Proof.
  split; [reflexivity|].
  exact (proj1 (proj1 (proj2 (get_result_single_retrieval sample_host
                  sample_api sample_backend sample_handle no_kwargs eq_refl
                  (sample_backend_uncached _))) eq_refl)).
Defined.

Lemma get_result_debug_prefix_witness :
  _MACHINE_DEBUG sample_backend = false ∧
  get_result sample_host sample_api debug_sample_handle no_kwargs
    sample_backend
  = (Ok {| c_bits := msb_first "c" 2;
           shots := replicate 10 (replicate 2 0%N);
           ppcirc := None |}, sample_backend).
Proof.
  split; [reflexivity|].
  exact (proj1 (get_result_debug_prefix sample_host sample_api sample_backend
                  no_kwargs 2 10 "null" None (sample_backend_uncached _)
                  eq_refl) eq_refl).
Defined.

End result_cache_samples.

Section submissions.

Context (host : Pytket) (api : QuantinuumAPI).

(** The keys of a request body that [request_options] does not give. *)
Lemma request_body_lookup σ qasm n_shots name noisy group wasm pass no_opt
    options request_options k :
  default ∅ request_options !! k = None → k ≠ "options" →
  request_body σ qasm n_shots name noisy group wasm pass no_opt options
    request_options !! k
  = if String.eqb k "cfl" then JStr <$> wasm
    else if String.eqb k "group" then JStr <$> str_or group (_group σ)
    else (list_to_map
            [ ("name", JStr (default (str_optional (_label σ))
                               (str_or name None)));
              ("count", JInt n_shots); ("machine", JStr (_device_name σ));
              ("language", JStr "OPENQASM 2.0"); ("program", JStr qasm);
              ("priority", JStr "normal") ] : gmap string Json) !! k.
Proof.
  intros Hro Hk. unfold request_body, dict_update.
  rewrite lookup_union_r by done. rewrite lookup_insert_ne by done.
  destruct (String.eqb_spec k "cfl") as [->|Hcfl].
  { destruct wasm as [w|]; [by rewrite lookup_insert_eq|].
    by destruct (str_or group (_group σ)). }
  assert (∀ m : gmap string Json,
            match wasm with Some w => <["cfl" := JStr w]> m | None => m end !! k
            = m !! k) as ->
    by (intros m; destruct wasm; [by rewrite lookup_insert_ne|done]).
  destruct (String.eqb_spec k "group") as [->|Hgroup].
  { by destruct (str_or group (_group σ)); [rewrite lookup_insert_eq|]. }
  by destruct (str_or group (_group σ)); [rewrite lookup_insert_ne|].
Qed.

(** X15. The fixed entries of the request body, when [request_options]
    does not give them: the job is named after the circuit, or after the
    label of the backend when the name is missing or empty (a backend
    without label names it [None]); the shot count, the device name, the
    language, the program and the priority are as given; the group is the
    one of the call and, when that is missing or empty, the one of the
    backend, and there is no [group] entry when both are missing; the WASM
    module is there exactly when one is given. *)
Theorem request_body_defaults σ qasm n_shots name noisy group wasm pass no_opt
    options request_options :
  let body :=
    request_body σ qasm n_shots name noisy group wasm pass no_opt options
      request_options in
  let ro := default ∅ request_options in
  (ro !! "name" = None →
     body !! "name"
     = Some (JStr match name with
                  | Some s => if String.eqb s "" then str_optional (_label σ)
                              else s
                  | None => str_optional (_label σ)
                  end)) ∧
  (ro !! "count" = None → body !! "count" = Some (JInt n_shots)) ∧
  (ro !! "machine" = None → body !! "machine" = Some (JStr (_device_name σ))) ∧
  (ro !! "language" = None → body !! "language" = Some (JStr "OPENQASM 2.0")) ∧
  (ro !! "program" = None → body !! "program" = Some (JStr qasm)) ∧
  (ro !! "priority" = None → body !! "priority" = Some (JStr "normal")) ∧
  (ro !! "group" = None →
     body !! "group"
     = match group with
       | Some g => if String.eqb g "" then JStr <$> _group σ else Some (JStr g)
       | None => JStr <$> _group σ
       end) ∧
  (ro !! "cfl" = None → body !! "cfl" = JStr <$> wasm) ∧
  (∀ k, ro !! k = None →
     k ∉ [ "name"; "count"; "machine"; "language"; "program"; "priority";
           "group"; "cfl"; "options" ] → body !! k = None).
Proof.
  intros body ro. subst body ro.
  repeat split; try (intros Hro; rewrite request_body_lookup by done).
  - cbn. destruct name as [s|]; [|done]. cbn. by destruct (String.eqb s "").
  - done.
  - done.
  - done.
  - done.
  - done.
  - cbn. destruct group as [g|]; [|done]. cbn. by destruct (String.eqb g "").
  - done.
  - intros k Hro Hk. rewrite !not_elem_of_cons in Hk.
    destruct Hk as (? & ? & ? & ? & ? & ? & ? & ? & ? & _).
    rewrite request_body_lookup by done.
    rewrite (proj2 (String.eqb_neq k "cfl")) by done.
    rewrite (proj2 (String.eqb_neq k "group")) by done.
    cbn [list_to_map foldr]. unfold uncurry, Datatypes.uncurry. cbn [fst snd].
    by rewrite !lookup_insert_ne, lookup_empty by done.
Qed.

End submissions.

Section submission_outcomes.

Context (host : Pytket) (api : QuantinuumAPI).

(** X16. A WASM module is refused before anything is sent: on a backend
    whose descriptor does not declare WASM support, [submit_qasm] with a
    WASM module raises [WasmUnsupported] and leaves the backend as it is,
    and so does a turn of the submission loop of [process_circuits] for a
    circuit within the shot limit that the host can write as QASM. *)
Theorem submit_qasm_wasm_unsupported σ bi wasm :
  _backend_info σ = Some bi →
  truthy (misc_get bi "wasm" (JBool false)) = false →
  (∀ qasm n_shots name noisy group pass no_opt options request_options,
     submit_qasm api qasm n_shots name noisy group (Some wasm) pass no_opt
       options request_options σ
     = (Raise WasmUnsupported, σ)) ∧
  (∀ kwargs max_shots circ n_shots,
     _MACHINE_DEBUG σ = false →
     kw_wasm_file_handler kwargs = Some wasm →
     exceeds n_shots max_shots = Ok false →
     (∀ c, is_ok (circuit_to_qasm_str host c) = true) →
     process_circuit_body host api kwargs max_shots circ n_shots σ
     = (Raise WasmUnsupported, σ)).
Proof.
  intros Hbi Hwasm.
  assert (Hsub : ∀ qasm n_shots name noisy group pass no_opt options
                   request_options,
     submit_qasm api qasm n_shots name noisy group (Some wasm) pass no_opt
       options request_options σ
     = (Raise WasmUnsupported, σ)).
  { intros. unfold submit_qasm. unfold bind at 1. unfold get_self at 1.
    unfold bind at 1. rewrite (check_wasm_cached api σ bi (Some wasm) Hbi).
    by rewrite Hwasm. }
  split; [done|].
  intros kwargs max_shots circ n_shots Hd Hkw Hmax Hqasm.
  unfold process_circuit_body.
  unfold bind at 1. unfold get_self at 1.
  unfold bind at 1. unfold lift at 1. rewrite Hmax.
  destruct (if default false (kw_postprocess kwargs) then _ else _)
    as [c0 rep].
  unfold bind at 1. unfold lift at 1. specialize (Hqasm c0).
  destruct (circuit_to_qasm_str host c0) as [qasm|]; [|done].
  rewrite Hd, Hkw. unfold bind at 1. by rewrite Hsub.
Qed.

(** X17. What [submit_qasm] makes of the answer to the one submission it
    sends once the WASM guard has passed: an offline handler gives the
    handle with the empty job id whatever the answer; online, an answer
    with status 200 gives the handle of its job id, or [KeyError] when it
    has none; any other status gives [QuantinuumAPIError] when the answer
    has an error text and [KeyError] otherwise. When the submission raises
    [ConnectionError] or one of its subclasses, a [ConnectionError] is
    raised in its place; any other exception of the submission is the
    outcome. The second part of the handle is always [null]. *)
Theorem submit_qasm_response σ σ1 qasm n_shots name noisy group wasm pass
    no_opt options request_options :
  check_wasm api wasm σ = (Ok tt, σ1) →
  let body :=
    request_body σ qasm n_shots name noisy group wasm pass no_opt options
      request_options in
  let out :=
    submit_qasm api qasm n_shots name noisy group wasm pass no_opt options
      request_options σ in
  out.2 = log_call (SubmitJob body) σ1 ∧
  (∀ e, _submit_job api (api_log σ1) body = Raise e →
     out.1 = Raise (if is_connection_error e then ConnectionError else e)) ∧
  (∀ e, is_connection_error e = true ↔
     e ∈ [ ConnectionError; BrokenPipeError; ConnectionAbortedError;
           ConnectionRefusedError; ConnectionResetError ]) ∧
  (∀ res, _submit_job api (api_log σ1) body = Ok res →
     (online api = false → out.1 = Ok ("", "null")) ∧
     (online api = true → status_code res = 200%Z →
        out.1 = match job res with
                | Some jobid => Ok (jobid, "null")
                | None => Raise (KeyError "job")
                end) ∧
     (online api = true → status_code res ≠ 200%Z →
        out.1 = match error res with
                | Some _ => Raise QuantinuumAPIError
                | None => Raise (KeyError "error")
                end)) ∧
  (∀ h, out.1 = Ok h → h.2 = "null").
Proof.
  intros Hguard body out. subst out.
  rewrite (submit_qasm_after_guard api σ σ1) by done. fold body.
  cbn [fst snd]. split; [done|]. split; [by intros e ->|]. split.
  { intros e. rewrite !elem_of_cons, elem_of_nil.
    destruct e; cbn; naive_solver. }
  split.
  - intros res ->. cbn [rbind reraise_connection_error].
    unfold submitted_handle. split; [by intros ->|].
    split; intros -> Hcode.
    + by rewrite (bool_decide_eq_true_2 _ Hcode).
    + by rewrite (bool_decide_eq_false_2 _ Hcode).
  - intros h. destruct (_submit_job api (api_log σ1) body) as [res|]; [|done].
    cbn [rbind reraise_connection_error]. unfold submitted_handle.
    repeat match goal with
           | |- context [if ?b then _ else _] => destruct b
           | |- context [match ?x with _ => _ end] => destruct x
           end; by intros [= <-].
Qed.

(** [_check_all_circuits] when the required predicates are known. *)
Lemma check_all_circuits_known σ preds circuits :
  required_predicates api σ = (Ok preds, σ) →
  _check_all_circuits host api circuits σ
  = (if forallb (λ c, forallb (λ p, verify host p c) preds) circuits
     then Ok tt else Raise CircuitNotValidError, σ).
Proof.
  intros Hreq. induction circuits as [|c circuits IH]; [done|].
  cbn [_check_all_circuits forallb]. unfold bind at 1. rewrite Hreq.
  destruct (forallb (λ p, verify host p c) preds); [|done]. by rewrite IH.
Qed.

(** X18. The circuits are all checked before any is submitted: when the
    check is asked for and one of the circuits fails a required predicate,
    [process_circuits] raises [CircuitNotValidError] and leaves the backend
    as it is, so nothing is submitted, not even for the valid circuits that
    come before. The predicates of a backend with a descriptor are the
    absence of symbols, the gate set and the number of qubits of the
    device. *)
Theorem process_circuits_invalid_circuit σ preds circuits n_shots kwargs l
    circ p :
  required_predicates api σ = (Ok preds, σ) →
  _get_n_shots_as_list host n_shots (length circuits) = Ok l →
  circ ∈ circuits → p ∈ preds → verify host p circ = false →
  process_circuits host api circuits n_shots true kwargs σ
    = (Raise CircuitNotValidError, σ) ∧
  (∀ bi, _backend_info σ = Some bi → _MACHINE_DEBUG σ = false →
     preds = [ NoSymbolsPredicate; GateSetPredicate (gate_set bi);
               MaxNQubitsPredicate (n_nodes bi) ]).
Proof.
  intros Hreq Hshots Hcirc Hp Hverify. split.
  - unfold process_circuits. unfold bind at 1. unfold lift at 1.
    rewrite Hshots. unfold bind at 1.
    rewrite (check_all_circuits_known σ preds circuits Hreq).
    assert (forallb (λ c, forallb (λ p, verify host p c) preds) circuits
            = false) as ->; [|done].
    apply not_true_is_false. intros Hall.
    rewrite forallb_forall in Hall.
    specialize (Hall circ (proj1 (list_elem_of_In _ _) Hcirc)).
    rewrite forallb_forall in Hall.
    specialize (Hall p (proj1 (list_elem_of_In _ _) Hp)). congruence.
  - intros bi Hbi Hd. revert Hreq.
    unfold required_predicates, _gate_set. unfold_m.
    repeat (first [rewrite Hd | rewrite (backend_info_cached api σ bi Hbi)];
            cbn [negb]).
    by intros [= <-].
Qed.

(** [process_circuits] on a backend with a descriptor: the loop over the
    circuits and their shot counts, from the same state. *)
Lemma process_circuits_cached σ bi circuits ns valid_check kwargs hs σ' :
  _backend_info σ = Some bi →
  process_circuits host api circuits ns valid_check kwargs σ = (Ok hs, σ') →
  ∃ l, _get_n_shots_as_list host ns (length circuits) = Ok l ∧
    process_circuits_loop host api kwargs (misc_get bi "n_shots" JNull)
      (zip circuits l) σ = (Ok hs, σ').
Proof.
  intros Hbi. unfold process_circuits.
  unfold bind at 1. unfold lift at 1.
  destruct (_get_n_shots_as_list host ns _) as [l|]; [|done].
  unfold bind at 1.
  assert (∃ r, (if valid_check then _check_all_circuits host api circuits
                else ret tt) σ = (r, σ)) as [r ->].
  { destruct valid_check; [|by eexists].
    pose proof (check_all_circuits_cached host api σ bi circuits Hbi) as Hcheck.
    destruct (_check_all_circuits host api circuits σ) as [r σ0].
    cbn in Hcheck. subst σ0. by eexists. }
  destruct r as [[]|]; [|done].
  unfold bind at 1. rewrite (backend_info_cached api σ bi) by done.
  unfold bind at 1. unfold bind at 1.
  rewrite (backend_info_cached api σ bi) by done. unfold ret at 1.
  intros Hloop. by exists l.
Qed.

(** One turn of the loop on a device with a cached descriptor: the circuit
    is written as QASM, the body built from it is submitted, and the
    handle is made of the job id of the answer and of the text of the
    post-processing circuit. *)
Lemma process_circuit_body_turn σ bi kwargs max_shots circ n
    (h : ResultHandle) σ' :
  _backend_info σ = Some bi → _MACHINE_DEBUG σ = false →
  process_circuit_body host api kwargs max_shots circ n σ = (Ok h, σ') →
  ∃ qasm res,
    circuit_to_qasm_str host (loop_circuits host kwargs circ).1 = Ok qasm ∧
    σ' = set_cache (<[h := None]> (_cache σ))
           (log_call (SubmitJob (loop_request_body kwargs σ qasm circ n)) σ) ∧
    _submit_job api (api_log σ) (loop_request_body kwargs σ qasm circ n)
      = Ok res ∧
    submitted_handle api res = Ok (h.1, "null") ∧
    h.2 = dumps_ppcirc_rep host (loop_circuits host kwargs circ).2.
Proof.
  intros Hbi Hd. unfold process_circuit_body, loop_circuits.
  unfold bind at 1. unfold get_self at 1.
  unfold bind at 1. unfold lift at 1.
  destruct (exceeds n max_shots) as [[|]|]; [done| |done].
  destruct (if default false (kw_postprocess kwargs) then _ else _)
    as [c0 rep].
  unfold bind at 1. unfold lift at 1. cbn [fst snd].
  destruct (circuit_to_qasm_str host c0) as [qasm|]; [|done].
  rewrite Hd. unfold bind at 1.
  pose proof (check_wasm_cached api σ bi (kw_wasm_file_handler kwargs) Hbi)
    as Hguard.
  destruct (match kw_wasm_file_handler kwargs with
            | Some _ => if negb _ then _ else _
            | None => Ok ()
            end) as [[]|e] eqn:Hg.
  2:{ unfold submit_qasm. unfold bind at 1. unfold get_self at 1.
      unfold bind at 1. rewrite Hguard. intros [=]. }
  rewrite (submit_qasm_after_guard api σ σ _ _ _ _ _ _ _ _ _ _ Hguard).
  cbn zeta. fold (loop_request_body kwargs σ qasm circ n).
  destruct (_submit_job api (api_log σ) _) as [res|] eqn:Hres;
    [|intros [=]].
  cbn [rbind reraise_connection_error].
  destruct (submitted_handle api res) as [[jobid null]|] eqn:Hsub;
    [|intros [=]].
  assert (null = "null") as ->.
  { unfold submitted_handle in Hsub.
    repeat match type of Hsub with
           | (if ?b then _ else _) = _ => destruct b
           | match ?x with _ => _ end = _ => destruct x
           end; by simplify_eq. }
  unfold_m. cbn. intros [= <- <-]. by exists qasm, res.
Qed.

(** The body of a submission depends on the configuration of the backend
    only, which a turn of the loop leaves as it is. *)
Lemma loop_request_body_turn kwargs σ c call qasm circ n :
  loop_request_body kwargs (set_cache c (log_call call σ)) qasm circ n
  = loop_request_body kwargs σ qasm circ n.
Proof. reflexivity. Qed.

(** The loop of [process_circuits]: the handle at each position comes from
    the submission of the circuit at that position, sent after the
    submissions of the circuits before it. *)
Lemma process_circuits_loop_turns σ bi kwargs max_shots l hs σ' :
  _backend_info σ = Some bi → _MACHINE_DEBUG σ = false →
  process_circuits_loop host api kwargs max_shots l σ = (Ok hs, σ') →
  ∃ bodies, length bodies = length l ∧
    api_log σ' = (api_log σ ++ (SubmitJob <$> bodies))%list ∧
    ∀ i h, hs !! i = Some h →
      ∃ circ n qasm res,
        l !! i = Some (circ, n) ∧
        circuit_to_qasm_str host (loop_circuits host kwargs circ).1 = Ok qasm ∧
        bodies !! i = Some (loop_request_body kwargs σ qasm circ n) ∧
        _submit_job api (api_log σ ++ (SubmitJob <$> take i bodies))%list
          (loop_request_body kwargs σ qasm circ n) = Ok res ∧
        submitted_handle api res = Ok (h.1, "null") ∧
        h.2 = dumps_ppcirc_rep host (loop_circuits host kwargs circ).2.
Proof.
  revert σ hs σ'. induction l as [|[circ n] l IH]; intros σ hs σ' Hbi Hd.
  - cbn. intros [= <- <-]. exists []. split; [done|].
    split; [by rewrite app_nil_r|]. by intros i h ?.
  - rewrite process_circuits_loop_cons.
    destruct (process_circuit_body _ _ _ _ _ _ σ) as [[h|] σ0] eqn:Hbody;
      [|done].
    destruct (process_circuit_body_turn _ _ _ _ _ _ _ _ Hbi Hd Hbody)
      as (qasm & res & Hqasm & -> & Hres & Hsub & Hpp).
    destruct (process_circuits_loop _ _ _ _ l _) as [[hs0|] σ1] eqn:Hloop;
      [|done].
    intros [= <- <-].
    destruct (IH (set_cache (<[h := None]> (_cache σ))
                    (log_call (SubmitJob (loop_request_body kwargs σ qasm
                                            circ n)) σ))
                hs0 σ1 Hbi Hd Hloop) as (bodies & Hb & Hlog & Hturn).
    exists (loop_request_body kwargs σ qasm circ n :: bodies).
    split; [cbn; by rewrite Hb|]. split.
    { rewrite Hlog. cbn. by rewrite <- app_assoc. }
    intros [|i] h'.
    + cbn. intros [= <-]. exists circ, n, qasm, res.
      by rewrite app_nil_r.
    + cbn [lookup list_lookup]. intros Hh'.
      destruct (Hturn i h' Hh') as (c & k & q & r & Hl & Hq & Hbd & Hr & Hs & Hp).
      exists c, k, q, r. rewrite !loop_request_body_turn in Hbd, Hr.
      split; [done|]. split; [done|]. split; [done|].
      split; [|done]. cbn in Hr |- *. by rewrite <- app_assoc in Hr.
Qed.

Lemma process_circuits_loop_submissions σ bi kwargs max_shots l hs σ' :
  _backend_info σ = Some bi → _MACHINE_DEBUG σ = false →
  process_circuits_loop host api kwargs max_shots l σ = (Ok hs, σ') →
  length hs = length l ∧
  (∀ h, h ∈ hs → _cache σ' !! h = Some None) ∧
  (∀ h, h ∉ hs → _cache σ' !! h = _cache σ !! h).
Proof.
  revert σ hs σ'. induction l as [|[circ n] l IH]; intros σ hs σ' Hbi Hd.
  - cbn. intros [= <- <-]. split; [done|].
    split; [by intros h ?%elem_of_nil|done].
  - rewrite process_circuits_loop_cons.
    destruct (process_circuit_body _ _ _ _ _ _ σ) as [[h|] σ0] eqn:Hbody;
      [|done].
    destruct (process_circuit_body_submits host api _ _ _ _ _ _ _ _ Hbi Hd Hbody)
      as (body & res & -> & _).
    destruct (process_circuits_loop _ _ _ _ l _) as [[hs0|] σ1] eqn:Hloop;
      [|done].
    intros [= <- <-].
    destruct (IH (set_cache (<[h := None]> (_cache σ))
                    (log_call (SubmitJob body) σ)) hs0 σ1 Hbi Hd Hloop)
      as (Hlen & Hin & Hout).
    split; [cbn; by rewrite Hlen|]. split.
    + intros h' [->|Hh']%elem_of_cons; [|by apply Hin].
      destruct (decide (h ∈ hs0)) as [Hh|Hh]; [by apply Hin|].
      rewrite Hout by done. cbn. by rewrite lookup_insert_eq.
    + intros h' [Hne Hh']%not_elem_of_cons. rewrite Hout by done.
      cbn. by rewrite lookup_insert_ne.
Qed.

(** X19. On a backend with a descriptor, outside debug mode, a call of
    [process_circuits] that returns has made one call on the API handler
    per handle, in the order of the circuits, and there is one handle per
    circuit and shot count. The call at a position is the submission of
    the circuit at that position: its body is the request built from the
    QASM of that circuit (of its prepared version when the results are to
    be post-processed), from the shot count at that position and from the
    name of the circuit; the handle at that position holds the job id of
    the answer to that submission, and the text of the post-processing
    circuit. Every returned handle has an entry without result in the
    cache, also when a result was cached under it before, so that the
    cache of the host framework reports it as not run; the entries of all
    other handles are as before. *)
Theorem process_circuits_submissions σ bi circuits ns valid_check kwargs hs σ' :
  _backend_info σ = Some bi → _MACHINE_DEBUG σ = false →
  process_circuits host api circuits ns valid_check kwargs σ = (Ok hs, σ') →
  (∃ l bodies,
     _get_n_shots_as_list host ns (length circuits) = Ok l ∧
     length hs = min (length circuits) (length l) ∧
     length bodies = length hs ∧
     api_log σ' = (api_log σ ++ (SubmitJob <$> bodies))%list ∧
     ∀ i h, hs !! i = Some h →
       ∃ circ n qasm res,
         circuits !! i = Some circ ∧ l !! i = Some n ∧
         circuit_to_qasm_str host (loop_circuits host kwargs circ).1
           = Ok qasm ∧
         bodies !! i = Some (loop_request_body kwargs σ qasm circ n) ∧
         _submit_job api (api_log σ ++ (SubmitJob <$> take i bodies))%list
           (loop_request_body kwargs σ qasm circ n) = Ok res ∧
         submitted_handle api res = Ok (h.1, "null") ∧
         h.2 = dumps_ppcirc_rep host (loop_circuits host kwargs circ).2) ∧
  (∀ h, h ∈ hs →
     _cache σ' !! h = Some None ∧
     Backend_get_result h σ' = (Raise CircuitNotRunError, σ')) ∧
  (∀ h, h ∉ hs → _cache σ' !! h = _cache σ !! h).
Proof.
  intros Hbi Hd Hrun.
  destruct (process_circuits_cached _ _ _ _ _ _ _ _ Hbi Hrun) as (l & Hl & Hloop).
  destruct (process_circuits_loop_submissions _ _ _ _ _ _ _ Hbi Hd Hloop)
    as (Hlen & Hin & Hout).
  destruct (process_circuits_loop_turns _ _ _ _ _ _ _ Hbi Hd Hloop)
    as (bodies & Hb & Hlog & Hturn).
  rewrite length_zip in Hlen, Hb.
  split.
  { exists l, bodies. split; [done|]. split; [done|]. split; [lia|].
    split; [done|]. intros i h Hh.
    destruct (Hturn i h Hh) as (c & k & q & r & Hz & Hrest).
    apply lookup_zip_with_Some in Hz as (c' & k' & [= <- <-] & Hc & Hk).
    by exists c, k, q, r. }
  split; [|done]. intros h Hh. split; [by apply Hin|].
  unfold Backend_get_result. unfold_m. by rewrite (Hin h Hh).
Qed.

End submission_outcomes.

Section submission_samples.

Lemma submit_qasm_wasm_unsupported_witness :
  truthy (misc_get {| device_name := "H1-1"; n_nodes := 20;
                      gate_set := _GATE_SET; misc := ∅ |} "wasm" (JBool false))
    = false ∧
  submit_qasm sample_api "OPENQASM 2.0;" 10 None true None (Some "module") None
    false None None bare_backend
  = (Raise WasmUnsupported, bare_backend).
Proof.
  split; [reflexivity|].
  exact (proj1 (submit_qasm_wasm_unsupported sample_host sample_api
                  bare_backend _ "module" eq_refl eq_refl)
           "OPENQASM 2.0;" 10%Z None true None None false None None).
Defined.

Lemma submit_qasm_response_witness :
  check_wasm sample_api None sample_backend = (Ok tt, sample_backend) ∧
  (submit_qasm sample_api "OPENQASM 2.0;" 10 None true None None None false
     None None sample_backend).1
  = Ok ("job-1", "null").
Proof.
  split; [reflexivity|].
  exact (proj1 (proj2 (proj1 (proj2 (proj2 (proj2 (submit_qasm_response sample_api
           sample_backend sample_backend "OPENQASM 2.0;" 10 None true None
           None None false None None eq_refl))))
           {| status_code := 200; job := Some "job-1"; error := None |}
           eq_refl)) eq_refl eq_refl).
Defined.

Lemma sample_required_predicates :
  required_predicates sample_api fetched_backend
  = (Ok sample_predicates, fetched_backend).
Proof. by vm_compute. Qed.

Lemma process_circuits_invalid_circuit_witness :
  verify sample_host NoSymbolsPredicate symbolic_circuit = false ∧
  process_circuits sample_host sample_api
    [one_qubit_two_bits; symbolic_circuit] (IntShots 10) true no_kwargs
    fetched_backend
  = (Raise CircuitNotValidError, fetched_backend).
Proof.
  split; [reflexivity|].
  refine (proj1 (process_circuits_invalid_circuit sample_host sample_api
            fetched_backend sample_predicates
            [one_qubit_two_bits; symbolic_circuit] (IntShots 10) no_kwargs
            [10%Z; 10%Z] symbolic_circuit NoSymbolsPredicate
            sample_required_predicates eq_refl _ _ eq_refl)).
  - apply list_elem_of_further, list_elem_of_here.
  - apply list_elem_of_here.
Defined.

Lemma submitted_returns : submitted = (Ok [sample_handle], submitted.2).
Proof. by vm_compute. Qed.

Lemma process_circuits_submissions_witness :
  submitted.1 = Ok [sample_handle] ∧
  _cache submitted.2 !! sample_handle = Some None ∧
  ∃ bodies, length bodies = 1 ∧
    api_log submitted.2
    = (api_log fetched_backend ++ (SubmitJob <$> bodies))%list ∧
    ∃ qasm,
      circuit_to_qasm_str sample_host one_qubit_two_bits = Ok qasm ∧
      bodies !! 0
      = Some (loop_request_body no_kwargs fetched_backend qasm
                one_qubit_two_bits 10).
Proof.
  split; [by vm_compute|].
  destruct (process_circuits_submissions sample_host sample_api
              fetched_backend sample_descriptor [one_qubit_two_bits]
              (IntShots 10) true no_kwargs [sample_handle] submitted.2
              eq_refl eq_refl submitted_returns)
    as ((l & bodies & Hl & _ & Hlen & Hlog & Hturn) & Hin & _).
  split; [exact (proj1 (Hin sample_handle (list_elem_of_here _ _)))|].
  exists bodies. split; [exact Hlen|]. split; [exact Hlog|].
  destruct (Hturn 0 sample_handle eq_refl)
    as (circ & n & qasm & res & Hc & Hn & Hq & Hb & _).
  injection Hl as <-. injection Hc as <-. injection Hn as <-.
  exists qasm. split; [exact Hq|exact Hb].
Defined.

End submission_samples.

Section batches.

Context (host : Pytket) (api : QuantinuumAPI).

(** One turn of the loop on a device with a cached descriptor, with the
    body that is submitted. *)
Lemma process_circuit_body_request σ bi kwargs max_shots circ n
    (h : ResultHandle) σ' :
  _backend_info σ = Some bi → _MACHINE_DEBUG σ = false →
  process_circuit_body host api kwargs max_shots circ n σ = (Ok h, σ') →
  ∃ qasm,
    let body :=
      request_body σ qasm n (str_or (circ_name circ) None)
        (default true (kw_noisy_simulation kwargs))
        (default (_group σ) (kw_group kwargs)) (kw_wasm_file_handler kwargs)
        (kw_pytketpass kwargs) (default false (kw_no_opt kwargs))
        (Some (default ∅ (kw_options kwargs)))
        (Some (default ∅ (kw_request_options kwargs))) in
    σ' = set_cache (<[h := None]> (_cache σ)) (log_call (SubmitJob body) σ).
Proof.
  intros Hbi Hd. unfold process_circuit_body.
  unfold bind at 1. unfold get_self at 1.
  unfold bind at 1. unfold lift at 1.
  destruct (exceeds n max_shots) as [[|]|]; [done| |done].
  destruct (if default false (kw_postprocess kwargs) then _ else _)
    as [c0 rep].
  unfold bind at 1. unfold lift at 1.
  destruct (circuit_to_qasm_str host c0) as [qasm|]; [|done].
  rewrite Hd. unfold bind at 1.
  pose proof (check_wasm_cached api σ bi (kw_wasm_file_handler kwargs) Hbi)
    as Hguard.
  destruct (match kw_wasm_file_handler kwargs with
            | Some _ => if negb _ then _ else _
            | None => Ok ()
            end) as [[]|e] eqn:Hg.
  2:{ unfold submit_qasm. unfold bind at 1. unfold get_self at 1.
      unfold bind at 1. rewrite Hguard. intros [=]. }
  rewrite (submit_qasm_after_guard api σ σ _ _ _ _ _ _ _ _ _ _ Hguard).
  cbn zeta.
  destruct (_submit_job api (api_log σ) _) as [res|]; [|intros [=]].
  cbn [rbind reraise_connection_error].
  destruct (submitted_handle api res) as [[jobid null]|];
    [|intros [=]].
  unfold_m. cbn. intros [= <- <-]. by exists qasm.
Qed.

Lemma check_batchable_cached σ bi :
  _backend_info σ = Some bi →
  _check_batchable api σ
  = (if negb (truthy (misc_get bi "batching" (JBool false)))
     then Raise BatchingUnsupported else Ok tt, σ).
Proof.
  intros Hbi. unfold _check_batchable. unfold bind.
  rewrite !(backend_info_cached api σ bi) by done. by destruct (negb _).
Qed.

(** X20. On a backend with a descriptor, outside debug mode, a call of
    [add_to_batch] that returns a handle was made on a device that
    declares batching, and has made exactly one call on the API handler,
    the submission of a body whose [batch-exec] is the job id of the head
    of the batch and which has a [batch-end] entry, [true], exactly when
    the end of the batch is signalled; the job is not polled afterwards.
    The handle has an entry without result in the cache. The request
    options that the caller passes are replaced: they change nothing. *)
Theorem add_to_batch_request σ bi (head : ResultHandle) circ ns batch_end
    valid_check kwargs (h : ResultHandle) σ' :
  _backend_info σ = Some bi → _MACHINE_DEBUG σ = false →
  add_to_batch host api head circ ns batch_end valid_check kwargs σ
    = (Ok h, σ') →
  truthy (misc_get bi "batching" (JBool false)) = true ∧
  (∃ body,
     api_log σ' = (api_log σ ++ [SubmitJob body])%list ∧
     body !! "batch-exec" = Some (JStr head.1) ∧
     body !! "batch-end" = (if batch_end then Some (JBool true) else None)) ∧
  _cache σ' !! h = Some None ∧
  ∀ request_options,
    add_to_batch host api head circ ns batch_end valid_check
      (set_request_options request_options kwargs) σ = (Ok h, σ').
Proof.
  intros Hbi Hd Hrun.
  assert (Hsame : ∀ request_options,
    add_to_batch host api head circ ns batch_end valid_check
      (set_request_options request_options kwargs) σ
    = add_to_batch host api head circ ns batch_end valid_check kwargs σ)
    by done.
  split; [|split; [|split; [|by intros ro; rewrite Hsame]]]; revert Hrun;
    unfold add_to_batch; unfold bind at 1;
    rewrite (check_batchable_cached σ bi Hbi);
    (destruct (negb _) eqn:Hbatch; [done|]).
  - intros _. by apply negb_false_iff.
  - unfold bind at 1.
    destruct (process_circuits _ _ _ _ _ _ σ) as [[hs|] σ1] eqn:Hproc; [|done].
    apply (process_circuits_one_cached host api σ bi) in Hproc as
      [[-> ->]|(h1 & n & -> & Hbody)]; [done| |done..].
    intros [= <- <-].
    destruct (process_circuit_body_request _ _ _ _ _ _ _ _ Hbi Hd Hbody)
      as (qasm & ->).
    eexists. split; [done|]. cbn [kw_request_options set_request_options].
    cbn [default]. split.
    + unfold request_body, dict_update. apply lookup_union_Some_l. cbn [default].
      destruct batch_end; cbv iota; cbv [id];
        [rewrite lookup_insert_ne by done|]; apply lookup_singleton_eq.
    + destruct batch_end; cbv iota; cbv [id].
      * unfold request_body, dict_update. apply lookup_union_Some_l.
        cbn [default]. apply lookup_insert_eq.
      * rewrite request_body_lookup; [done| |done].
        cbn [default from_option]. cbv [id]. by rewrite lookup_singleton_ne.
  - unfold bind at 1.
    destruct (process_circuits _ _ _ _ _ _ σ) as [[hs|] σ1] eqn:Hproc; [|done].
    apply (process_circuits_one_cached host api σ bi) in Hproc as
      [[-> ->]|(h1 & n & -> & Hbody)]; [done| |done..].
    intros [= <- <-].
    destruct (process_circuit_body_request _ _ _ _ _ _ _ _ Hbi Hd Hbody)
      as (qasm & ->).
    cbn. by rewrite lookup_insert_eq.
Qed.

End batches.

Section status_message.

Context (host : Pytket) (api : QuantinuumAPI).

(** X21. The status that [_parse_status] returns is the entry of the
    status table for the record's status string, and its message is the
    text of a dictionary with exactly six keys, the name, the two dates,
    the queue position, the cost and the error of the record, a missing
    one being [null]. Nothing else of the record goes into the status: a
    record with the same status string and the same six fields gives the
    same status and message. *)
Theorem parse_status_message response cs :
  _parse_status host response = Ok cs →
  (∃ s (msgdict : gmap string Json),
     jd_status response = Some s ∧ _STATUS_MAP !! s = Some (status cs) ∧
     message cs = json_dumps host msgdict ∧
     (∀ k, k ∈ status_message_keys →
        msgdict !! k = Some (default JNull (jd_info response !! k))) ∧
     (∀ k, k ∉ status_message_keys → msgdict !! k = None)) ∧
  (∀ response',
     jd_status response' = jd_status response →
     (∀ k, k ∈ status_message_keys →
        jd_info response' !! k = jd_info response !! k) →
     _parse_status host response' = Ok cs).
Proof.
  unfold _parse_status.
  destruct (jd_status response) as [s|] eqn:Hs; [|done].
  destruct (_STATUS_MAP !! s) as [st|] eqn:Hst; [|done].
  intros [= <-]. cbn [status message]. split.
  - exists s. eexists. split; [done|]. split; [done|]. split; [done|]. split.
    + intros k Hk. unfold status_message_keys in Hk.
      rewrite !elem_of_cons, elem_of_nil in Hk.
      destruct Hk as [->|[->|[->|[->|[->|[->|[]]]]]]]; done.
    + intros k Hk. unfold status_message_keys in Hk.
      rewrite !not_elem_of_cons in Hk. destruct Hk as (? & ? & ? & ? & ? & ? & _).
      by rewrite !lookup_insert_ne, lookup_empty by done.
  - intros response' -> Hinfo. rewrite Hst. do 4 f_equal.
    by rewrite <- !Hinfo
      by (unfold status_message_keys; rewrite !elem_of_cons; auto 10).
Qed.

(** X22. The job id of a handle made in debug mode holds the number of
    qubits of the circuit and the number of shots, and nothing else of the
    circuit: both can be read back from it, and two submissions get the
    same job id exactly when they agree on both numbers, whatever the
    circuits are. Without post-processing the second part of the handle is
    [null]. *)
Theorem debug_handle_encodes σ kwargs c1 n1 c2 n2 (h1 h2 : ResultHandle)
    σ1 σ2 :
  _MACHINE_DEBUG σ = true →
  process_circuit_body host api kwargs JNull c1 n1 σ = (Ok h1, σ1) →
  process_circuit_body host api kwargs JNull c2 n2 σ = (Ok h2, σ2) →
  literal_eval_pair (str_drop (String.length _DEBUG_HANDLE_PREFIX) h1.1)
    = Ok (Z.of_nat (n_qubits c1), n1) ∧
  (h1.1 = h2.1 ↔ n_qubits c1 = n_qubits c2 ∧ n1 = n2) ∧
  (default false (kw_postprocess kwargs) = false → h1.2 = "null").
Proof.
  intros Hd. rewrite !process_circuit_body_debug by done.
  intros [= H1 <-] [= H2 <-].
  pose proof (debug_handle_jobid _ _ _ _ _ H1) as Hid1.
  pose proof (debug_handle_jobid _ _ _ _ _ H2) as Hid2.
  assert (Hread : ∀ a b,
    literal_eval_pair (str_drop (String.length _DEBUG_HANDLE_PREFIX)
                         (_DEBUG_HANDLE_PREFIX ++ str_pair a b)) = Ok (a, b)).
  { intros a b.
    by rewrite (str_drop_app _DEBUG_HANDLE_PREFIX), literal_eval_str_pair. }
  split; [by rewrite Hid1|]. split.
  - rewrite Hid1, Hid2. split.
    + intros Heq.
      pose proof (Hread (Z.of_nat (n_qubits c1)) n1) as Hr. rewrite Heq in Hr.
      rewrite Hread in Hr. injection Hr as Hq Hn. split; [lia|done].
    + by intros [-> ->].
  - intros Hpp. unfold debug_handle in H1. rewrite Hpp in H1.
    destruct (circuit_to_qasm_str host c1); [|done]. by injection H1 as <-.
Qed.

End status_message.

Section batch_samples.

Lemma added_to_batch_returns :
  added_to_batch = (Ok sample_handle, added_to_batch.2).
Proof. by vm_compute. Qed.

Lemma add_to_batch_request_witness :
  added_to_batch.1 = Ok sample_handle ∧
  ∃ body,
    api_log added_to_batch.2
    = (api_log fetched_backend ++ [SubmitJob body])%list ∧
    body !! "batch-exec" = Some (JStr "job-1") ∧
    body !! "batch-end" = Some (JBool true).
Proof.
  split; [by vm_compute|].
  exact (proj1 (proj2 (add_to_batch_request sample_host sample_api
           fetched_backend sample_descriptor sample_handle one_qubit_two_bits
           (IntShots 10) true true no_kwargs sample_handle added_to_batch.2
           eq_refl eq_refl added_to_batch_returns))).
Defined.

Lemma completed_job_status :
  _parse_status sample_host completed_job
  = Ok {| status := COMPLETED; message := "{}" |}.
Proof. by vm_compute. Qed.

Lemma parse_status_message_witness :
  _parse_status sample_host completed_job
    = Ok {| status := COMPLETED; message := "{}" |} ∧
  ∃ s (msgdict : gmap string Json),
    jd_status completed_job = Some s ∧
    msgdict !! "name" = Some (JStr "job") ∧
    msgdict !! "cost" = Some JNull ∧
    msgdict !! "results" = None.
Proof.
  split; [exact completed_job_status|].
  destruct (proj1 (parse_status_message sample_host completed_job _
                     completed_job_status))
    as (s & msgdict & Hs & _ & _ & Hin & Hout).
  exists s, msgdict. split; [exact Hs|].
  split; [|split].
  - apply (Hin "name"). apply list_elem_of_here.
  - apply (Hin "cost"). do 4 apply list_elem_of_further. apply list_elem_of_here.
  - apply Hout. unfold status_message_keys.
    rewrite !not_elem_of_cons. repeat split; try discriminate.
    apply not_elem_of_nil.
Defined.

Lemma debug_turn_measured :
  process_circuit_body sample_host sample_api no_kwargs JNull
    one_qubit_two_bits 3 debug_backend
  = (Ok ("_MACHINE_DEBUG_(1, 3)", "null"), debug_backend).
Proof. by vm_compute. Qed.

Lemma debug_turn_symbolic :
  process_circuit_body sample_host sample_api no_kwargs JNull
    symbolic_circuit 3 debug_backend
  = (Ok ("_MACHINE_DEBUG_(1, 3)", "null"), debug_backend).
Proof. by vm_compute. Qed.

Lemma debug_handle_encodes_witness :
  _MACHINE_DEBUG debug_backend = true ∧
  process_circuit_body sample_host sample_api no_kwargs JNull
    one_qubit_two_bits 3 debug_backend
    = process_circuit_body sample_host sample_api no_kwargs JNull
        symbolic_circuit 3 debug_backend ∧
  literal_eval_pair
    (str_drop (String.length _DEBUG_HANDLE_PREFIX) "_MACHINE_DEBUG_(1, 3)")
  = Ok (1%Z, 3%Z).
Proof.
  split; [reflexivity|].
  split; [by rewrite debug_turn_measured, debug_turn_symbolic|].
  exact (proj1 (debug_handle_encodes sample_host sample_api debug_backend
                  no_kwargs one_qubit_two_bits 3 symbolic_circuit 3
                  ("_MACHINE_DEBUG_(1, 3)", "null")
                  ("_MACHINE_DEBUG_(1, 3)", "null") debug_backend debug_backend
                  eq_refl debug_turn_measured debug_turn_symbolic)).
Defined.

End batch_samples.

Section frames.

Context (host : Pytket) (api : QuantinuumAPI).

Lemma frame_refl σ : frame σ σ.
Proof.
  repeat split; try done. exists []. by rewrite app_nil_r.
Qed.

Lemma frame_trans σ1 σ2 σ3 : frame σ1 σ2 → frame σ2 σ3 → frame σ1 σ3.
Proof.
  intros (? & ? & ? & ? & ? & ? & [c1 Hc1] & Hbi1 & Hca1)
         (? & ? & ? & ? & ? & ? & [c2 Hc2] & Hbi2 & Hca2).
  repeat split; try congruence; [|auto..].
  exists (c1 ++ c2)%list. by rewrite Hc2, Hc1, app_assoc.
Qed.

Lemma frame_log_call c σ : frame σ (log_call c σ).
Proof. repeat split; try done. by exists [c]. Qed.

Lemma frame_set_cache h v σ : frame σ (set_cache (<[h := v]> (_cache σ)) σ).
Proof.
  repeat split; try done; [exists []; by rewrite app_nil_r|].
  intros h' Hh'. cbn. destruct (decide (h' = h)) as [->|Hne].
  - rewrite lookup_insert_eq. by eexists.
  - by rewrite lookup_insert_ne.
Qed.

Lemma frame_set_backend_info bi σ :
  _backend_info σ = None → frame σ (set_backend_info (Some bi) σ).
Proof.
  intros Hnone. repeat split; try done; [exists []; by rewrite app_nil_r|].
  intros bi'. by rewrite Hnone.
Qed.

Lemma keeps_ret {A} (a : A) : keeps_frame (ret a).
Proof. intros σ r σ' [= <- <-]. apply frame_refl. Qed.

Lemma keeps_raise {A} e : keeps_frame (raise (A := A) e).
Proof. intros σ r σ' [= <- <-]. apply frame_refl. Qed.

Lemma keeps_lift {A} (x : Result A) : keeps_frame (lift x).
Proof. intros σ r σ' [= <- <-]. apply frame_refl. Qed.

Lemma keeps_get_self : keeps_frame get_self.
Proof. intros σ r σ' [= <- <-]. apply frame_refl. Qed.

Lemma keeps_api_call {A} c (answer : list ApiCall → Result A) :
  keeps_frame (api_call c answer).
Proof.
  intros σ r σ'. unfold api_call. intros [= <- <-]. apply frame_log_call.
Qed.

Lemma keeps_bind {A B} (m : M A) (k : A → M B) :
  keeps_frame m → (∀ a, keeps_frame (k a)) → keeps_frame (bind m k).
Proof.
  intros Hm Hk σ r σ'. unfold bind.
  destruct (m σ) as [[a|e] σ1] eqn:Hrun.
  - intros Hrun'. eapply frame_trans; [by eapply Hm|by eapply Hk].
  - intros [= <- <-]. by eapply Hm.
Qed.

Lemma keeps_try_except {A} (m : M A) handles handler :
  keeps_frame m → (∀ e, keeps_frame (handler e)) →
  keeps_frame (try_except m handles handler).
Proof.
  intros Hm Hh σ r σ'. unfold try_except.
  destruct (m σ) as [[a|e] σ1] eqn:Hrun.
  - intros [= <- <-]. by eapply Hm.
  - destruct (handles e).
    + intros Hrun'. eapply frame_trans; [by eapply Hm|by eapply Hh].
    + intros [= <- <-]. by eapply Hm.
Qed.

Lemma keeps_update_cache_result h res :
  keeps_frame (_update_cache_result h res).
Proof.
  intros σ r σ'. unfold _update_cache_result, modify. intros [= <- <-].
  apply frame_set_cache.
Qed.

Lemma keeps_backend_info : keeps_frame (backend_info api).
Proof.
  intros σ r σ'. unfold backend_info, _retrieve_backendinfo,
    _available_devices. unfold_m.
  destruct (_backend_info σ) as [bi0|] eqn:Hbi;
    [intros [= <- <-]; apply frame_refl|].
  destruct (_MACHINE_DEBUG σ); cbn [negb];
    [intros [= <- <-]; apply frame_refl|].
  destruct (login api (api_log σ)) as [token|];
    [|intros [= <- <-]; apply frame_log_call].
  cbn [api_log log_call].
  assert (Hlog : frame σ (log_call MachineList (log_call Login σ)))
    by (eapply frame_trans; apply frame_log_call).
  destruct (machine_list api _) as [jr|]; [|by intros [= <- <-]].
  destruct (find_machine _ jr) as [entry|]; [|by intros [= <- <-]].
  cbn [_process_circuits_options log_call].
  destruct (_dict_to_backendinfo _) as [bi1|]; [|by intros [= <- <-]].
  intros [= <- <-]. eapply frame_trans; [exact Hlog|].
  by apply frame_set_backend_info.
Qed.

Create HintDb frame discriminated.

#[local] Hint Resolve keeps_ret keeps_raise keeps_lift keeps_get_self
  keeps_api_call keeps_update_cache_result keeps_backend_info : frame.
#[local] Hint Extern 2 (keeps_frame (bind _ _)) =>
  apply keeps_bind; [|intros ?] : frame.
#[local] Hint Extern 2 (keeps_frame (try_except _ _ _)) =>
  apply keeps_try_except; [|intros ?] : frame.
#[local] Hint Extern 3 (keeps_frame _) =>
  match goal with
  | |- keeps_frame (match ?x with _ => _ end) => destruct x
  end : frame.

Lemma keeps_gate_set : keeps_frame (_gate_set api).
Proof. unfold _gate_set. auto 20 with frame. Qed.

#[local] Hint Resolve keeps_gate_set : frame.

Lemma keeps_required_predicates : keeps_frame (required_predicates api).
Proof. unfold required_predicates. auto 20 with frame. Qed.

#[local] Hint Resolve keeps_required_predicates : frame.

Lemma keeps_check_all_circuits circuits :
  keeps_frame (_check_all_circuits host api circuits).
Proof.
  induction circuits as [|c circuits IH]; cbn [_check_all_circuits];
    auto 20 with frame.
Qed.

Lemma keeps_check_wasm wasm : keeps_frame (check_wasm api wasm).
Proof. unfold check_wasm. auto 20 with frame. Qed.

#[local] Hint Resolve keeps_check_all_circuits keeps_check_wasm : frame.

Lemma keeps_submit_qasm qasm n_shots name noisy group wasm pass no_opt options
    request_options :
  keeps_frame (submit_qasm api qasm n_shots name noisy group wasm pass no_opt
                 options request_options).
Proof. unfold submit_qasm. auto 20 with frame. Qed.

#[local] Hint Resolve keeps_submit_qasm : frame.

Lemma keeps_modify_cache h v :
  keeps_frame (modify (λ σ, set_cache (<[h := v]> (_cache σ)) σ)).
Proof. intros σ r σ' [= <- <-]. apply frame_set_cache. Qed.

#[local] Hint Resolve keeps_modify_cache : frame.

Lemma keeps_process_circuit_body kwargs max_shots circ n_shots :
  keeps_frame (process_circuit_body host api kwargs max_shots circ n_shots).
Proof. unfold process_circuit_body. auto 30 with frame. Qed.

#[local] Hint Resolve keeps_process_circuit_body : frame.

Lemma keeps_process_circuits_loop kwargs max_shots l :
  keeps_frame (process_circuits_loop host api kwargs max_shots l).
Proof.
  induction l as [|[circ n] l IH]; cbn [process_circuits_loop];
    auto 20 with frame.
Qed.

#[local] Hint Resolve keeps_process_circuits_loop : frame.

Lemma keeps_process_circuits circuits n_shots valid_check kwargs :
  keeps_frame (process_circuits host api circuits n_shots valid_check kwargs).
Proof. unfold process_circuits. auto 30 with frame. Qed.

Lemma keeps_check_batchable : keeps_frame (_check_batchable api).
Proof. unfold _check_batchable. auto 20 with frame. Qed.

#[local] Hint Resolve keeps_process_circuits keeps_check_batchable : frame.

Lemma keeps_retrieve_job jobid timeout wait use_websocket :
  keeps_frame (_retrieve_job api jobid timeout wait use_websocket).
Proof. unfold _retrieve_job. auto 20 with frame. Qed.

#[local] Hint Resolve keeps_retrieve_job : frame.

(** X23. No method takes anything back: whatever its outcome, a call of
    [backend_info], [default_compilation_pass], [available_devices],
    [process_circuits], [start_batch], [add_to_batch], [circuit_status],
    [get_result] or [cancel] leaves the device name, the label, the group,
    the simulator, the options and the debug flag of the backend as they
    were, only adds calls to those already made on the API handler, keeps
    a descriptor that was fetched before, and removes no handle from the
    cache. *)
Theorem methods_keep_frame :
  keeps_frame (backend_info api) ∧
  (∀ lvl, keeps_frame (default_compilation_pass api lvl)) ∧
  keeps_frame (available_devices api) ∧
  (∀ circuits n_shots valid_check kwargs,
     keeps_frame
       (process_circuits host api circuits n_shots valid_check kwargs)) ∧
  (∀ cost circuit n_shots valid_check kwargs,
     keeps_frame
       (start_batch host api cost circuit n_shots valid_check kwargs)) ∧
  (∀ head circuit n_shots batch_end valid_check kwargs,
     keeps_frame
       (add_to_batch host api head circuit n_shots batch_end valid_check
          kwargs)) ∧
  (∀ handle kwargs, keeps_frame (circuit_status host api handle kwargs)) ∧
  (∀ handle kwargs, keeps_frame (get_result host api handle kwargs)) ∧
  (∀ handle, keeps_frame (cancel api handle)).
Proof.
  repeat apply conj; intros.
  - apply keeps_backend_info.
  - unfold default_compilation_pass, rebase_pass. auto 40 with frame.
  - unfold available_devices, _available_devices. auto 20 with frame.
  - apply keeps_process_circuits.
  - unfold start_batch. auto 30 with frame.
  - unfold add_to_batch. auto 30 with frame.
  - unfold circuit_status. auto 40 with frame.
  - unfold get_result, Backend_get_result. auto 40 with frame.
  - unfold cancel. auto with frame.
Qed.

End frames.
